(** * CUThreadedDecoder: the threaded NVCUVID decode pipeline

    A shallow embedding of [src/video/nvcodec/cuda_threaded_decoder.cc].
    Every member function is a computation in a small state monad over the
    record of the object's members; a blocking call that cannot proceed and a
    failed [CHECK] are outcomes of the monad, and both carry the state the
    object is left in.  The threads, the caller and the decode engine's
    callbacks are then interleaved by a labelled transition system. *)

From Stdlib Require Import ZArith Lia Bool.
From stdpp Require Import base option list gmap.

(** ** Machine integers *)

(** [int64_t] arithmetic: the sum is reduced into [-2^63, 2^63). *)
Definition wrap64 (z : Z) : Z := ((z + 2 ^ 63) mod 2 ^ 64 - 2 ^ 63)%Z.

Definition in_int64 (z : Z) : Prop := (- 2 ^ 63 <= z < 2 ^ 63)%Z.

(** ** Data carried through the pipeline *)

(** [AVPacket]: the three members the decoder reads. *)
Record AVPacket := mkPacket { pts : Z; duration : Z; size : Z }.

(** [AVPacketPtr]: [None] is the null pointer, the end-of-stream marker. *)
Definition AVPacketPtr := option AVPacket.

(** [NDArray]: a reference to a caller-owned buffer, identified by a handle;
    [None] is the default-constructed array, for which [defined()] is false. *)
Definition NDArray := option nat.

Definition defined (arr : NDArray) : bool :=
  match arr with Some _ => true | None => false end.

(** [CUVIDPARSERDISPINFO]: the members read by the converter. *)
Record CUVIDPARSERDISPINFO := mkDisp { picture_index : Z; timestamp : Z }.

(** ** The blocking queue *)

(** Modelled from the spec: the queue class behind [PacketQueue],
    [FrameQueue], [BufferQueue], [ReorderQueue], [FrameOrderQueue] and
    [PermitQueue] is declared outside the sources.  Section 4.1 of the
    specification: an unbounded FIFO; [Push] appends; [Pop] blocks until an
    item is available or the queue is killed; a kill signal is idempotent and
    fails subsequent pops.  The kill signal does not discard the items. *)
Record BlockingQueue (T : Type) := mkQueue { items : list T; killed : bool }.
Arguments mkQueue {T} _ _.
Arguments items {T} _.
Arguments killed {T} _.

(** Modelled from the spec: a freshly allocated queue. *)
Definition bq_new {T} : BlockingQueue T := mkQueue [] false.

(** Modelled from the spec: [Push(item)]. *)
Definition bq_Push {T} (x : T) (q : BlockingQueue T) : BlockingQueue T :=
  mkQueue (items q ++ [x]) (killed q).

(** Modelled from the spec: [SignalForKill()]. *)
Definition bq_SignalForKill {T} (q : BlockingQueue T) : BlockingQueue T :=
  mkQueue (items q) true.

(** Modelled from the spec: [Size()]. *)
Definition bq_Size {T} (q : BlockingQueue T) : nat := length (items q).

(** The three ways a [Pop] can go. *)
Inductive pop_result (T : Type) :=
| PopItem (x : T) (q' : BlockingQueue T)
| PopKilled
| PopWaits.
Arguments PopItem {T} _ _.
Arguments PopKilled {T}.
Arguments PopWaits {T}.

(** Modelled from the spec: [Pop(&x)]. *)
Definition bq_Pop {T} (q : BlockingQueue T) : pop_result T :=
  if killed q then PopKilled
  else match items q with
       | [] => PopWaits
       | x :: rest => PopItem x (mkQueue rest false)
       end.

(** ** What the object does to its collaborators *)

Inductive thread_fn := LaunchThread | ConvertThread.

(** The history of the calls that leave the object, and of the permit
    traffic.  It is written, never read, by the modelled code. *)
Inductive Obs :=
| ObsSpawn (f : thread_fn)           (* std::thread{f, this} *)
| ObsPermitsInit                     (* the permit queues were rebuilt *)
| ObsAcquire (slot : Z)              (* permit_queue->Pop succeeded *)
| ObsDecodePicture (slot : Z)        (* cuvidDecodePicture *)
| ObsDisplay (slot : Z)              (* a display-ready notification *)
| ObsProcessFrame (slot : Z) (arr : NDArray)
| ObsRelease (slot : Z)              (* permits_[slot]->Push(1) *)
| ObsParse (p : AVPacketPtr).        (* cuvidParseVideoData *)

(** [std::thread]: only whether the handle owns a thread. *)
Record std_thread := mkThread { joinable : bool }.

(** ** The object *)

(** The members the pipeline logic reads and writes.  [frame_count_] is an
    atomic counter whose width is declared in the header; it is taken
    unbounded.  [log] is not a member: it is the history above. *)

Record CUThreadedDecoder := mkDecoder {
  pkt_queue_ : option (BlockingQueue AVPacketPtr);
  frame_queue_ : option (BlockingQueue NDArray);
  buffer_queue_ : option (BlockingQueue CUVIDPARSERDISPINFO);
  reorder_buffer_ : gmap Z NDArray;
  reorder_queue_ : option (BlockingQueue NDArray);
  frame_order_ : option (BlockingQueue Z);
  last_pts_ : Z;
  permits_ : list (option (BlockingQueue Z));
  run_ : bool;
  frame_count_ : Z;
  draining_ : bool;
  launcher_t_ : std_thread;
  converter_t_ : std_thread;
  log : list Obs
}.

(** The member initialisers of the constructor. *)
Definition constructed : CUThreadedDecoder :=
  {| pkt_queue_ := None; frame_queue_ := None; buffer_queue_ := None;
     reorder_buffer_ := ∅; reorder_queue_ := None; frame_order_ := None;
     last_pts_ := (-1)%Z; permits_ := []; run_ := false;
     frame_count_ := 0%Z; draining_ := false;
     launcher_t_ := mkThread false; converter_t_ := mkThread false;
     log := [] |}.

(** A member, as a getter and a setter. *)
Record member (T : Type) := mkMember {
  mget : CUThreadedDecoder -> T;
  mset : T -> CUThreadedDecoder -> CUThreadedDecoder
}.
Arguments mkMember {T} _ _.
Arguments mget {T} _ _.
Arguments mset {T} _ _ _.

Definition m_pkt_queue := mkMember pkt_queue_ (fun v s =>
  mkDecoder v (frame_queue_ s) (buffer_queue_ s) (reorder_buffer_ s)
    (reorder_queue_ s) (frame_order_ s) (last_pts_ s) (permits_ s) (run_ s)
    (frame_count_ s) (draining_ s) (launcher_t_ s) (converter_t_ s) (log s)).
Definition m_frame_queue := mkMember frame_queue_ (fun v s =>
  mkDecoder (pkt_queue_ s) v (buffer_queue_ s) (reorder_buffer_ s)
    (reorder_queue_ s) (frame_order_ s) (last_pts_ s) (permits_ s) (run_ s)
    (frame_count_ s) (draining_ s) (launcher_t_ s) (converter_t_ s) (log s)).
Definition m_buffer_queue := mkMember buffer_queue_ (fun v s =>
  mkDecoder (pkt_queue_ s) (frame_queue_ s) v (reorder_buffer_ s)
    (reorder_queue_ s) (frame_order_ s) (last_pts_ s) (permits_ s) (run_ s)
    (frame_count_ s) (draining_ s) (launcher_t_ s) (converter_t_ s) (log s)).
Definition m_reorder_buffer := mkMember reorder_buffer_ (fun v s =>
  mkDecoder (pkt_queue_ s) (frame_queue_ s) (buffer_queue_ s) v
    (reorder_queue_ s) (frame_order_ s) (last_pts_ s) (permits_ s) (run_ s)
    (frame_count_ s) (draining_ s) (launcher_t_ s) (converter_t_ s) (log s)).
Definition m_reorder_queue := mkMember reorder_queue_ (fun v s =>
  mkDecoder (pkt_queue_ s) (frame_queue_ s) (buffer_queue_ s)
    (reorder_buffer_ s) v (frame_order_ s) (last_pts_ s) (permits_ s) (run_ s)
    (frame_count_ s) (draining_ s) (launcher_t_ s) (converter_t_ s) (log s)).
Definition m_frame_order := mkMember frame_order_ (fun v s =>
  mkDecoder (pkt_queue_ s) (frame_queue_ s) (buffer_queue_ s)
    (reorder_buffer_ s) (reorder_queue_ s) v (last_pts_ s) (permits_ s)
    (run_ s) (frame_count_ s) (draining_ s) (launcher_t_ s) (converter_t_ s)
    (log s)).
Definition m_last_pts := mkMember last_pts_ (fun v s =>
  mkDecoder (pkt_queue_ s) (frame_queue_ s) (buffer_queue_ s)
    (reorder_buffer_ s) (reorder_queue_ s) (frame_order_ s) v (permits_ s)
    (run_ s) (frame_count_ s) (draining_ s) (launcher_t_ s) (converter_t_ s)
    (log s)).
Definition m_permits := mkMember permits_ (fun v s =>
  mkDecoder (pkt_queue_ s) (frame_queue_ s) (buffer_queue_ s)
    (reorder_buffer_ s) (reorder_queue_ s) (frame_order_ s) (last_pts_ s) v
    (run_ s) (frame_count_ s) (draining_ s) (launcher_t_ s) (converter_t_ s)
    (log s)).
Definition m_run := mkMember run_ (fun v s =>
  mkDecoder (pkt_queue_ s) (frame_queue_ s) (buffer_queue_ s)
    (reorder_buffer_ s) (reorder_queue_ s) (frame_order_ s) (last_pts_ s)
    (permits_ s) v (frame_count_ s) (draining_ s) (launcher_t_ s)
    (converter_t_ s) (log s)).
Definition m_frame_count := mkMember frame_count_ (fun v s =>
  mkDecoder (pkt_queue_ s) (frame_queue_ s) (buffer_queue_ s)
    (reorder_buffer_ s) (reorder_queue_ s) (frame_order_ s) (last_pts_ s)
    (permits_ s) (run_ s) v (draining_ s) (launcher_t_ s) (converter_t_ s)
    (log s)).
Definition m_draining := mkMember draining_ (fun v s =>
  mkDecoder (pkt_queue_ s) (frame_queue_ s) (buffer_queue_ s)
    (reorder_buffer_ s) (reorder_queue_ s) (frame_order_ s) (last_pts_ s)
    (permits_ s) (run_ s) (frame_count_ s) v (launcher_t_ s) (converter_t_ s)
    (log s)).
Definition m_launcher_t := mkMember launcher_t_ (fun v s =>
  mkDecoder (pkt_queue_ s) (frame_queue_ s) (buffer_queue_ s)
    (reorder_buffer_ s) (reorder_queue_ s) (frame_order_ s) (last_pts_ s)
    (permits_ s) (run_ s) (frame_count_ s) (draining_ s) v (converter_t_ s)
    (log s)).
Definition m_converter_t := mkMember converter_t_ (fun v s =>
  mkDecoder (pkt_queue_ s) (frame_queue_ s) (buffer_queue_ s)
    (reorder_buffer_ s) (reorder_queue_ s) (frame_order_ s) (last_pts_ s)
    (permits_ s) (run_ s) (frame_count_ s) (draining_ s) (launcher_t_ s) v
    (log s)).
Definition m_log := mkMember log (fun v s =>
  mkDecoder (pkt_queue_ s) (frame_queue_ s) (buffer_queue_ s)
    (reorder_buffer_ s) (reorder_queue_ s) (frame_order_ s) (last_pts_ s)
    (permits_ s) (run_ s) (frame_count_ s) (draining_ s) (launcher_t_ s)
    (converter_t_ s) v).

(** ** The monad of member functions *)

Inductive error :=
| CheckFailed      (* CHECK / CHECK_GE / CHECK_LT, LOG(FATAL) *)
| NullDeref        (* -> on an empty unique_ptr or shared_ptr *)
| OutOfRange       (* operator[] past the end of permits_ *)
| Terminate.       (* assignment to a joinable std::thread *)

Inductive outcome (A : Type) :=
| Ret (a : A)
| Fatal (e : error)
| Blocks.
Arguments Ret {A} _.
Arguments Fatal {A} _.
Arguments Blocks {A}.

Definition M (A : Type) : Type :=
  CUThreadedDecoder -> outcome A * CUThreadedDecoder.

Definition ret {A} (a : A) : M A := fun s => (Ret a, s).

Definition bind {A B} (m : M A) (k : A -> M B) : M B :=
  fun s => match m s with
           | (Ret a, s') => k a s'
           | (Fatal e, s') => (Fatal e, s')
           | (Blocks, s') => (Blocks, s')
           end.

Notation "x <- c1 ;; c2" := (bind c1 (fun x => c2))
  (at level 100, c1 at next level, right associativity).
Notation "c1 ;; c2" := (bind c1 (fun _ => c2))
  (at level 100, right associativity).

Definition fatal {A} (e : error) : M A := fun s => (Fatal e, s).
Definition blocks {A} : M A := fun s => (Blocks, s).

Definition load {T} (f : member T) : M T := fun s => (Ret (mget f s), s).
Definition store {T} (f : member T) (v : T) : M unit :=
  fun s => (Ret tt, mset f v s).
Definition emit (o : Obs) : M unit :=
  fun s => (Ret tt, mset m_log (log s ++ [o]) s).

Definition CHECK (b : bool) : M unit :=
  if b then ret tt else fatal CheckFailed.

(** [f->op] on a smart-pointer member. *)
Definition deref {T} (f : member (option T)) : M T :=
  p <- load f ;;
  match p with Some q => ret q | None => fatal NullDeref end.

Definition q_Push {T} (f : member (option (BlockingQueue T))) (x : T)
  : M unit :=
  q <- deref f ;; store f (Some (bq_Push x q)).

Definition q_SignalForKill {T} (f : member (option (BlockingQueue T)))
  : M unit :=
  q <- deref f ;; store f (Some (bq_SignalForKill q)).

Definition q_Size {T} (f : member (option (BlockingQueue T))) : M nat :=
  q <- deref f ;; ret (bq_Size q).

(** [f->Pop(&x)]: [Some x] when it returns true, [None] when it returns
    false, and no return while it waits. *)
Definition q_Pop {T} (f : member (option (BlockingQueue T)))
  : M (option T) :=
  q <- deref f ;;
  match bq_Pop q with
  | PopItem x q' => store f (Some q') ;; ret (Some x)
  | PopKilled => ret None
  | PopWaits => blocks
  end.

(** [permits_[i]], then [->]: past the end of the vector is [OutOfRange]. *)
Definition permit_at (i : Z) : M (BlockingQueue Z) :=
  ps <- load m_permits ;;
  match (if (0 <=? i)%Z then ps !! Z.to_nat i else None) with
  | None => fatal OutOfRange
  | Some None => fatal NullDeref
  | Some (Some q) => ret q
  end.

(** The permit queue of slot [i] is shared: an update is seen through
    [permits_]. *)
Definition permit_put (i : Z) (q : BlockingQueue Z) : M unit :=
  ps <- load m_permits ;;
  store m_permits (<[Z.to_nat i := Some q]> ps).

(** [std::vector::resize]. *)
Definition resize_permits (n : nat) (ps : list (option (BlockingQueue Z)))
  : list (option (BlockingQueue Z)) :=
  take n ps ++ replicate (n - length ps) None.

(** [for (auto& p : permits_) if (p) p->SignalForKill();] *)
Definition kill_permits (ps : list (option (BlockingQueue Z)))
  : list (option (BlockingQueue Z)) :=
  map (option_map bq_SignalForKill) ps.

(** [t = std::thread{fn, this}]: assigning to a handle that still owns a
    thread terminates the process. *)
Definition spawn (t : member std_thread) (fn : thread_fn) : M unit :=
  h <- load t ;;
  if joinable h then fatal Terminate
  else emit (ObsSpawn fn) ;; store t (mkThread true).

(** [if (t.joinable()) t.join();]  The state is the one in which [join] has
    returned; whether the thread ever leaves its loop is decided by the
    transition system below, not here. *)
Definition join_if_joinable (t : member std_thread) : M unit :=
  h <- load t ;;
  if joinable h then store t (mkThread false) else ret tt.

(** ** Lifecycle *)

Section Lifecycle.

(** Declared in the header, which is not among the sources. *)
Variable kMaxOutputSurfaces : nat.

(** [CUThreadedDecoder::Start], lines 114-141.  [avcodec_flush_buffers]
    acts on the codec context, which the model does not hold. *)
Definition Start : M unit :=
  r <- load m_run ;;
  if r then ret tt
  else
    store m_pkt_queue (Some bq_new) ;;
    store m_frame_queue (Some bq_new) ;;
    store m_buffer_queue (Some bq_new) ;;
    store m_reorder_queue (Some bq_new) ;;
    store m_frame_order (Some bq_new) ;;
    ps <- load m_permits ;;
    CHECK (length ps =? 0) ;;
    store m_permits (resize_permits kMaxOutputSurfaces ps) ;;
    ps <- load m_permits ;;
    store m_permits (map (fun _ => Some (bq_Push 1%Z bq_new)) ps) ;;
    emit ObsPermitsInit ;;
    store m_run true ;;
    spawn m_launcher_t LaunchThread ;;
    spawn m_converter_t ConvertThread.

End Lifecycle.

(** [CUThreadedDecoder::Stop], lines 144-146: the test of [run_], the kill
    of the packet queue and the store to [run_].  The result tells whether
    the body of the [if] was entered. *)
Definition Stop_signal : M bool :=
  r <- load m_run ;;
  if r then
    q_SignalForKill m_pkt_queue ;;
    store m_run false ;;
    ret true
  else ret false.

(** [CUThreadedDecoder::Stop], lines 147-161: the rest of the body of the
    [if], and the two joins. *)
Definition Stop_finish (entered : bool) : M unit :=
  (if entered then
     q_SignalForKill m_frame_queue ;;
     q_SignalForKill m_buffer_queue ;;
     q_SignalForKill m_reorder_queue ;;
     q_SignalForKill m_frame_order ;;
     ps <- load m_permits ;;
     store m_permits (kill_permits ps)
   else ret tt) ;;
  join_if_joinable m_launcher_t ;;
  join_if_joinable m_converter_t.

(** [CUThreadedDecoder::Stop], lines 143-162. *)
Definition Stop : M unit :=
  entered <- Stop_signal ;; Stop_finish entered.

(** [CUThreadedDecoder::Clear], lines 166-171: what follows the call of
    [Stop]. *)
Definition Clear_rest : M unit :=
  store m_frame_count 0%Z ;;
  store m_reorder_buffer ∅ ;;
  ps <- load m_permits ;;
  store m_permits (kill_permits ps) ;;
  store m_permits [].

(** [CUThreadedDecoder::Clear], lines 164-173. *)
Definition Clear : M unit := Stop ;; Clear_rest.

(** What the caller still has to do once [Stop_signal] has returned, in
    [Stop] and in [Clear]. *)
Definition Stop_resume (entered clearing : bool) : M unit :=
  Stop_finish entered ;;
  if clearing then Clear_rest else ret tt.

(** ** The engine's callbacks *)

(** [CUThreadedDecoder::HandlePictureDecode_], lines 207-221.  The loop
    [while (permit_queue->Size() < 1) continue;] does not return while the
    queue is empty.  [cuvidDecodePicture] is taken to succeed: its failure
    is [LOG(FATAL)]. *)
Definition HandlePictureDecode_ (CurrPicIdx : Z) : M Z :=
  CHECK (0 <=? CurrPicIdx)%Z ;;
  ps <- load m_permits ;;
  CHECK (CurrPicIdx <? Z.of_nat (length ps))%Z ;;
  permit_queue <- permit_at CurrPicIdx ;;
  (if bq_Size permit_queue <? 1 then blocks else ret tt) ;;
  got <- match bq_Pop permit_queue with
         | PopWaits => blocks
         | PopKilled => ret false
         | PopItem _ q' =>
             permit_put CurrPicIdx q' ;;
             emit (ObsAcquire CurrPicIdx) ;;
             ret true
         end ;;
  r <- load m_run ;;
  if negb r || negb got then ret 0%Z
  else emit (ObsDecodePicture CurrPicIdx) ;; ret 1%Z.

(** [CUThreadedDecoder::HandlePictureDisplay_], lines 223-231. *)
Definition HandlePictureDisplay_ (disp_info : CUVIDPARSERDISPINFO) : M Z :=
  q_Push m_buffer_queue disp_info ;;
  emit (ObsDisplay (picture_index disp_info)) ;;
  ret 1%Z.

(** ** The caller's interface *)

(** [CUThreadedDecoder::Push], lines 233-258. *)
Definition Push (pkt : AVPacketPtr) (buf : NDArray) : M unit :=
  r <- load m_run ;;
  CHECK r ;;
  (match pkt with
   | None =>
       d <- load m_draining ;;
       CHECK (negb d) ;;
       store m_draining true
   | Some _ => ret tt
   end) ;;
  (match pkt with
   | Some p =>
       lp <- load m_last_pts ;;
       if (lp <? 0)%Z then
         store m_last_pts (pts p) ;;
         lp <- load m_last_pts ;;
         q_Push m_frame_order lp
       else
         store m_last_pts (wrap64 (lp + duration p)) ;;
         lp <- load m_last_pts ;;
         q_Push m_frame_order lp
   | None => ret tt
   end) ;;
  q_Push m_pkt_queue pkt ;;
  q_Push m_frame_queue buf ;;
  fc <- load m_frame_count ;;
  store m_frame_count (fc + 1)%Z.

(** [CUThreadedDecoder::Pop], lines 260-271: [Some frame] for [true],
    [None] for [false]. *)
Definition Pop : M (option NDArray) :=
  fc <- load m_frame_count ;;
  d <- load m_draining ;;
  if (fc =? 0)%Z && negb d then ret None
  else
    n <- q_Size m_reorder_queue ;;
    if n <? 1 then ret None
    else
      r <- q_Pop m_reorder_queue ;;
      match r with
      | None => ret None
      | Some frame =>
          fc <- load m_frame_count ;;
          store m_frame_count (fc - 1)%Z ;;
          ret (Some frame)
      end.

(** ** The two threads *)

(** One turn of the loop of [CUThreadedDecoder::LaunchThread], lines
    276-309: [true] when the loop goes round again, [false] when the thread
    function returns.  The bitstream filter and the parser are external; what
    is handed to the parser is recorded: the packet, or the end of stream. *)
Definition LaunchThread_iter : M bool :=
  r <- load m_run ;;
  if negb r then ret false
  else
    p <- q_Pop m_pkt_queue ;;
    match p with
    | None => ret false
    | Some avpkt =>
        (match avpkt with
         | Some pk =>
             if (size pk =? 0)%Z then emit (ObsParse None)
             else emit (ObsParse (Some pk))
         | None => emit (ObsParse None)
         end) ;;
        ret true
    end.

(** [CUThreadedDecoder::ConvertThread], lines 344-356: the reconciliation of
    the converted array with the expected key. *)
Definition reconcile (desired_pts frame_pts : Z) (arr : NDArray) : M unit :=
  if (desired_pts =? frame_pts)%Z then
    q_Push m_reorder_queue arr
  else
    rb <- load m_reorder_buffer ;;
    store m_reorder_buffer (<[frame_pts := arr]> rb) ;;
    rb <- load m_reorder_buffer ;;
    match rb !! frame_pts with
    | Some second =>
        q_Push m_reorder_queue second ;;
        rb <- load m_reorder_buffer ;;
        store m_reorder_buffer (delete frame_pts rb)
    | None => ret tt
    end.

(** One turn of the loop of [CUThreadedDecoder::ConvertThread], lines
    315-360.  [disp_info] is the descriptor itself, so the check that the
    pointer is not null has nothing to test. *)
Definition ConvertThread_iter : M bool :=
  r <- load m_run ;;
  if negb r then ret false
  else
    d <- q_Pop m_buffer_queue ;;
    match d with
    | None => ret false
    | Some disp_info =>
        a <- q_Pop m_frame_queue ;;
        let arr : NDArray := match a with Some x => x | None => None end in
        CHECK (defined arr) ;;
        emit (ObsProcessFrame (picture_index disp_info) arr) ;;
        let frame_pts := timestamp disp_info in
        fo <- q_Pop m_frame_order ;;
        match fo with
        | None => ret false
        | Some desired_pts =>
            reconcile desired_pts frame_pts arr ;;
            q <- permit_at (picture_index disp_info) ;;
            permit_put (picture_index disp_info) (bq_Push 1%Z q) ;;
            emit (ObsRelease (picture_index disp_info)) ;;
            ret true
        end
    end.

(** ** Sequences of submissions *)

(** The caller pushes the pairs one after the other; the first failure
    stops the sequence. *)
Fixpoint push_all (l : list (AVPacketPtr * NDArray)) : M unit :=
  match l with
  | [] => ret tt
  | (pkt, buf) :: rest => Push pkt buf ;; push_all rest
  end.

(** What a queue holds, and whether it still delivers; nothing for a
    queue that was never allocated. *)
Definition contents {T} (o : option (BlockingQueue T)) : list T :=
  match o with Some q => items q | None => [] end.

Definition live {T} (o : option (BlockingQueue T)) : bool :=
  match o with Some q => negb (killed q) | None => false end.

(** The keys held by the Expected-Order Sequence. *)
Definition keys (s : CUThreadedDecoder) : list Z := contents (frame_order_ s).

(** The frames waiting in the output queue. *)
Definition ready (s : CUThreadedDecoder) : list NDArray :=
  contents (reorder_queue_ s).

(** The cursor values assigned to the packets that follow a packet whose
    cursor value is [c]. *)
Fixpoint cursor_seq (c : Z) (ps : list AVPacket) : list Z :=
  match ps with
  | [] => []
  | p :: rest => (c + duration p)%Z :: cursor_seq (c + duration p)%Z rest
  end.

(** Each packet after the first finds a cursor that is set (not negative),
    and advancing it stays within [int64_t]. *)
Fixpoint cursor_valid (c : Z) (ps : list AVPacket) : Prop :=
  match ps with
  | [] => True
  | p :: rest =>
      (0 <= c)%Z /\ in_int64 (c + duration p)%Z /\
      cursor_valid (c + duration p)%Z rest
  end.

(** ** The history, by session *)

(** The part of the history that follows the last rebuild of the permit
    queues. *)
Definition session_step (acc : list Obs) (o : Obs) : list Obs :=
  match o with ObsPermitsInit => [] | _ => acc ++ [o] end.

Definition session (l : list Obs) : list Obs := fold_left session_step l [].

Fixpoint count (P : Obs -> bool) (l : list Obs) : nat :=
  match l with
  | [] => 0
  | o :: rest => (if P o then 1 else 0) + count P rest
  end.

Definition is_init (o : Obs) : bool :=
  match o with ObsPermitsInit => true | _ => false end.
Definition is_acquire (slot : Z) (o : Obs) : bool :=
  match o with ObsAcquire i => (i =? slot)%Z | _ => false end.
Definition is_submit (slot : Z) (o : Obs) : bool :=
  match o with ObsDecodePicture i => (i =? slot)%Z | _ => false end.
Definition is_display (slot : Z) (o : Obs) : bool :=
  match o with ObsDisplay i => (i =? slot)%Z | _ => false end.
Definition is_release (slot : Z) (o : Obs) : bool :=
  match o with ObsRelease i => (i =? slot)%Z | _ => false end.
Definition any_acquire (o : Obs) : bool :=
  match o with ObsAcquire _ => true | _ => false end.
Definition any_submit (o : Obs) : bool :=
  match o with ObsDecodePicture _ => true | _ => false end.
Definition any_display (o : Obs) : bool :=
  match o with ObsDisplay _ => true | _ => false end.
Definition any_release (o : Obs) : bool :=
  match o with ObsRelease _ => true | _ => false end.

(** Permits of [slot] taken, decodes submitted, surfaces shown and permits
    given back, in the current session. *)
Definition acquired (slot : Z) (s : CUThreadedDecoder) : nat :=
  count (is_acquire slot) (session (log s)).
Definition submitted (slot : Z) (s : CUThreadedDecoder) : nat :=
  count (is_submit slot) (session (log s)).
Definition displayed (slot : Z) (s : CUThreadedDecoder) : nat :=
  count (is_display slot) (session (log s)).
Definition released (slot : Z) (s : CUThreadedDecoder) : nat :=
  count (is_release slot) (session (log s)).

(** The tokens lying in the permit queue of [slot]. *)
Definition tokens (slot : Z) (s : CUThreadedDecoder) : nat :=
  match (if (0 <=? slot)%Z then permits_ s !! Z.to_nat slot else None) with
  | Some (Some q) => bq_Size q
  | _ => 0
  end.


(** ** The pipeline as a transition system *)

(** Where the caller is: between calls, or inside [Stop] after
    [run_.store(false)] ([entered] tells whether the body of the [if] was
    entered, [clearing] whether [Stop] was called by [Clear]). *)
Inductive caller_pc := Idle | InStop (entered clearing : bool).

Record system := mkSys {
  dec : CUThreadedDecoder;
  pc : caller_pc;
  pushed : list (AVPacketPtr * NDArray);   (* the Push calls that returned *)
  popped : list NDArray                    (* the frames Pop has returned *)
}.

Definition initial : system := mkSys constructed Idle [] [].

(** What can happen next: a call of the caller; the caller going on inside
    [Stop]; one turn of the loop of either thread; one callback of the
    engine. *)
Inductive event :=
| CallStart
| CallStop                                 (* Stop, up to run_.store(false) *)
| CallClear                                (* Clear, up to the same point *)
| CallPush (pkt : AVPacketPtr) (buf : NDArray)
| CallPop
| StopResume                               (* the rest of Stop or Clear *)
| LaunchTurn
| ConvertTurn
| EngineDecode (CurrPicIdx : Z)            (* HandlePictureDecode *)
| EngineDisplay (disp_info : CUVIDPARSERDISPINFO).  (* HandlePictureDisplay *)

(** The engine's side of the callback protocol: it signals a surface as
    ready for display only for a slot into which a decode was submitted, in
    this session, and that it has not signalled since. *)
Definition engine_may_display (slot : Z) (s : CUThreadedDecoder) : bool :=
  displayed slot s <? submitted slot s.

(** A turn of a thread: the thread must exist; a turn that waits is not
    taken, and a fatal error in a thread ends the process. *)
Definition thread_turn {A} (t : std_thread) (m : M A) (st : system)
  : option system :=
  if joinable t then
    match m (dec st) with
    | (Ret _, s') => Some (mkSys s' (pc st) (pushed st) (popped st))
    | _ => None
    end
  else None.

(** A callback: it returns, or the transition is not taken. *)
Definition callback {A} (m : M A) (st : system) : option system :=
  match m (dec st) with
  | (Ret _, s') => Some (mkSys s' (pc st) (pushed st) (popped st))
  | _ => None
  end.

Section Pipeline.

Variable kMaxOutputSurfaces : nat.

(** One transition.  Calls of the caller, turns of the two loops and
    callbacks of the engine are atomic, except [Stop], which is cut where
    [run_] has just been cleared.  A call of the caller that fails a [CHECK]
    leaves the object as it was at the failure, and the caller goes on.
    When the caller resumes [Stop], [run_] is false and the next turn of
    either loop returns without effect, so the joins are taken to
    succeed. *)
Definition exec (e : event) (st : system) : option system :=
  match e, pc st with
  | CallStart, Idle =>
      match Start kMaxOutputSurfaces (dec st) with
      | (Blocks, _) => None
      | (_, s') => Some (mkSys s' Idle (pushed st) (popped st))
      end
  | CallStop, Idle =>
      match Stop_signal (dec st) with
      | (Ret entered, s') =>
          Some (mkSys s' (InStop entered false) (pushed st) (popped st))
      | (Fatal _, s') => Some (mkSys s' Idle (pushed st) (popped st))
      | (Blocks, _) => None
      end
  | CallClear, Idle =>
      match Stop_signal (dec st) with
      | (Ret entered, s') =>
          Some (mkSys s' (InStop entered true) (pushed st) (popped st))
      | (Fatal _, s') => Some (mkSys s' Idle (pushed st) (popped st))
      | (Blocks, _) => None
      end
  | StopResume, InStop entered clearing =>
      match Stop_resume entered clearing (dec st) with
      | (Blocks, _) => None
      | (_, s') => Some (mkSys s' Idle (pushed st) (popped st))
      end
  | CallPush pkt buf, Idle =>
      match Push pkt buf (dec st) with
      | (Ret _, s') =>
          Some (mkSys s' Idle (pushed st ++ [(pkt, buf)]) (popped st))
      | (Fatal _, s') => Some (mkSys s' Idle (pushed st) (popped st))
      | (Blocks, _) => None
      end
  | CallPop, Idle =>
      match Pop (dec st) with
      | (Ret (Some frame), s') =>
          Some (mkSys s' Idle (pushed st) (popped st ++ [frame]))
      | (Ret None, s') => Some (mkSys s' Idle (pushed st) (popped st))
      | (Fatal _, s') => Some (mkSys s' Idle (pushed st) (popped st))
      | (Blocks, _) => None
      end
  | LaunchTurn, _ =>
      thread_turn (launcher_t_ (dec st)) LaunchThread_iter st
  | ConvertTurn, _ =>
      thread_turn (converter_t_ (dec st)) ConvertThread_iter st
  | EngineDecode CurrPicIdx, _ =>
      callback (HandlePictureDecode_ CurrPicIdx) st
  | EngineDisplay disp_info, _ =>
      if engine_may_display (picture_index disp_info) (dec st)
      then callback (HandlePictureDisplay_ disp_info) st
      else None
  | _, _ => None
  end.

Fixpoint run_events (tr : list event) (st : system) : option system :=
  match tr with
  | [] => Some st
  | e :: rest =>
      match exec e st with
      | Some st' => run_events rest st'
      | None => None
      end
  end.

Definition reachable (st : system) : Prop :=
  exists tr, run_events tr initial = Some st.

End Pipeline.

(** The display-ready notifications in a trace, and the events that keep
    the session going. *)
Definition is_display_event (e : event) : bool :=
  match e with EngineDisplay _ => true | _ => false end.

Definition session_event (e : event) : bool :=
  match e with
  | CallStart | CallStop | CallClear | StopResume => false
  | _ => true
  end.

Fixpoint count_events (P : event -> bool) (tr : list event) : nat :=
  match tr with
  | [] => 0
  | e :: rest => (if P e then 1 else 0) + count_events P rest
  end.

(** ** Predicates of the statements *)

(** [AV_NOPTS_VALUE] of libavutil: the timestamp of a packet that has
    none. *)
Definition AV_NOPTS_VALUE : Z := (- 2 ^ 63)%Z.

(** The five queues exist: [Start] has run at least once. *)
Definition allocated (s : CUThreadedDecoder) : Prop :=
  is_Some (pkt_queue_ s) /\ is_Some (frame_queue_ s) /\
  is_Some (buffer_queue_ s) /\ is_Some (reorder_queue_ s) /\
  is_Some (frame_order_ s).

(** What [Push] needs to go through. *)
Definition producing (s : CUThreadedDecoder) : Prop :=
  run_ s = true /\ is_Some (pkt_queue_ s) /\ is_Some (frame_queue_ s) /\
  is_Some (frame_order_ s).

(** Packets with their buffers, as arguments of [Push]. *)
Definition data (l : list (AVPacket * NDArray))
  : list (AVPacketPtr * NDArray) :=
  map (fun pb => (Some (fst pb), snd pb)) l.

Definition sum_durations (ps : list AVPacket) : Z :=
  fold_right (fun p acc => (duration p + acc)%Z) 0%Z ps.

(** [N] packets with [N] buffers [Some b], [b] taken from [bufs]. *)
Definition submission (pkts : list AVPacket) (bufs : list nat)
  : list (AVPacketPtr * NDArray) :=
  zip (map Some pkts) (map Some bufs).

(** End-of-stream markers among the submissions. *)
Fixpoint n_eos (l : list (AVPacketPtr * NDArray)) : nat :=
  match l with
  | [] => 0
  | (None, _) :: rest => S (n_eos rest)
  | (Some _, _) :: rest => n_eos rest
  end.

(** The entries of the history that touch neither the permits nor the
    callbacks. *)
Definition quiet (o : Obs) : bool :=
  match o with
  | ObsSpawn _ | ObsProcessFrame _ _ | ObsParse _ => true
  | _ => false
  end.

(** Two states that agree on the permits, the ready surfaces, the history
    and the Reorder Map. *)
Definition same_view (s s' : CUThreadedDecoder) : Prop :=
  permits_ s' = permits_ s /\ buffer_queue_ s' = buffer_queue_ s /\
  log s' = log s /\ reorder_buffer_ s' = reorder_buffer_ s.

(** Two states that agree on what the caller and the converter share. *)
Definition same_core (s s' : CUThreadedDecoder) : Prop :=
  run_ s' = run_ s /\ converter_t_ s' = converter_t_ s /\
  frame_queue_ s' = frame_queue_ s /\ reorder_queue_ s' = reorder_queue_ s /\
  frame_order_ s' = frame_order_ s /\ frame_count_ s' = frame_count_ s /\
  draining_ s' = draining_ s.

(** Ready surfaces of [slot] the converter has not taken yet. *)
Fixpoint count_slot (slot : Z) (l : list CUVIDPARSERDISPINFO) : nat :=
  match l with
  | [] => 0
  | d :: rest =>
      (if (picture_index d =? slot)%Z then 1 else 0) + count_slot slot rest
  end.

Definition inbuf (slot : Z) (s : CUThreadedDecoder) : nat :=
  match buffer_queue_ s with
  | Some q => count_slot slot (items q)
  | None => 0
  end.

(** All the tokens lying in the permit queues. *)
Fixpoint sum_tokens (ps : list (option (BlockingQueue Z))) : nat :=
  match ps with
  | [] => 0
  | p :: rest =>
      match p with Some q => bq_Size q | None => 0 end + sum_tokens rest
  end.

(** [tokens], on the vector of permit queues alone. *)
Definition toks (ps : list (option (BlockingQueue Z))) (slot : Z) : nat :=
  match (if (0 <=? slot)%Z then ps !! Z.to_nat slot else None) with
  | Some (Some q) => bq_Size q
  | _ => 0
  end.

(** [slot] indexes a permit queue that exists. *)
Definition slot_ok (ps : list (option (BlockingQueue Z))) (slot : Z) : Prop :=
  (0 <= slot)%Z /\ exists q, ps !! Z.to_nat slot = Some (Some q).

(** The accounting of the permits, kept by every transition. *)
Record permit_inv (k : nat) (s : CUThreadedDecoder) : Prop := mkPermitInv {
  pi_slot : forall slot,
    tokens slot s + acquired slot s <= 1 + released slot s;
  pi_rel : forall slot, released slot s + inbuf slot s <= displayed slot s;
  pi_disp : forall slot, displayed slot s <= submitted slot s;
  pi_sub : forall slot, submitted slot s <= acquired slot s;
  pi_total :
    count any_acquire (session (log s)) + sum_tokens (permits_ s)
    <= count any_release (session (log s)) + k;
  pi_sub_total :
    count any_submit (session (log s)) <= count any_acquire (session (log s));
  pi_map : reorder_buffer_ s = ∅
}.

(** What holds from [Start] on, while the caller only pushes and pops. *)
Record session_inv (st : system) : Prop := mkSessionInv {
  si_pc : pc st = Idle;
  si_run : run_ (dec st) = true;
  si_conv : joinable (converter_t_ (dec st)) = true;
  si_pkt : is_Some (pkt_queue_ (dec st));
  si_live :
    live (frame_queue_ (dec st)) = true /\
    live (buffer_queue_ (dec st)) = true /\
    live (reorder_queue_ (dec st)) = true /\
    live (frame_order_ (dec st)) = true;
  si_order :
    map snd (pushed st) =
    popped st ++ contents (reorder_queue_ (dec st)) ++
    contents (frame_queue_ (dec st));
  si_keys :
    length (contents (frame_queue_ (dec st))) =
    length (contents (frame_order_ (dec st))) + n_eos (pushed st);
  si_count :
    frame_count_ (dec st) =
    Z.of_nat (length (contents (reorder_queue_ (dec st))) +
              length (contents (frame_queue_ (dec st))));
  si_shown :
    length (contents (buffer_queue_ (dec st))) + length (popped st) +
    length (contents (reorder_queue_ (dec st))) =
    count any_display (session (log (dec st)));
  si_drain : draining_ (dec st) = (0 <? n_eos (pushed st));
  si_bufslots :
    Forall (fun d => slot_ok (permits_ (dec st)) (picture_index d))
      (contents (buffer_queue_ (dec st)));
  si_slots : forall slot,
    0 < submitted slot (dec st) -> slot_ok (permits_ (dec st)) slot
}.

(** ** A run of the pipeline, used as an example *)


Definition example_trace : list event :=
  [CallPush (Some (mkPacket 100 100 10)) (Some 1);
   CallPush (Some (mkPacket 200 100 10)) (Some 2);
   LaunchTurn; EngineDecode 0; EngineDisplay (mkDisp 0 100); ConvertTurn;
   CallPop;
   CallPush (Some (mkPacket 300 100 10)) (Some 3);
   CallPush None (Some 9);
   LaunchTurn; LaunchTurn; LaunchTurn;
   EngineDecode 1; EngineDecode 0;
   EngineDisplay (mkDisp 0 300); EngineDisplay (mkDisp 1 200);
   ConvertTurn].

Definition state_after (k : nat) (tr : list event) : system :=
  match run_events k tr initial with Some st => st | None => initial end.

Definition example_state : system :=
  Eval vm_compute in state_after 2 (CallStart :: example_trace).



(** * The rest of the class

    The thread functions as loops, the configuration, and what holds in
    every reachable state. *)

(** ** The thread functions *)

(** [CUThreadedDecoder::LaunchThread], lines 273-310: the loop
    [while (run_.load()) { ... }], for at most [fuel] turns.  [Some tt] when
    the thread function has returned, [None] when [fuel] turns were taken and
    the loop is still going.  [ctx_.Push()] binds the CUDA context to the
    thread and touches no member. *)
Fixpoint LaunchThread_loop (fuel : nat) : M (option unit) :=
  match fuel with
  | 0 => ret None
  | S n =>
      again <- LaunchThread_iter ;;
      if again then LaunchThread_loop n else ret (Some tt)
  end.

(** [CUThreadedDecoder::ConvertThread], lines 312-361, in the same way. *)
Fixpoint ConvertThread_loop (fuel : nat) : M (option unit) :=
  match fuel with
  | 0 => ret None
  | S n =>
      again <- ConvertThread_iter ;;
      if again then ConvertThread_loop n else ret (Some tt)
  end.

(** What the launcher hands to the parser for a packet it took from the
    packet queue: the packet, or the end of stream for the null packet and
    for a packet without payload. *)
Definition forwarded (avpkt : AVPacketPtr) : AVPacketPtr :=
  match avpkt with
  | Some pk => if (size pk =? 0)%Z then None else Some pk
  | None => None
  end.

(** [CUThreadedDecoder::ConvertThread], lines 321-359: the loop body from
    the point where the descriptor has been taken from the buffer queue.
    [disp_info] is the descriptor itself, as in [ConvertThread_iter].  The
    result of [frame_queue_->Pop(&arr)] is not tested: when the pop fails,
    [arr] is the default-constructed array. *)
Definition ConvertThread_convert (disp_info : CUVIDPARSERDISPINFO) : M bool :=
  a <- q_Pop m_frame_queue ;;
  let arr : NDArray := match a with Some x => x | None => None end in
  CHECK (defined arr) ;;
  emit (ObsProcessFrame (picture_index disp_info) arr) ;;
  let frame_pts := timestamp disp_info in
  fo <- q_Pop m_frame_order ;;
  match fo with
  | None => ret false
  | Some desired_pts =>
      reconcile desired_pts frame_pts arr ;;
      q <- permit_at (picture_index disp_info) ;;
      permit_put (picture_index disp_info) (bq_Push 1%Z q) ;;
      emit (ObsRelease (picture_index disp_info)) ;;
      ret true
  end.

(** ** Configuration *)

(** [int]: [static_cast<int>] of an unsigned value keeps it modulo 2^32. *)
Definition to_int (z : Z) : Z := ((z + 2 ^ 31) mod 2 ^ 32 - 2 ^ 31)%Z.

(** [AVCodecContext]: the members [SetCodecContext] reads. *)
Record AVCodecContext := mkCodecContext {
  codec_id : Z;
  extradata : list Z;
  extradata_size : Z
}.

(** [CUVideoParser]: the parser class is declared outside the sources.  The
    object keeps what it was created from; [Initialized] is the answer of
    the driver to the creation. *)
Record CUVideoParser := mkParser {
  parser_codec_id : Z;
  parser_max_surfaces : nat;
  parser_extradata : list Z;
  parser_extradata_size : Z;
  Initialized : bool
}.

(** [parser_.Initialized()]; the default-constructed parser of the
    constructor, [None], is not initialised. *)
Definition parser_initialized (p : option CUVideoParser) : bool :=
  match p with Some parser => Initialized parser | None => false end.

(** [CUVIDEOFORMAT]: the members [HandlePictureSequence_] reads. *)
Record CUVIDEOFORMAT := mkFormat {
  coded_width : Z;
  coded_height : Z;
  frame_rate_numerator : Z;
  frame_rate_denominator : Z
}.

(** [AVRational]. *)
Record AVRational := mkRational { num : Z; den : Z }.

(** The object with the members of the configuration beside those of the
    pipeline.  The widths of [width_] and [height_] are declared in the
    header; the values are kept as they are assigned. *)
Record Decoder := mkConfigured {
  pipeline : CUThreadedDecoder;
  width_ : Z;
  height_ : Z;
  frame_base_ : AVRational;
  dec_ctx_ : option AVCodecContext;
  parser_ : option CUVideoParser
}.

(** The member initialisers of the constructor, lines 20-24. *)
Definition constructed_decoder : Decoder :=
  {| pipeline := constructed; width_ := (-1)%Z; height_ := (-1)%Z;
     frame_base_ := mkRational 1 1000000; dec_ctx_ := None; parser_ := None |}.

Definition set_pipeline (v : CUThreadedDecoder) (o : Decoder) : Decoder :=
  mkConfigured v (width_ o) (height_ o) (frame_base_ o) (dec_ctx_ o) (parser_ o).
Definition set_width (v : Z) (o : Decoder) : Decoder :=
  mkConfigured (pipeline o) v (height_ o) (frame_base_ o) (dec_ctx_ o) (parser_ o).
Definition set_height (v : Z) (o : Decoder) : Decoder :=
  mkConfigured (pipeline o) (width_ o) v (frame_base_ o) (dec_ctx_ o) (parser_ o).
Definition set_frame_base (v : AVRational) (o : Decoder) : Decoder :=
  mkConfigured (pipeline o) (width_ o) (height_ o) v (dec_ctx_ o) (parser_ o).
Definition set_dec_ctx (v : option AVCodecContext) (o : Decoder) : Decoder :=
  mkConfigured (pipeline o) (width_ o) (height_ o) (frame_base_ o) v (parser_ o).
Definition set_parser (v : option CUVideoParser) (o : Decoder) : Decoder :=
  mkConfigured (pipeline o) (width_ o) (height_ o) (frame_base_ o) (dec_ctx_ o) v.

(** Member functions that touch the configuration: the same monad, over
    the whole object. *)
Definition MD (A : Type) : Type := Decoder -> outcome A * Decoder.

Definition retD {A} (a : A) : MD A := fun o => (Ret a, o).

Definition bindD {A B} (m : MD A) (k : A -> MD B) : MD B :=
  fun o => match m o with
           | (Ret a, o') => k a o'
           | (Fatal e, o') => (Fatal e, o')
           | (Blocks, o') => (Blocks, o')
           end.

Notation "x <~ c1 ;; c2" := (bindD c1 (fun x => c2))
  (at level 100, c1 at next level, right associativity).

Definition fatalD {A} (e : error) : MD A := fun o => (Fatal e, o).

Definition assign (f : Decoder -> Decoder) : MD unit := fun o => (Ret tt, f o).

Definition read {T} (f : Decoder -> T) : MD T := fun o => (Ret (f o), o).

(** A member function of the pipeline, called on the object. *)
Definition call {A} (m : M A) : MD A :=
  fun o => match m (pipeline o) with (r, s') => (r, set_pipeline s' o) end.

Section Configuration.

Variable kMaxOutputSurfaces : nat.

(** [CUThreadedDecoder::SetCodecContext], lines 94-112.  [dec_ctx] is
    [None] for the null pointer; [created] is whether the driver created the
    parser. *)
Definition SetCodecContext (dec_ctx : option AVCodecContext)
    (width height : Z) (created : bool) : MD unit :=
  match dec_ctx with
  | None => fatalD CheckFailed
  | Some ctx =>
      _ <~ assign (set_width width) ;;
      _ <~ assign (set_height height) ;;
      running <~ call (load m_run) ;;
      _ <~ call Clear ;;
      _ <~ assign (set_dec_ctx (Some ctx)) ;;
      _ <~ assign (set_parser
             (Some (mkParser (codec_id ctx) kMaxOutputSurfaces
                      (extradata ctx) (extradata_size ctx) created))) ;;
      p <~ read parser_ ;;
      if negb (parser_initialized p) then fatalD CheckFailed
      else if running then call (Start kMaxOutputSurfaces)
      else retD tt
  end.

End Configuration.

(** [CUThreadedDecoder::HandlePictureSequence_], lines 199-205.
    [decoder_.Initialize] belongs to the decode engine; [initialized] is what
    it returns. *)
Definition HandlePictureSequence_ (format : CUVIDEOFORMAT) (initialized : Z)
  : MD Z :=
  _ <~ assign (set_width (coded_width format)) ;;
  _ <~ assign (set_height (coded_height format)) ;;
  _ <~ assign (set_frame_base
         (mkRational (to_int (frame_rate_denominator format))
                     (to_int (frame_rate_numerator format)))) ;;
  retD initialized.

(** [CUThreadedDecoder::~CUThreadedDecoder], lines 175-177. *)
Definition destroy : M unit := Clear.

(** What has been handed to the parser, by the history. *)
Fixpoint parsed (l : list Obs) : list AVPacketPtr :=
  match l with
  | [] => []
  | ObsParse p :: rest => p :: parsed rest
  | _ :: rest => parsed rest
  end.


(** The state [st], with the submissions [pu0] and the frames [po0] of
    earlier sessions before those it records. *)
Definition since (pu0 : list (AVPacketPtr * NDArray)) (po0 : list NDArray)
    (st : system) : system :=
  mkSys (dec st) (pc st) (pu0 ++ pushed st) (po0 ++ popped st).

(** ** What holds of the object's life cycle in every reachable state *)

Record life_inv (st : system) : Prop := mkLifeInv {
  li_alloc : dec st = constructed \/ allocated (dec st);
  li_pc : pc st <> Idle -> run_ (dec st) = false;
  li_instop : forall c, pc st = InStop true c -> allocated (dec st);
  li_idle :
    pc st = Idle -> run_ (dec st) = false ->
    joinable (launcher_t_ (dec st)) = false /\
    joinable (converter_t_ (dec st)) = false;
  li_count : (0 <= frame_count_ (dec st))%Z;
  li_ready :
    live (reorder_queue_ (dec st)) = true ->
    (Z.of_nat (length (ready (dec st))) <= frame_count_ (dec st))%Z;
  li_session :
    run_ (dec st) = true ->
    (Z.of_nat (length (ready (dec st)) +
               length (contents (frame_queue_ (dec st))))
     <= frame_count_ (dec st))%Z;
  li_stopped :
    run_ (dec st) = false ->
    (exists c, pc st = InStop true c) \/
    (live (reorder_queue_ (dec st)) = true -> ready (dec st) = [])
}.

(** ** What holds of the frames handed back, in every reachable state *)

Record out_inv (st : system) : Prop := mkOutInv {
  oi_order :
    sublist
      (popped st ++ ready (dec st) ++ contents (frame_queue_ (dec st)))
      (map snd (pushed st));
  oi_defined :
    Forall (fun arr => defined arr = true) (popped st ++ ready (dec st))
}.

(** A permit queue that exists and has not been killed. *)
Definition live_permit (p : option (BlockingQueue Z)) : Prop :=
  exists q, p = Some q /\ killed q = false.


(** ** Further runs, used as examples *)

(** A decoder that has been started. *)
Definition started : CUThreadedDecoder :=
  Eval vm_compute in snd (Start 2 constructed).

(** The end-of-stream marker has been pushed. *)
Definition draining_state : system :=
  Eval vm_compute in state_after 2 [CallStart; CallPush None (Some 9)].

(** The same decoder, cleared and started again. *)
Definition restart_trace : list event := [CallClear; StopResume; CallStart].

Definition restarted_state : system :=
  Eval vm_compute in
    state_after 2 ([CallStart; CallPush None (Some 9)] ++ restart_trace).

(** A decoder that was started and stopped, but not cleared. *)
Definition stopped_state : system :=
  Eval vm_compute in state_after 2 [CallStart; CallStop; StopResume].

(** Three submissions wait for the launcher: a packet, a packet without
    payload and the end-of-stream marker. *)
Definition queued_packets : list AVPacketPtr :=
  [Some (mkPacket 100 100 10); Some (mkPacket 200 100 0); None].

Definition queued : CUThreadedDecoder :=
  Eval vm_compute in
    snd (push_all [(Some (mkPacket 100 100 10), Some 1);
                   (Some (mkPacket 200 100 0), Some 2);
                   (None, Some 9)] started).

(** One packet has been pushed. *)
Definition one_pushed : CUThreadedDecoder :=
  Eval vm_compute in snd (Push (Some (mkPacket 100 100 10)) (Some 1) started).

(** Two surfaces are ready for the converter, the second shown first. *)
Definition two_shown : CUThreadedDecoder :=
  Eval vm_compute in
    dec (state_after 2
           [CallStart;
            CallPush (Some (mkPacket 100 100 10)) (Some 1);
            CallPush (Some (mkPacket 200 100 10)) (Some 2);
            EngineDecode 0; EngineDecode 1;
            EngineDisplay (mkDisp 1 200); EngineDisplay (mkDisp 0 100)]).

(** A configured decoder whose pipeline runs, with one packet pushed. *)
Definition running_decoder : Decoder :=
  Eval vm_compute in set_pipeline one_pushed constructed_decoder.

(** One packet has been pushed and nothing else has happened; then the
    decoder is cleared and started again, and a second session pushes one
    packet and the end-of-stream marker, and has its surface shown. *)
Definition first_session : system :=
  Eval vm_compute in
    state_after 2 [CallStart; CallPush (Some (mkPacket 100 100 10)) (Some 1)].

Definition second_session_trace : list event :=
  [CallPush (Some (mkPacket 500 40 10)) (Some 5); CallPush None (Some 9);
   LaunchTurn; LaunchTurn; EngineDecode 0; EngineDisplay (mkDisp 0 500)].

Definition second_session : system :=
  Eval vm_compute in
    state_after 2
      ([CallStart; CallPush (Some (mkPacket 100 100 10)) (Some 1)] ++
       [CallClear; StopResume; CallStart] ++ second_session_trace).

Definition example_context : AVCodecContext := mkCodecContext 27 [] 0.

Definition example_format : CUVIDEOFORMAT := mkFormat 1920 1088 30000 1001.

(** * The pipeline, one blocking call at a time

    The transition system [exec] above takes a turn of a loop as one step
    and lets the engine call back at any time: it serves for what holds
    whatever the engine does and wherever a turn is cut.  The process below
    is finer.  The converter is cut at each of its blocking calls, so that
    it can wait, fail or return with a surface or a buffer in its hands; a
    failed [CHECK] in a thread ends the process; [join] waits for the
    thread function to return; and the engine asks to decode only what the
    launcher has handed to the parser. *)

(** ** The threads, one blocking call at a time *)

(** [CUThreadedDecoder::Stop], lines 147-153: the kill signals that follow
    [run_.store(false)]. *)
Definition Stop_kill : M unit :=
  q_SignalForKill m_frame_queue ;;
  q_SignalForKill m_buffer_queue ;;
  q_SignalForKill m_reorder_queue ;;
  q_SignalForKill m_frame_order ;;
  ps <- load m_permits ;;
  store m_permits (kill_permits ps).

(** Where the converter is in [CUThreadedDecoder::ConvertThread]: before
    each of its three blocking pops, with what it has taken so far in its
    local variables; before the release of the permit; or past the end of
    the thread function. *)
Inductive converter_at :=
| AtBufferPop                                        (* lines 315-320 *)
| AtFramePop (disp_info : CUVIDPARSERDISPINFO)       (* lines 321-337 *)
| AtOrderPop (disp_info : CUVIDPARSERDISPINFO) (arr : NDArray)
                                                     (* lines 338-356 *)
| AtRelease (disp_info : CUVIDPARSERDISPINFO)        (* line 359 *)
| ConvertReturned.

(** [CUThreadedDecoder::ConvertThread], lines 315-360, from one of these
    points to the next.  The computation waits where the pop waits; the
    members are then as they were at the point it started from. *)
Definition ConvertThread_step (at_ : converter_at) : M converter_at :=
  match at_ with
  | AtBufferPop =>
      r <- load m_run ;;
      if negb r then ret ConvertReturned
      else
        d <- q_Pop m_buffer_queue ;;
        match d with
        | None => ret ConvertReturned
        | Some disp_info => ret (AtFramePop disp_info)
        end
  | AtFramePop disp_info =>
      a <- q_Pop m_frame_queue ;;
      let arr : NDArray := match a with Some x => x | None => None end in
      CHECK (defined arr) ;;
      emit (ObsProcessFrame (picture_index disp_info) arr) ;;
      ret (AtOrderPop disp_info arr)
  | AtOrderPop disp_info arr =>
      let frame_pts := timestamp disp_info in
      fo <- q_Pop m_frame_order ;;
      match fo with
      | None => ret ConvertReturned
      | Some desired_pts =>
          reconcile desired_pts frame_pts arr ;;
          ret (AtRelease disp_info)
      end
  | AtRelease disp_info =>
      q <- permit_at (picture_index disp_info) ;;
      permit_put (picture_index disp_info) (bq_Push 1%Z q) ;;
      emit (ObsRelease (picture_index disp_info)) ;;
      ret AtBufferPop
  | ConvertReturned => ret ConvertReturned
  end.

(** One turn of the converter's loop, as the four steps in a row. *)
Definition ConvertThread_steps : M bool :=
  a1 <- ConvertThread_step AtBufferPop ;;
  match a1 with
  | AtFramePop d1 =>
      a2 <- ConvertThread_step (AtFramePop d1) ;;
      match a2 with
      | AtOrderPop d2 arr =>
          a3 <- ConvertThread_step (AtOrderPop d2 arr) ;;
          match a3 with
          | AtRelease d3 =>
              ConvertThread_step (AtRelease d3) ;; ret true
          | _ => ret false
          end
      | _ => ret false
      end
  | _ => ret false
  end.

(** Where the launcher is: in its loop, where it waits only in
    [pkt_queue_->Pop] at the start of a turn, or past the end of the thread
    function. *)
Inductive launcher_at := InLaunchLoop | LaunchReturned.

(** Where the caller is: between two calls, or inside [Stop] (called by
    [Clear] when [clearing]) before the kill signals of lines 147-153,
    before [launcher_t_.join()] or before [converter_t_.join()]. *)
Inductive caller_at :=
| Between
| StopKill (clearing : bool)
| StopJoinLauncher (clearing : bool)
| StopJoinConverter (clearing : bool).

(** ** The decode engine *)

(** The pictures among what was handed to the parser: the packets with a
    payload. *)
Fixpoint pictures (l : list AVPacketPtr) : nat :=
  match l with
  | [] => 0
  | Some _ :: rest => S (pictures rest)
  | None :: rest => pictures rest
  end.

(** The slot [slot], once, out of the slots [l]. *)
Fixpoint take_slot (slot : Z) (l : list Z) : option (list Z) :=
  match l with
  | [] => None
  | x :: rest =>
      if (x =? slot)%Z then Some rest
      else option_map (cons x) (take_slot slot rest)
  end.

Fixpoint count_index (slot : Z) (l : list Z) : nat :=
  match l with
  | [] => 0
  | x :: rest => (if (x =? slot)%Z then 1 else 0) + count_index slot rest
  end.

(** ** The process *)

(** The object, the caller, the two threads and the decode engine.
    [requested] counts the pictures for which the engine has made its
    decode request; [awaiting] are the slots it has decoded into and not yet
    signalled as ready for display.  [aborted] is set when a thread or a
    callback fails a [CHECK], or anything follows a null pointer: the process
    is then gone. *)
Record process := mkProcess {
  this : CUThreadedDecoder;
  caller : caller_at;
  launcher : launcher_at;
  converter : converter_at;
  requested : nat;
  awaiting : list Z;
  pushes : list (AVPacketPtr * NDArray);     (* the Push calls that returned *)
  pops : list NDArray;                       (* the frames Pop has returned *)
  aborted : bool
}.

Definition initial_process : process :=
  mkProcess constructed Between LaunchReturned ConvertReturned 0 [] [] [] false.

Definition set_this (s : CUThreadedDecoder) (p : process) : process :=
  mkProcess s (caller p) (launcher p) (converter p) (requested p)
    (awaiting p) (pushes p) (pops p) (aborted p).
Definition set_caller (c : caller_at) (p : process) : process :=
  mkProcess (this p) c (launcher p) (converter p) (requested p)
    (awaiting p) (pushes p) (pops p) (aborted p).
Definition set_launcher (l : launcher_at) (p : process) : process :=
  mkProcess (this p) (caller p) l (converter p) (requested p)
    (awaiting p) (pushes p) (pops p) (aborted p).
Definition set_converter (c : converter_at) (p : process) : process :=
  mkProcess (this p) (caller p) (launcher p) c (requested p)
    (awaiting p) (pushes p) (pops p) (aborted p).
Definition set_engine (n : nat) (l : list Z) (p : process) : process :=
  mkProcess (this p) (caller p) (launcher p) (converter p) n l
    (pushes p) (pops p) (aborted p).
Definition set_pushes (l : list (AVPacketPtr * NDArray)) (p : process)
  : process :=
  mkProcess (this p) (caller p) (launcher p) (converter p) (requested p)
    (awaiting p) l (pops p) (aborted p).
Definition set_pops (l : list NDArray) (p : process) : process :=
  mkProcess (this p) (caller p) (launcher p) (converter p) (requested p)
    (awaiting p) (pushes p) l (aborted p).
Definition abort (p : process) : process :=
  mkProcess (this p) (caller p) (launcher p) (converter p) (requested p)
    (awaiting p) (pushes p) (pops p) true.

(** How a call of the caller ends.  A failed [CHECK] is an exception the
    caller receives, and the object stays as it was at the failure; anything
    else that is not a return ends the process. *)
Definition after_call {A} (r : outcome A * CUThreadedDecoder) (p : process)
    (next : A -> process -> process) : option process :=
  match r with
  | (Ret a, s') => Some (next a (set_this s' p))
  | (Fatal CheckFailed, s') => Some (set_this s' p)
  | (Fatal _, s') => Some (abort (set_this s' p))
  | (Blocks, _) => None
  end.

(** How a step of a thread, or a callback of the engine, ends.  There is
    nobody to receive an exception: any failure ends the process.  A step
    that waits is not taken. *)
Definition after_turn {A} (r : outcome A * CUThreadedDecoder) (p : process)
    (next : A -> process -> process) : option process :=
  match r with
  | (Ret a, s') => Some (next a (set_this s' p))
  | (Fatal _, s') => Some (abort (set_this s' p))
  | (Blocks, _) => None
  end.

(** The threads a call of [Start] has created begin at the top of their
    thread functions. *)
Definition spawned (before : CUThreadedDecoder) (p : process) : process :=
  let p1 :=
    if joinable (launcher_t_ (this p)) && negb (joinable (launcher_t_ before))
    then set_launcher InLaunchLoop p else p in
  if joinable (converter_t_ (this p1)) && negb (joinable (converter_t_ before))
  then set_converter AtBufferPop p1 else p1.

Definition launcher_returned (l : launcher_at) : bool :=
  match l with LaunchReturned => true | InLaunchLoop => false end.

Definition converter_returned (c : converter_at) : bool :=
  match c with ConvertReturned => true | _ => false end.

Section Stepwise.

Variable kMaxOutputSurfaces : nat.

(** One step of the process, by the events of [exec].  Here a thread is
    cut at each of its blocking calls: [ConvertTurn] takes the converter
    from one of them to the next, and [LaunchTurn] is a turn of the
    launcher's loop, which waits only at its start.  [StopResume] takes the
    caller one stage further in [Stop]: the kill signals; then
    [launcher_t_.join()], which returns only when the launcher's thread
    function has returned; then [converter_t_.join()], in the same way, and
    the rest of [Clear].

    Modelled from the spec: the decode engine, which is outside the sources
    (sections 4.3, 5 and 6 of the specification).  It runs on an execution
    context of its own.  It makes one decode request for each packet with a
    payload that the launcher has handed to the parser, into a surface among
    the [kMaxOutputSurfaces] the parser was created with (line 102); the
    picture is decoded when the callback returns 1.  It signals as ready for
    display, at a time and with a timestamp of its choice, a surface it has
    decoded into and not signalled yet.  A callback that waits is not
    taken. *)
Definition step (e : event) (p : process) : option process :=
  if aborted p then None
  else
    match e, caller p with
    | CallStart, Between =>
        after_call (Start kMaxOutputSurfaces (this p)) p
          (fun _ p' => spawned (this p) p')
    | CallStop, Between =>
        after_call (Stop_signal (this p)) p
          (fun entered p' =>
             set_caller (if entered then StopKill false
                         else StopJoinLauncher false) p')
    | CallClear, Between =>
        after_call (Stop_signal (this p)) p
          (fun entered p' =>
             set_caller (if entered then StopKill true
                         else StopJoinLauncher true) p')
    | StopResume, StopKill clearing =>
        after_call (Stop_kill (this p)) p
          (fun _ p' => set_caller (StopJoinLauncher clearing) p')
    | StopResume, StopJoinLauncher clearing =>
        if joinable (launcher_t_ (this p))
           && negb (launcher_returned (launcher p))
        then None
        else
          after_call (join_if_joinable m_launcher_t (this p)) p
            (fun _ p' => set_caller (StopJoinConverter clearing) p')
    | StopResume, StopJoinConverter clearing =>
        if joinable (converter_t_ (this p))
           && negb (converter_returned (converter p))
        then None
        else
          after_call
            ((join_if_joinable m_converter_t ;;
              if clearing then Clear_rest else ret tt) (this p)) p
            (fun _ p' => set_caller Between p')
    | CallPush pkt buf, Between =>
        after_call (Push pkt buf (this p)) p
          (fun _ p' => set_pushes (pushes p ++ [(pkt, buf)]) p')
    | CallPop, Between =>
        after_call (Pop (this p)) p
          (fun o p' =>
             match o with
             | Some frame => set_pops (pops p ++ [frame]) p'
             | None => p'
             end)
    | LaunchTurn, _ =>
        if joinable (launcher_t_ (this p))
           && negb (launcher_returned (launcher p))
        then
          after_turn (LaunchThread_iter (this p)) p
            (fun again p' =>
               set_launcher (if again then InLaunchLoop else LaunchReturned) p')
        else None
    | ConvertTurn, _ =>
        if joinable (converter_t_ (this p))
           && negb (converter_returned (converter p))
        then
          after_turn (ConvertThread_step (converter p) (this p)) p
            (fun at_ p' => set_converter at_ p')
        else None
    | EngineDecode CurrPicIdx, _ =>
        if (requested p <? pictures (parsed (log (this p))))
           && (0 <=? CurrPicIdx)%Z
           && (CurrPicIdx <? Z.of_nat kMaxOutputSurfaces)%Z
        then
          after_turn (HandlePictureDecode_ CurrPicIdx (this p)) p
            (fun ret_ p' =>
               set_engine (S (requested p))
                 (if (ret_ =? 1)%Z then awaiting p ++ [CurrPicIdx]
                  else awaiting p) p')
        else None
    | EngineDisplay disp_info, _ =>
        match take_slot (picture_index disp_info) (awaiting p) with
        | Some rest =>
            after_turn (HandlePictureDisplay_ disp_info (this p)) p
              (fun _ p' => set_engine (requested p) rest p')
        | None => None
        end
    | _, _ => None
    end.

Fixpoint run_steps (tr : list event) (p : process) : option process :=
  match tr with
  | [] => Some p
  | e :: rest =>
      match step e p with
      | Some p' => run_steps rest p'
      | None => None
      end
  end.


End Stepwise.

(** The steps of the threads and the callbacks of the engine. *)
Definition internal_event (e : event) : bool :=
  match e with
  | LaunchTurn | ConvertTurn | EngineDecode _ | EngineDisplay _ => true
  | _ => false
  end.

(** The same, and the calls of [Pop]. *)
Definition draining_event (e : event) : bool :=
  match e with
  | CallPop | LaunchTurn | ConvertTurn | EngineDecode _ | EngineDisplay _ =>
      true
  | _ => false
  end.

(** ** What holds in a session of the process *)

(** What the converter holds in its local variables. *)
Definition held_frame (c : converter_at) : list NDArray :=
  match c with AtOrderPop _ arr => [arr] | _ => [] end.

Definition held_surface (c : converter_at) : list CUVIDPARSERDISPINFO :=
  match c with
  | AtFramePop d | AtOrderPop d _ | AtRelease d => [d]
  | _ => []
  end.

Definition wants_frame (c : converter_at) : nat :=
  match c with AtFramePop _ => 1 | _ => 0 end.

(** The packets with a payload among the submissions. *)
Definition payloads (l : list (AVPacketPtr * NDArray)) : nat :=
  pictures (map forwarded (map fst l)).

(** The buffers that can reach the converter are defined: the engine shows
    at most one surface for each packet with a payload, and the converter
    takes one buffer, the oldest, for each surface. *)
Definition defined_buffers (l : list (AVPacketPtr * NDArray)) : Prop :=
  forall i x, l !! i = Some x -> i < payloads l -> defined (snd x) = true.

(** A surface index the parser was created with. *)
Definition surface_index (k : nat) (slot : Z) : Prop :=
  (0 <= slot < Z.of_nat k)%Z.

(** What is left to do for the threads and the engine: for a packet in the
    packet queue, a turn of the launcher; for a picture, the decode request,
    the display-ready notification and the four steps of the converter. *)
Definition converter_work (c : converter_at) : nat :=
  match c with
  | AtFramePop _ => 3
  | AtOrderPop _ _ => 2
  | AtRelease _ => 1
  | _ => 0
  end.

Definition work (p : process) : nat :=
  7 * length (contents (pkt_queue_ (this p))) +
  6 * (pictures (parsed (log (this p))) - requested p) +
  5 * length (awaiting p) +
  4 * length (contents (buffer_queue_ (this p))) +
  converter_work (converter p).

Record stepwise_inv (k : nat) (p : process) : Prop := mkStepwiseInv {
  sw_caller : caller p = Between;
  sw_alive : aborted p = false;
  sw_run : run_ (this p) = true;
  sw_threads :
    joinable (launcher_t_ (this p)) = true /\
    joinable (converter_t_ (this p)) = true /\
    launcher p = InLaunchLoop /\ converter p <> ConvertReturned;
  sw_live :
    live (pkt_queue_ (this p)) = true /\
    live (frame_queue_ (this p)) = true /\
    live (buffer_queue_ (this p)) = true /\
    live (reorder_queue_ (this p)) = true /\
    live (frame_order_ (this p)) = true;
  sw_permits :
    length (permits_ (this p)) = k /\ Forall live_permit (permits_ (this p));
  sw_map : reorder_buffer_ (this p) = ∅;
  sw_order :
    map snd (pushes p) =
    pops p ++ ready (this p) ++ held_frame (converter p) ++
    contents (frame_queue_ (this p));
  sw_keys :
    length (contents (frame_queue_ (this p))) +
    length (held_frame (converter p)) =
    length (keys (this p)) + n_eos (pushes p);
  sw_count :
    frame_count_ (this p) =
    (Z.of_nat (length (pushes p)) - Z.of_nat (length (pops p)))%Z;
  sw_drain : draining_ (this p) = (0 <? n_eos (pushes p));
  sw_parsed :
    parsed (log (this p)) ++ map forwarded (contents (pkt_queue_ (this p)))
    = map forwarded (map fst (pushes p));
  sw_requested : requested p <= pictures (parsed (log (this p)));
  sw_pictures :
    requested p =
    length (awaiting p) + length (contents (buffer_queue_ (this p))) +
    wants_frame (converter p) + length (pops p) + length (ready (this p)) +
    length (held_frame (converter p));
  sw_slots : forall slot,
    surface_index k slot ->
    tokens slot (this p) + count_index slot (awaiting p) +
    inbuf slot (this p) + count_slot slot (held_surface (converter p)) = 1;
  sw_range :
    Forall (surface_index k) (awaiting p) /\
    Forall (fun d => surface_index k (picture_index d))
      (contents (buffer_queue_ (this p)) ++ held_surface (converter p));
  sw_pushes : defined_buffers (pushes p)
}.

(** ** What holds while the caller is inside [Clear] *)

(** The steps that can be taken while the caller is inside [Stop]. *)
Definition stopping_event (e : event) : bool :=
  match e with
  | StopResume | LaunchTurn | ConvertTurn | EngineDecode _ | EngineDisplay _ =>
      true
  | _ => false
  end.

(** [Clear] has returned. *)
Definition cleared (p : process) : Prop :=
  caller p = Between /\ aborted p = false /\ run_ (this p) = false /\
  joinable (launcher_t_ (this p)) = false /\
  joinable (converter_t_ (this p)) = false /\
  launcher p = LaunchReturned /\ converter p = ConvertReturned /\
  permits_ (this p) = [] /\ frame_count_ (this p) = 0%Z /\
  reorder_buffer_ (this p) = ∅.

(** The caller is inside [Clear], and the converter was not waiting for the
    buffer of a surface when [Stop] cleared [run_]. *)
Record clearing_inv (k : nat) (p : process) : Prop := mkClearingInv {
  ci_alive : aborted p = false;
  ci_run : run_ (this p) = false;
  ci_alloc : allocated (this p);
  ci_permits :
    length (permits_ (this p)) = k /\ Forall is_Some (permits_ (this p));
  ci_converter :
    wants_frame (converter p) = 0 /\
    Forall (fun d => surface_index k (picture_index d))
      (held_surface (converter p));
  ci_handle : joinable (converter_t_ (this p)) = true;
  ci_launcher :
    joinable (launcher_t_ (this p)) = false -> launcher p = LaunchReturned;
  ci_caller :
    match caller p with
    | Between => False
    | StopKill c => c = true /\ joinable (launcher_t_ (this p)) = true
    | StopJoinLauncher c =>
        c = true /\ live (frame_order_ (this p)) = false
    | StopJoinConverter c =>
        c = true /\ joinable (launcher_t_ (this p)) = false /\
        live (frame_order_ (this p)) = false
    end
}.

(** What is left to do before [Clear] returns. *)
Definition clearing_work (p : process) : nat :=
  4 * (match caller p with
       | Between => 0
       | StopKill _ => 3
       | StopJoinLauncher _ => 2
       | StopJoinConverter _ => 1
       end) +
  (if joinable (launcher_t_ (this p)) && negb (launcher_returned (launcher p))
   then 1 else 0) +
  (match converter p with
   | AtOrderPop _ _ => 3
   | AtRelease _ => 2
   | AtBufferPop => 1
   | _ => 0
   end).

(** Every buffer pushed is a defined array. *)
Definition all_defined (l : list (AVPacketPtr * NDArray)) : Prop :=
  Forall (fun x => defined (snd x) = true) l.





(** ** Runs of the process, used as examples *)

Definition process_after (k : nat) (tr : list event) : process :=
  match run_steps k tr initial_process with Some p => p | None => initial_process end.

(** The run of [example_trace], step by step: the converter has taken the
    third surface to be shown and the buffer of the second packet, and has
    not yet taken the key. *)
Definition stepwise_trace : list event :=
  [CallPush (Some (mkPacket 100 100 10)) (Some 1);
   CallPush (Some (mkPacket 200 100 10)) (Some 2);
   LaunchTurn; EngineDecode 0; EngineDisplay (mkDisp 0 100);
   ConvertTurn; ConvertTurn; ConvertTurn; ConvertTurn;
   CallPop;
   CallPush (Some (mkPacket 300 100 10)) (Some 3);
   CallPush None (Some 9);
   LaunchTurn; LaunchTurn; LaunchTurn;
   EngineDecode 1; EngineDecode 0;
   EngineDisplay (mkDisp 0 300); EngineDisplay (mkDisp 1 200);
   ConvertTurn; ConvertTurn].

Definition stepwise_state : process :=
  Eval vm_compute in process_after 2 (CallStart :: stepwise_trace).




(** * Proofs *)

(** ** Member functions, one at a time *)

Tactic Notation "unfold_m" :=
  unfold Push, Pop, Start, Stop, Stop_signal, Stop_finish, Clear, Clear_rest,
    HandlePictureDecode_, HandlePictureDisplay_, ConvertThread_iter, LaunchThread_iter, reconcile,
    q_Push, q_Pop, q_Size, q_SignalForKill, deref, permit_at, permit_put, spawn, join_if_joinable,
    CHECK, emit, load, store, fatal, blocks, bind, ret.
Tactic Notation "unfold_m" "in" hyp(H) :=
  unfold Push, Pop, Start, Stop, Stop_signal, Stop_finish, Clear, Clear_rest,
    HandlePictureDecode_, HandlePictureDisplay_, ConvertThread_iter, LaunchThread_iter, reconcile,
    q_Push, q_Pop, q_Size, q_SignalForKill, deref, permit_at, permit_put, spawn, join_if_joinable,
    CHECK, emit, load, store, fatal, blocks, bind, ret in H.

Lemma wrap64_id z : in_int64 z -> wrap64 z = z.
Proof. unfold in_int64, wrap64. intros H. rewrite Z.mod_small; lia. Qed.

(** [Pop] tests [Size()] before it pops: it never waits. *)
Lemma Pop_never_blocks s : fst (Pop s) <> Blocks.
Proof.
  destruct s as [pq fq bq rb rq fo lp ps r fc d lt ct lg].
  unfold_m. simpl. destruct ((fc =? 0)%Z && negb d); simpl; [done|].
  destruct rq as [[it k]|]; simpl; [|done].
  unfold bq_Size, bq_Pop; simpl. destruct it; simpl; [done|].
  destruct k; simpl; done.
Qed.

Ltac open_state s :=
  destruct s as [?pq ?fq ?bq ?rb ?rq ?fo ?lp ?ps ?r ?fc ?d [?lt] [?ct] ?lg];
  simpl in *; subst.
Ltac open_queue q := destruct q as [?it ?k]; simpl in *; subst.
Ltac m_simpl := unfold_m; simpl; unfold bq_Size, bq_Pop, bq_Push, bq_SignalForKill, bq_new; simpl.

Lemma Pop_idle s : frame_count_ s = 0%Z -> draining_ s = false -> Pop s = (Ret None, s).
Proof. intros H1 H2. open_state s. reflexivity. Qed.

Lemma Pop_empty s q : reorder_queue_ s = Some q -> items q = [] -> Pop s = (Ret None, s).
Proof. intros H1 H2. open_state s. open_queue q. m_simpl. destruct (_ && _); reflexivity. Qed.

(** With the queue as modelled, a killed output queue delivers nothing. *)
Lemma Pop_killed s q :
  reorder_queue_ s = Some q -> killed q = true -> Pop s = (Ret None, s).
Proof. intros H1 H2. open_state s. open_queue q. m_simpl.
  destruct (_ && _); [reflexivity|]. destruct it; reflexivity. Qed.

Lemma Pop_frame s q x rest :
  reorder_queue_ s = Some q -> items q = x :: rest -> killed q = false ->
  frame_count_ s <> 0%Z \/ draining_ s = true ->
  Pop s = (Ret (Some x), mset m_frame_count (frame_count_ s - 1)%Z (mset m_reorder_queue (Some (mkQueue rest false)) s)).
Proof.
  intros H1 H2 H3 H4. open_state s. open_queue q. m_simpl.
  replace ((fc =? 0)%Z && negb d) with false; [reflexivity|].
  destruct H4 as [H4|H4].
  - apply Z.eqb_neq in H4. rewrite H4. reflexivity.
  - rewrite H4. rewrite andb_false_r. reflexivity.
Qed.

(** [Clear] on an object whose queues exist if it is running: it returns, and
    this is what it leaves. *)
Lemma Clear_effect s :
  (run_ s = true -> allocated s) ->
  exists s', Clear s = (Ret tt, s') /\ frame_count_ s' = 0%Z /\ reorder_buffer_ s' = ∅ /\ permits_ s' = [] /\
    run_ s' = false /\ joinable (launcher_t_ s') = false /\ joinable (converter_t_ s') = false /\
    last_pts_ s' = last_pts_ s /\ draining_ s' = draining_ s /\
    keys s' = keys s /\
    frame_order_ s' = (if run_ s then option_map bq_SignalForKill (frame_order_ s) else frame_order_ s).
Proof.
  intros Ha. unfold allocated in Ha. open_state s. unfold keys. destruct r.
  - destruct Ha as ([q1 ->] & [q2 ->] & [q3 ->] & [q4 ->] & [q5 ->]); [reflexivity|].
    m_simpl. destruct lt, ct; simpl; eexists; repeat split; reflexivity.
  - m_simpl. destruct lt, ct; simpl; eexists; repeat split; reflexivity.
Qed.

Lemma fresh_permits k :
  map (fun _ : option (BlockingQueue Z) => Some (bq_Push 1%Z bq_new)) (resize_permits k [])
  = replicate k (Some (mkQueue [1%Z] false)).
Proof.
  unfold resize_permits. rewrite take_nil. simpl. rewrite Nat.sub_0_r.
  induction k; simpl; [reflexivity|]. f_equal. exact IHk.
Qed.

(** [Start] on a stopped object without permits: it returns, with fresh
    queues, [k] permits of one token, and two threads. *)
Lemma Start_fresh k s :
  run_ s = false -> permits_ s = [] ->
  joinable (launcher_t_ s) = false -> joinable (converter_t_ s) = false ->
  exists s', Start k s = (Ret tt, s') /\ run_ s' = true /\
    pkt_queue_ s' = Some bq_new /\ frame_queue_ s' = Some bq_new /\
    buffer_queue_ s' = Some bq_new /\ reorder_queue_ s' = Some bq_new /\
    frame_order_ s' = Some bq_new /\
    permits_ s' = replicate k (Some (mkQueue [1%Z] false)) /\
    last_pts_ s' = last_pts_ s /\ draining_ s' = draining_ s /\
    frame_count_ s' = frame_count_ s /\ reorder_buffer_ s' = reorder_buffer_ s /\
    launcher_t_ s' = mkThread true /\ converter_t_ s' = mkThread true /\
    log s' = log s ++ [ObsPermitsInit; ObsSpawn LaunchThread; ObsSpawn ConvertThread].
Proof.
  intros H1 H2 H3 H4. open_state s. unfold_m. simpl.
  eexists. split; [reflexivity|]. simpl. repeat split; try reflexivity.
  - apply fresh_permits.
  - rewrite <- !app_assoc. reflexivity.
Qed.

(** [Push] of a packet on a running object. *)
Lemma Push_data s p buf pq fq fo :
  run_ s = true -> pkt_queue_ s = Some pq -> frame_queue_ s = Some fq -> frame_order_ s = Some fo ->
  Push (Some p) buf s =
    (Ret tt,
     let c := if (last_pts_ s <? 0)%Z then pts p else wrap64 (last_pts_ s + duration p) in
     mset m_frame_count (frame_count_ s + 1)%Z
       (mset m_frame_queue (Some (bq_Push buf fq))
          (mset m_pkt_queue (Some (bq_Push (Some p) pq))
             (mset m_frame_order (Some (bq_Push c fo))
                (mset m_last_pts c s))))).
Proof.
  intros H1 H2 H3 H4. open_state s. m_simpl. destruct (lp <? 0)%Z; reflexivity.
Qed.

(** [Push] of the end-of-stream marker on a running object that is not
    draining. *)
Lemma Push_eos s buf pq fq :
  run_ s = true -> draining_ s = false -> pkt_queue_ s = Some pq -> frame_queue_ s = Some fq ->
  Push None buf s =
    (Ret tt,
     mset m_frame_count (frame_count_ s + 1)%Z
       (mset m_frame_queue (Some (bq_Push buf fq))
          (mset m_pkt_queue (Some (bq_Push None pq))
             (mset m_draining true s)))).
Proof. intros H1 H2 H3 H4. open_state s. m_simpl. reflexivity. Qed.

(** [Clear], [Start], [Push]: the cursor survives. *)
Lemma stale_cursor k s p buf :
  (0 <= last_pts_ s)%Z -> (run_ s = true -> allocated s) ->
  exists s1 s2 s3,
    Clear s = (Ret tt, s1) /\ Start k s1 = (Ret tt, s2) /\ Push (Some p) buf s2 = (Ret tt, s3) /\
    last_pts_ s1 = last_pts_ s /\ keys s2 = [] /\
    keys s3 = [wrap64 (last_pts_ s + duration p)] /\
    (in_int64 (last_pts_ s + duration p) -> keys s3 = [(last_pts_ s + duration p)%Z]).
Proof.
  intros Hlp Ha.
  destruct (Clear_effect s Ha) as (s1 & Hc & _ & _ & Hp & Hr & Hl & Hcv & Hlp1 & _).
  destruct (Start_fresh k s1 Hr Hp Hl Hcv) as (s2 & Hs & Hr2 & Hpq & Hfq & _ & _ & Hfo & _ & Hlp2 & _).
  pose proof (Push_data s2 p buf _ _ _ Hr2 Hpq Hfq Hfo) as HP.
  assert (Hlt : (last_pts_ s2 <? 0)%Z = false) by (apply Z.ltb_ge; lia).
  rewrite Hlt in HP. cbv zeta in HP.
  match type of HP with _ = (_, ?x) => set (s3 := x) in * end.
  assert (Hk : keys s3 = [wrap64 (last_pts_ s + duration p)]).
  { unfold keys, s3. simpl. rewrite Hlp2, Hlp1. reflexivity. }
  exists s1, s2, s3. repeat split; try assumption.
  - unfold keys. rewrite Hfo. reflexivity.
  - intros Hin. rewrite Hk. rewrite wrap64_id by exact Hin. reflexivity.
Qed.


(** The branch of [reconcile] for a timestamp that differs from the expected
    key. *)
Lemma reconcile_mismatch s q desired frame_pts arr :
  reorder_queue_ s = Some q -> desired <> frame_pts ->
  (<[frame_pts := arr]> (reorder_buffer_ s)) !! frame_pts = Some arr /\
  reconcile desired frame_pts arr s =
    (Ret tt, mset m_reorder_buffer (delete frame_pts (<[frame_pts := arr]> (reorder_buffer_ s)))
               (mset m_reorder_queue (Some (bq_Push arr q)) s)).
Proof.
  intros Hq Hne. split; [apply lookup_insert_eq|].
  open_state s. unfold reconcile. apply Z.eqb_neq in Hne. rewrite Hne.
  unfold_m. simpl. rewrite lookup_insert_eq. reflexivity.
Qed.

(** The branch of [reconcile] for the expected timestamp. *)
Lemma reconcile_match s q ts arr :
  reorder_queue_ s = Some q ->
  reconcile ts ts arr s = (Ret tt, mset m_reorder_queue (Some (bq_Push arr q)) s).
Proof.
  intros Hq. open_state s. unfold reconcile. rewrite Z.eqb_refl. reflexivity.
Qed.

(** Once the cursor is set, every packet advances it by its duration. *)
Lemma push_all_advances l : forall s,
  producing s ->
  cursor_valid (last_pts_ s) (map fst l) ->
  exists s', push_all (data l) s = (Ret tt, s') /\ producing s' /\
    keys s' = keys s ++ cursor_seq (last_pts_ s) (map fst l).
Proof.
  induction l as [|[p b] l IH]; intros s Hs Hv.
  - exists s. simpl. rewrite app_nil_r. auto.
  - destruct Hs as (Hr & [pq Hpq] & [fq Hfq] & [fo Hfo]).
    simpl in Hv. destruct Hv as (Hc & Hin & Hv).
    simpl. unfold bind at 1. rewrite (Push_data s p b pq fq fo Hr Hpq Hfq Hfo).
    assert (Hlt : (last_pts_ s <? 0)%Z = false) by (apply Z.ltb_ge; lia).
    rewrite Hlt, (wrap64_id _ Hin). cbv zeta.
    match goal with |- context [push_all _ ?x] => set (s1 := x) end.
    destruct (IH s1) as (s' & Hp & Hs' & Hk).
    + unfold producing, s1. simpl. eauto.
    + unfold s1. simpl. exact Hv.
    + exists s'. split; [exact Hp|]. split; [exact Hs'|].
      rewrite Hk. unfold keys, s1. simpl. rewrite Hfo. simpl. rewrite <- app_assoc. reflexivity.
Qed.

Lemma cursor_seq_lookup ps : forall c k,
  (k <= length ps)%nat ->
  (c :: cursor_seq c ps) !! k = Some (c + sum_durations (take k ps))%Z.
Proof.
  induction ps as [|p ps IH]; intros c k Hk.
  - simpl in Hk. assert (k = 0%nat) by lia. subst. simpl. f_equal. lia.
  - destruct k as [|k]; simpl.
    + f_equal. lia.
    + simpl in Hk. rewrite (IH (c + duration p)%Z k) by lia. f_equal. lia.
Qed.

(** The keys of a first session. *)
Lemma expected_keys_from_fresh k p0 b0 l :
  cursor_valid (pts p0) (map fst l) ->
  exists s0 s',
    Start k constructed = (Ret tt, s0) /\
    push_all (data ((p0, b0) :: l)) s0 = (Ret tt, s') /\
    last_pts_ (snd (Push (Some p0) b0 s0)) = pts p0 /\
    keys s' = pts p0 :: cursor_seq (pts p0) (map fst l) /\
    forall j, (j <= length l)%nat ->
      keys s' !! j = Some (pts p0 + sum_durations (take j (map fst l)))%Z.
Proof.
  intros Hv.
  destruct (Start_fresh k constructed) as (s0 & Hs & Hr & Hpq & Hfq & _ & _ & Hfo & _ & Hlp & _);
    try reflexivity.
  simpl in Hlp.
  pose proof (Push_data s0 p0 b0 _ _ _ Hr Hpq Hfq Hfo) as HP.
  rewrite Hlp in HP. simpl in HP.
  match type of HP with _ = (_, ?x) => set (s1 := x) in * end.
  destruct (push_all_advances l s1) as (s' & Hp & _ & Hk).
  { unfold producing, s1. simpl. eauto. }
  { unfold s1. simpl. exact Hv. }
  exists s0, s'. split; [exact Hs|]. split.
  { simpl. unfold bind at 1. rewrite HP. exact Hp. }
  split; [rewrite HP; reflexivity|].
  assert (Hk' : keys s' = pts p0 :: cursor_seq (pts p0) (map fst l)).
  { rewrite Hk. unfold keys, s1. simpl. reflexivity. }
  split; [exact Hk'|]. intros j Hj. rewrite Hk'.
  apply cursor_seq_lookup. rewrite length_map. exact Hj.
Qed.

Lemma count_app P l1 l2 : count P (l1 ++ l2) = count P l1 + count P l2.
Proof. induction l1; simpl; lia. Qed.

Lemma session_fold l : forall acc,
  fold_left session_step l acc
  = if existsb is_init l then session l else acc ++ session l.
Proof.
  unfold session. induction l as [|o l IH]; intros acc; simpl.
  - rewrite app_nil_r. reflexivity.
  - destruct (is_init o) eqn:Ho.
    + destruct o; try discriminate. reflexivity.
    + assert (Hs : forall a, session_step a o = a ++ [o]) by (intros a; destruct o; try discriminate; reflexivity).
      rewrite !Hs. simpl. rewrite (IH (acc ++ [o])), (IH [o]).
      destruct (existsb is_init l); [reflexivity|]. rewrite <- app_assoc. reflexivity.
Qed.

(** The session of a longer history. *)
Lemma session_app l1 l2 :
  session (l1 ++ l2) = if existsb is_init l2 then session l2 else session l1 ++ session l2.
Proof. unfold session at 1. rewrite fold_left_app. apply session_fold. Qed.

Lemma session_noinit l : existsb is_init l = false -> session l = l.
Proof.
  induction l as [|o l IH] using rev_ind; intros H; [reflexivity|].
  rewrite existsb_app in H. apply orb_false_iff in H as [H1 H2].
  rewrite session_app. simpl in *. rewrite H2. rewrite IH by exact H1.
  destruct o; try discriminate; reflexivity.
Qed.

Lemma session_snoc_init l1 l2 :
  existsb is_init l2 = false -> session (l1 ++ ObsPermitsInit :: l2) = l2.
Proof.
  intros H. rewrite session_app. simpl. replace (ObsPermitsInit :: l2) with ([ObsPermitsInit] ++ l2) by reflexivity.
  rewrite session_app, H. simpl. apply session_noinit, H.
Qed.

Lemma session_grow l1 l2 :
  existsb is_init l2 = false -> session (l1 ++ l2) = session l1 ++ l2.
Proof. intros H. rewrite session_app, H, (session_noinit l2 H). reflexivity. Qed.

(** The two [CHECK]s of [Push] come before any write. *)
Lemma Push_rejects pkt buf s :
  run_ s = false \/ (pkt = None /\ draining_ s = true) ->
  Push pkt buf s = (Fatal CheckFailed, s).
Proof.
  intros [Hr | [-> Hd]]; open_state s; [reflexivity|].
  unfold_m. simpl. destruct r; reflexivity.
Qed.

Lemma Start_running k s : run_ s = true -> Start k s = (Ret tt, s).
Proof. intros H. open_state s. reflexivity. Qed.

Lemma Stop_stopped s :
  run_ s = false -> joinable (launcher_t_ s) = false -> joinable (converter_t_ s) = false ->
  Stop s = (Ret tt, s).
Proof. intros H1 H2 H3. open_state s. reflexivity. Qed.

(** [Stop] returns with [run_] false and both handles joined. *)
Lemma Stop_joined s s' :
  Stop s = (Ret tt, s') ->
  run_ s' = false /\ joinable (launcher_t_ s') = false /\ joinable (converter_t_ s') = false.
Proof.
  intros H. open_state s. unfold_m in H. simpl in H.
  destruct r; simpl in H.
  - destruct pq; simpl in H; [|discriminate]. destruct fq; simpl in H; [|discriminate].
    destruct bq; simpl in H; [|discriminate]. destruct rq; simpl in H; [|discriminate].
    destruct fo; simpl in H; [|discriminate].
    destruct lt, ct; simpl in H; simplify_eq; auto.
  - destruct lt, ct; simpl in H; simplify_eq; auto.
Qed.

(** ** What each member function changes *)

Ltac step_in H :=
  match type of H with
  | context [match ?x with _ => _ end] =>
      lazymatch x with
      | context [match _ with _ => _ end] => fail
      | _ => destruct x eqn:?
      end
  end.

Ltac bool_to_prop :=
  repeat match goal with
  | H : (_ <=? _)%Z = true |- _ => apply Z.leb_le in H
  | H : (_ <=? _)%Z = false |- _ => apply Z.leb_gt in H
  | H : (_ <? _)%Z = true |- _ => apply Z.ltb_lt in H
  | H : (_ <? _)%Z = false |- _ => apply Z.ltb_ge in H
  | H : (_ =? _)%Z = true |- _ => apply Z.eqb_eq in H
  | H : (_ =? _)%Z = false |- _ => apply Z.eqb_neq in H
  | H : (_ <? _)%nat = true |- _ => apply Nat.ltb_lt in H
  | H : (_ <? _)%nat = false |- _ => apply Nat.ltb_ge in H
  | H : (_ =? _)%nat = true |- _ => apply Nat.eqb_eq in H
  | H : (_ =? _)%nat = false |- _ => apply Nat.eqb_neq in H
  | H : _ || true = false |- _ => rewrite orb_true_r in H; discriminate H
  | H : _ || false = _ |- _ => rewrite orb_false_r in H
  | H : _ && _ = true |- _ => apply andb_true_iff in H as [? ?]
  | H : negb _ = true |- _ => apply negb_true_iff in H
  | H : negb _ = false |- _ => apply negb_false_iff in H
  end.

Ltac brute H :=
  unfold_m in H; simpl in H;
  unfold bq_Size, bq_Pop, bq_Push, bq_SignalForKill, bq_new in H; simpl in H;
  repeat (step_in H; simpl in H); simplify_eq; simpl in *; bool_to_prop; subst; simpl in *.

(** [Push] and [Pop] touch neither the permits, nor the ready surfaces, nor
    the history, nor the Reorder Map. *)
Lemma Push_view pkt buf s o s' : Push pkt buf s = (o, s') -> same_view s s'.
Proof.
  intros H. open_state s. unfold same_view. brute H; simpl; auto.
Qed.

Lemma Pop_view s o s' : Pop s = (o, s') -> same_view s s'.
Proof.
  intros H. open_state s. unfold same_view. brute H; simpl; auto.
Qed.

Lemma Stop_signal_view s o s' : Stop_signal s = (o, s') -> same_view s s'.
Proof.
  intros H. open_state s. unfold same_view. brute H; simpl; auto.
Qed.

Lemma Stop_resume_view b c s o s' :
  Stop_resume b c s = (o, s') ->
  log s' = log s /\
  (reorder_buffer_ s' = reorder_buffer_ s \/ reorder_buffer_ s' = ∅) /\
  (permits_ s' = permits_ s \/ permits_ s' = kill_permits (permits_ s) \/ permits_ s' = []) /\
  option_map items (buffer_queue_ s') = option_map items (buffer_queue_ s).
Proof.
  intros H. open_state s. unfold Stop_resume in H. destruct b, c; brute H; simpl; auto 10. 
Qed.

Lemma LaunchThread_iter_view s o s' :
  LaunchThread_iter s = (o, s') ->
  permits_ s' = permits_ s /\ buffer_queue_ s' = buffer_queue_ s /\
  reorder_buffer_ s' = reorder_buffer_ s /\
  exists l, log s' = log s ++ l /\ forallb quiet l = true.
Proof.
  intros H. open_state s. brute H; simpl; repeat split; auto;
    solve [ exists []; rewrite app_nil_r; auto | eexists [_]; split; [reflexivity|reflexivity] ].
Qed.

Lemma HandlePictureDisplay_view d s z s' :
  HandlePictureDisplay_ d s = (Ret z, s') ->
  permits_ s' = permits_ s /\ reorder_buffer_ s' = reorder_buffer_ s /\
  exists q, buffer_queue_ s = Some q /\ buffer_queue_ s' = Some (bq_Push d q) /\
    log s' = log s ++ [ObsDisplay (picture_index d)].
Proof.
  intros H. open_state s. brute H; simpl; repeat split; eauto.
Qed.

(** The decode-request callback either changes nothing here, or takes one
    token of its slot. *)
Lemma HandlePictureDecode_view idx s z s' :
  HandlePictureDecode_ idx s = (Ret z, s') ->
  buffer_queue_ s' = buffer_queue_ s /\ reorder_buffer_ s' = reorder_buffer_ s /\
  ((permits_ s' = permits_ s /\ log s' = log s) \/
   exists q tok rest,
     (0 <= idx)%Z /\ permits_ s !! Z.to_nat idx = Some (Some q) /\
     items q = tok :: rest /\ killed q = false /\
     permits_ s' = <[Z.to_nat idx := Some (mkQueue rest false)]> (permits_ s) /\
     ((run_ s = false /\ z = 0%Z /\ log s' = log s ++ [ObsAcquire idx]) \/
      (run_ s = true /\ z = 1%Z /\ log s' = log s ++ [ObsAcquire idx; ObsDecodePicture idx]))).
Proof.
  intros H. open_state s. brute H; repeat split; auto.
  all: right; eexists _, _, _; split; [assumption|]; split; [reflexivity|];
    split; [eassumption|]; split; [assumption|]; split; [reflexivity|];
    rewrite <- ?app_assoc; auto.
Qed.

(** [Start] returns at once, or fails its [CHECK] after it has rebuilt the
    queues, or rebuilds the permits. *)
Lemma Start_view k s o s' :
  Start k s = (o, s') ->
  reorder_buffer_ s' = reorder_buffer_ s /\
  (s' = s \/
   (permits_ s' = permits_ s /\ log s' = log s /\ buffer_queue_ s' = Some bq_new) \/
   (permits_ s' = replicate k (Some (mkQueue [1%Z] false)) /\
    buffer_queue_ s' = Some bq_new /\
    exists l, log s' = log s ++ ObsPermitsInit :: l /\ forallb quiet l = true)).
Proof.
  intros H. open_state s. unfold Start in H. unfold_m in H. simpl in H.
  destruct r; simpl in H; [simplify_eq; auto|].
  destruct ps as [|p ps]; simpl in H; [|simplify_eq; simpl; split; auto; right; left; auto].
  change (map _ (resize_permits k [])) with
    (map (fun _ : option (BlockingQueue Z) => Some (bq_Push 1%Z bq_new)) (resize_permits k [])) in H.
  rewrite fresh_permits in H.
  destruct lt; simpl in H; [simplify_eq; simpl; split; auto; right; right; repeat split; auto; exists []; rewrite <- ?app_assoc; auto|].
  destruct ct; simpl in H; simplify_eq; simpl; split; auto; right; right; repeat split; auto.
  - eexists [_]. rewrite <- ?app_assoc. simpl. auto.
  - eexists [_; _]. rewrite <- ?app_assoc. simpl. auto.
Qed.

Lemma delete_insert_empty (ts : Z) (arr : NDArray) :
  delete ts (<[ts := arr]> (∅ : gmap Z NDArray)) = ∅.
Proof. rewrite delete_insert_eq. apply delete_empty. Qed.

(** A converter turn that returns: it leaves the loop, or loses its surface
    because the Expected-Order Sequence was killed, or converts and releases.
    *)
Lemma ConvertThread_iter_view s b s' :
  ConvertThread_iter s = (Ret b, s') ->
  reorder_buffer_ s = ∅ ->
  reorder_buffer_ s' = ∅ /\
  ((permits_ s' = permits_ s /\ log s' = log s /\ buffer_queue_ s' = buffer_queue_ s) \/
   (exists q d rest arr,
      buffer_queue_ s = Some q /\ items q = d :: rest /\
      buffer_queue_ s' = Some (mkQueue rest false) /\
      permits_ s' = permits_ s /\
      log s' = log s ++ [ObsProcessFrame (picture_index d) arr]) \/
   (exists q d rest arr pq,
      buffer_queue_ s = Some q /\ items q = d :: rest /\
      buffer_queue_ s' = Some (mkQueue rest false) /\
      (0 <= picture_index d)%Z /\
      permits_ s !! Z.to_nat (picture_index d) = Some (Some pq) /\
      permits_ s' = <[Z.to_nat (picture_index d) := Some (bq_Push 1%Z pq)]> (permits_ s) /\
      log s' = log s ++ [ObsProcessFrame (picture_index d) arr; ObsRelease (picture_index d)])).
Proof.
  intros H Hrb. open_state s. brute H.
  all: rewrite ?lookup_insert_eq in *; simplify_eq.
  all: split; [first [reflexivity | apply delete_insert_empty]|].
  all: first
    [ left; repeat split; reflexivity
    | right; left; eexists _, _, _, _;
      split; [reflexivity|]; split; [eassumption|]; repeat split; reflexivity
    | right; right; eexists _, _, _, _, _;
      split; [reflexivity|]; split; [eassumption|]; split; [reflexivity|];
      split; [assumption|]; split; [eassumption|]; split; [reflexivity|];
      rewrite <- app_assoc; reflexivity ].
Qed.

(** ** The accounting of the permits *)

Lemma tokens_toks slot s : tokens slot s = toks (permits_ s) slot.
Proof. reflexivity. Qed.

Lemma toks_nil slot : toks [] slot = 0.
Proof. unfold toks. destruct (0 <=? slot)%Z; reflexivity. Qed.

Lemma toks_insert ps idx q p slot :
  (0 <= idx)%Z -> ps !! Z.to_nat idx = Some p ->
  toks (<[Z.to_nat idx := Some q]> ps) slot
  = if (slot =? idx)%Z then bq_Size q else toks ps slot.
Proof.
  intros Hi Hp. unfold toks. destruct (Z.eqb_spec slot idx) as [->|Hne].
  - assert ((0 <=? idx)%Z = true) as -> by (apply Z.leb_le; lia).
    rewrite list_lookup_insert_eq; [reflexivity|]. eapply lookup_lt_Some, Hp.
  - destruct (Z.leb_spec 0 slot); [|reflexivity].
    rewrite list_lookup_insert_ne; [reflexivity|]. lia.
Qed.

Lemma toks_kill ps slot : toks (kill_permits ps) slot = toks ps slot.
Proof.
  unfold toks, kill_permits. destruct (0 <=? slot)%Z; [|reflexivity].
  rewrite list_lookup_fmap. destruct (ps !! Z.to_nat slot) as [[q|]|]; reflexivity.
Qed.

Lemma toks_fresh k slot : toks (replicate k (Some (mkQueue [1%Z] false))) slot <= 1.
Proof.
  unfold toks. destruct (0 <=? slot)%Z; [|lia].
  destruct (replicate _ _ !! _) as [o|] eqn:E; [|lia].
  apply lookup_replicate in E as [-> _]. unfold bq_Size. simpl. lia.
Qed.

Lemma sum_tokens_insert ps : forall i q0 q,
  ps !! i = Some (Some q0) ->
  sum_tokens (<[i := Some q]> ps) + bq_Size q0 = sum_tokens ps + bq_Size q.
Proof.
  induction ps as [|p ps IH]; intros i q0 q H; [discriminate|].
  destruct i as [|i]; simpl in *.
  - simplify_eq. lia.
  - specialize (IH i q0 q H). lia.
Qed.

Lemma sum_tokens_kill ps : sum_tokens (kill_permits ps) = sum_tokens ps.
Proof.
  induction ps as [|[q|] ps IH]; simpl; [reflexivity| |]; rewrite IH; reflexivity.
Qed.

Lemma sum_tokens_fresh k : sum_tokens (replicate k (Some (mkQueue [1%Z] false))) = k.
Proof. induction k; simpl; [reflexivity|]. rewrite IHk. reflexivity. Qed.

Lemma count_slot_app slot l1 l2 :
  count_slot slot (l1 ++ l2) = count_slot slot l1 + count_slot slot l2.
Proof. induction l1; simpl; lia. Qed.

Lemma quiet_no_init l : forallb quiet l = true -> existsb is_init l = false.
Proof.
  induction l as [|o l IH]; simpl; [reflexivity|]. intros H.
  apply andb_true_iff in H as [Ho Hl]. rewrite (IH Hl). destruct o; try discriminate; reflexivity.
Qed.

Lemma quiet_count P l :
  (forall o, quiet o = true -> P o = false) ->
  forallb quiet l = true -> count P l = 0.
Proof.
  intros HP. induction l as [|o l IH]; simpl; [reflexivity|]. intros H.
  apply andb_true_iff in H as [Ho Hl]. rewrite (HP o Ho), (IH Hl). reflexivity.
Qed.

Lemma session_quiet P l1 l2 :
  (forall o, quiet o = true -> P o = false) ->
  forallb quiet l2 = true ->
  count P (session (l1 ++ l2)) = count P (session l1).
Proof.
  intros HP Hq. rewrite session_grow by (apply quiet_no_init, Hq).
  rewrite count_app, (quiet_count P l2 HP Hq). lia.
Qed.

Ltac quiet_tac := intros [] ?; first [reflexivity | discriminate].

(** Steps that add nothing to the permits, the ready surfaces or the counted
    history keep the accounting. *)
Lemma permit_inv_quiet k s s' l :
  permit_inv k s ->
  (forall slot, tokens slot s' <= tokens slot s) ->
  sum_tokens (permits_ s') <= sum_tokens (permits_ s) ->
  (forall slot, inbuf slot s' <= inbuf slot s) ->
  log s' = log s ++ l -> forallb quiet l = true ->
  reorder_buffer_ s' = ∅ ->
  permit_inv k s'.
Proof.
  intros [H1 H2 H3 H4 H5 H6 H7] Ht Hs Hb Hl Hq Hrb.
  assert (Hc : forall P, (forall o, quiet o = true -> P o = false) ->
     count P (session (log s')) = count P (session (log s))).
  { intros P HP. rewrite Hl. apply session_quiet; assumption. }
  constructor; unfold acquired, released, displayed, submitted in *; intros;
    rewrite ?(Hc (is_acquire slot)), ?(Hc (is_release slot)), ?(Hc (is_display slot)),
      ?(Hc (is_submit slot)), ?(Hc any_acquire), ?(Hc any_release), ?(Hc any_submit) by quiet_tac;
    auto.
  - specialize (H1 slot). specialize (Ht slot). lia.
  - specialize (H2 slot). specialize (Hb slot). lia.
  - lia.
Qed.

Lemma permit_inv_same k s s' : permit_inv k s -> same_view s s' -> permit_inv k s'.
Proof.
  intros Hi (Hp & Hb & Hl & Hr). apply (permit_inv_quiet k s s' []); auto.
  - intros slot. unfold tokens. rewrite Hp. lia.
  - rewrite Hp. lia.
  - intros slot. unfold inbuf. rewrite Hb. lia.
  - rewrite app_nil_r. exact Hl.
  - rewrite Hr. apply Hi.
Qed.

Lemma inbuf_items slot s s' :
  option_map items (buffer_queue_ s') = option_map items (buffer_queue_ s) ->
  inbuf slot s' = inbuf slot s.
Proof.
  unfold inbuf. destruct (buffer_queue_ s'), (buffer_queue_ s); simpl; intros H; simplify_eq; auto.
  rewrite H. reflexivity.
Qed.

Lemma inv_Stop_resume k b c s o s' :
  permit_inv k s -> Stop_resume b c s = (o, s') -> permit_inv k s'.
Proof.
  intros Hi H. apply Stop_resume_view in H as (Hl & Hr & Hp & Hb).
  apply (permit_inv_quiet k s s' []); auto.
  - intros slot. rewrite !tokens_toks. destruct Hp as [-> | [-> | ->]];
      rewrite ?toks_kill, ?toks_nil; lia.
  - destruct Hp as [-> | [-> | ->]]; rewrite ?sum_tokens_kill; simpl; lia.
  - intros slot. rewrite (inbuf_items slot s s' Hb). lia.
  - rewrite app_nil_r. exact Hl.
  - destruct Hr as [-> | ->]; [apply Hi | reflexivity].
Qed.

Lemma inv_Start k s o s' :
  permit_inv k s -> Start k s = (o, s') -> permit_inv k s'.
Proof.
  intros Hi H. apply Start_view in H as (Hr & [-> | [(Hp & Hl & Hb) | (Hp & Hb & l & Hl & Hq)]]).
  - exact Hi.
  - apply (permit_inv_quiet k s s' []); auto.
    + intros slot. unfold tokens. rewrite Hp. lia.
    + rewrite Hp. lia.
    + intros slot. unfold inbuf. rewrite Hb. simpl. lia.
    + rewrite app_nil_r. exact Hl.
    + rewrite Hr. apply Hi.
  - assert (Hs : session (log s') = l).
    { rewrite Hl. apply session_snoc_init, quiet_no_init, Hq. }
    assert (Hc : forall P, (forall o, quiet o = true -> P o = false) ->
              count P (session (log s')) = 0).
    { intros P HP. rewrite Hs. apply quiet_count; assumption. }
    constructor; unfold acquired, released, displayed, submitted; intros;
      rewrite ?(Hc (is_acquire slot)), ?(Hc (is_release slot)), ?(Hc (is_display slot)),
        ?(Hc (is_submit slot)), ?(Hc any_acquire), ?(Hc any_release), ?(Hc any_submit) by quiet_tac.
    + rewrite tokens_toks, Hp. pose proof (toks_fresh k slot). lia.
    + unfold inbuf. rewrite Hb. simpl. lia.
    + lia.
    + lia.
    + rewrite Hp, sum_tokens_fresh. lia.
    + lia.
    + rewrite Hr. apply Hi.
Qed.

Lemma inv_Launch k s o s' :
  permit_inv k s -> LaunchThread_iter s = (o, s') -> permit_inv k s'.
Proof.
  intros Hi H. apply LaunchThread_iter_view in H as (Hp & Hb & Hr & l & Hl & Hq).
  apply (permit_inv_quiet k s s' l); auto.
  - intros slot. unfold tokens. rewrite Hp. lia.
  - rewrite Hp. lia.
  - intros slot. unfold inbuf. rewrite Hb. lia.
  - rewrite Hr. apply Hi.
Qed.

Ltac grow_counts Hl :=
  unfold acquired, released, displayed, submitted;
  rewrite Hl; rewrite session_grow by reflexivity; rewrite !count_app; simpl.

Ltac eqb_cases :=
  repeat match goal with
  | |- context [(?a =? ?b)%Z] => destruct (Z.eqb_spec a b)
  | H : context [(?a =? ?b)%Z] |- _ => destruct (Z.eqb_spec a b)
  end.

Lemma inv_Display k d s z s' :
  permit_inv k s -> engine_may_display (picture_index d) s = true ->
  HandlePictureDisplay_ d s = (Ret z, s') -> permit_inv k s'.
Proof.
  intros [H1 H2 H3 H4 H5 H6 H7] Hg H.
  apply HandlePictureDisplay_view in H as (Hp & Hr & q & Hb & Hb' & Hl).
  unfold engine_may_display in Hg. apply Nat.ltb_lt in Hg.
  constructor; intros.
  - specialize (H1 slot). revert H1. rewrite !tokens_toks, Hp. grow_counts Hl. lia.
  - specialize (H2 slot). revert H2. unfold inbuf. rewrite Hb, Hb'. simpl.
    rewrite count_slot_app. grow_counts Hl. lia.
  - specialize (H3 slot). revert H3 Hg. grow_counts Hl. eqb_cases; subst; lia.
  - specialize (H4 slot). revert H4. grow_counts Hl. lia.
  - revert H5. rewrite Hp. grow_counts Hl. lia.
  - revert H6. grow_counts Hl. lia.
  - rewrite Hr. exact H7.
Qed.

Lemma inv_Decode k idx s z s' :
  permit_inv k s -> HandlePictureDecode_ idx s = (Ret z, s') -> permit_inv k s'.
Proof.
  intros Hi H.
  apply HandlePictureDecode_view in H as (Hb & Hr & [(Hp & Hl) | (q & tok & rest & Hidx & Hq & Hit & Hk & Hp & Hcase)]).
  - apply permit_inv_same with s; auto. repeat split; auto.
  - destruct Hi as [H1 H2 H3 H4 H5 H6 H7].
    assert (Ht : forall slot, tokens slot s' = if (slot =? idx)%Z then length rest else tokens slot s).
    { intros slot. rewrite !tokens_toks, Hp. rewrite (toks_insert _ _ _ _ _ Hidx Hq). reflexivity. }
    assert (Htk : tokens idx s = S (length rest)).
    { rewrite tokens_toks. unfold toks. assert ((0 <=? idx)%Z = true) as -> by (apply Z.leb_le; lia).
      rewrite Hq. unfold bq_Size. rewrite Hit. reflexivity. }
    assert (Hsum : sum_tokens (permits_ s') + S (length rest) = sum_tokens (permits_ s) + length rest).
    { rewrite Hp. pose proof (sum_tokens_insert (permits_ s) (Z.to_nat idx) q (mkQueue rest false) Hq) as E.
      unfold bq_Size in E. rewrite Hit in E. simpl in E. lia. }
    destruct Hcase as [(_ & _ & Hl) | (_ & _ & Hl)];
      (constructor; intros;
       [ specialize (H1 slot); revert H1; rewrite Ht; grow_counts Hl; eqb_cases; subst; lia
       | specialize (H2 slot); revert H2; unfold inbuf; rewrite Hb; grow_counts Hl; lia
       | specialize (H3 slot); revert H3; grow_counts Hl; lia
       | specialize (H4 slot); revert H4; grow_counts Hl; eqb_cases; lia
       | revert H5; grow_counts Hl; lia
       | revert H6; grow_counts Hl; lia
       | rewrite Hr; exact H7 ]).
Qed.

Lemma inv_Convert k s b s' :
  permit_inv k s -> ConvertThread_iter s = (Ret b, s') -> permit_inv k s'.
Proof.
  intros Hi H. pose proof (pi_map _ _ Hi) as Hrb.
  apply ConvertThread_iter_view in H as (Hr & Hcase); [|exact Hrb].
  destruct Hcase as [(Hp & Hl & Hb) | [(q & d & rest & arr & Hb & Hit & Hb' & Hp & Hl) |
                     (q & d & rest & arr & pq & Hb & Hit & Hb' & Hidx & Hq & Hp & Hl)]].
  - apply permit_inv_same with s; auto. repeat split; auto. rewrite Hr, Hrb. reflexivity.
  - apply (permit_inv_quiet k s s' [ObsProcessFrame (picture_index d) arr]); auto.
    + intros slot. unfold tokens. rewrite Hp. lia.
    + rewrite Hp. lia.
    + intros slot. unfold inbuf. rewrite Hb, Hb', Hit. simpl. lia.
  - destruct Hi as [H1 H2 H3 H4 H5 H6 H7].
    assert (Ht : forall slot, tokens slot s' =
              if (slot =? picture_index d)%Z then S (tokens (picture_index d) s) else tokens slot s).
    { intros slot. rewrite !tokens_toks, Hp. rewrite (toks_insert _ _ _ _ _ Hidx Hq).
      destruct (Z.eqb_spec slot (picture_index d)); [|reflexivity].
      unfold toks. assert ((0 <=? picture_index d)%Z = true) as -> by (apply Z.leb_le; lia).
      rewrite Hq. unfold bq_Size, bq_Push. simpl. rewrite length_app. simpl. lia. }
    assert (Hsum : sum_tokens (permits_ s') = S (sum_tokens (permits_ s))).
    { rewrite Hp. pose proof (sum_tokens_insert (permits_ s) (Z.to_nat (picture_index d)) pq (bq_Push 1%Z pq) Hq) as E.
      unfold bq_Size in E. unfold bq_Push in E at 2. simpl in E. rewrite length_app in E. simpl in E.
      lia. }
    constructor; intros.
    + specialize (H1 slot). revert H1. rewrite Ht. grow_counts Hl. eqb_cases; subst; lia.
    + specialize (H2 slot). revert H2. unfold inbuf. rewrite Hb, Hb', Hit. simpl.
      grow_counts Hl. eqb_cases; subst; lia.
    + specialize (H3 slot). revert H3. grow_counts Hl. lia.
    + specialize (H4 slot). revert H4. grow_counts Hl. lia.
    + revert H5. rewrite Hsum. grow_counts Hl. lia.
    + revert H6. grow_counts Hl. lia.
    + exact Hr.
Qed.

Lemma permit_inv_constructed k : permit_inv k constructed.
Proof.
  constructor; intros; unfold tokens, acquired, released, displayed, submitted, inbuf;
    simpl; try lia; try reflexivity.
  destruct (0 <=? slot)%Z; simpl; lia.
Qed.

(** Every transition keeps the accounting of the permits. *)
Lemma exec_inv k e st st' :
  permit_inv k (dec st) -> exec k e st = Some st' -> permit_inv k (dec st').
Proof.
  intros Hi H. destruct st as [s p pu po]. simpl in *.
  destruct e; simpl in H; unfold thread_turn, callback in H; simpl in H.
  - destruct p; [|discriminate]. destruct (Start k s) as [[| |] s1] eqn:E; simplify_eq; simpl;
      eapply inv_Start; eauto.
  - destruct p; [|discriminate]. destruct (Stop_signal s) as [[| |] s1] eqn:E; simplify_eq; simpl;
      eapply permit_inv_same; eauto using Stop_signal_view.
  - destruct p; [|discriminate]. destruct (Stop_signal s) as [[| |] s1] eqn:E; simplify_eq; simpl;
      eapply permit_inv_same; eauto using Stop_signal_view.
  - destruct p; [|discriminate]. destruct (Push pkt buf s) as [[| |] s1] eqn:E; simplify_eq; simpl;
      eapply permit_inv_same; eauto using Push_view.
  - destruct p; [|discriminate]. destruct (Pop s) as [[[]| |] s1] eqn:E; simplify_eq; simpl;
      eapply permit_inv_same; eauto using Pop_view.
  - destruct p; [discriminate|]. destruct (Stop_resume entered clearing s) as [[| |] s1] eqn:E;
      simplify_eq; simpl; eapply inv_Stop_resume; eauto.
  - destruct (joinable (launcher_t_ s)); [|discriminate].
    destruct (LaunchThread_iter s) as [[| |] s1] eqn:E; simplify_eq; simpl. eapply inv_Launch; eauto.
  - destruct (joinable (converter_t_ s)); [|discriminate].
    destruct (ConvertThread_iter s) as [[| |] s1] eqn:E; simplify_eq; simpl. eapply inv_Convert; eauto.
  - destruct (HandlePictureDecode_ CurrPicIdx s) as [[| |] s1] eqn:E; simplify_eq; simpl.
    eapply inv_Decode; eauto.
  - destruct (engine_may_display (picture_index disp_info) s) eqn:G; [|discriminate].
    destruct (HandlePictureDisplay_ disp_info s) as [[| |] s1] eqn:E; simplify_eq; simpl.
    eapply inv_Display; eauto.
Qed.

Lemma run_events_inv k tr : forall st st',
  permit_inv k (dec st) -> run_events k tr st = Some st' -> permit_inv k (dec st').
Proof.
  induction tr as [|e tr IH]; intros st st' Hi H; simpl in H.
  - simplify_eq. exact Hi.
  - destruct (exec k e st) as [st1|] eqn:E; [|discriminate].
    eapply IH; [|exact H]. eapply exec_inv; eauto.
Qed.

(** The accounting holds in every reachable state. *)
Lemma reachable_inv k st : reachable k st -> permit_inv k (dec st).
Proof.
  intros [tr H]. eapply run_events_inv; [|exact H]. apply permit_inv_constructed.
Qed.



(** ** The history only grows *)

Lemma LaunchThread_iter_stopped s : run_ s = false -> LaunchThread_iter s = (Ret false, s).
Proof. intros H. open_state s. reflexivity. Qed.
Lemma ConvertThread_iter_stopped s : run_ s = false -> ConvertThread_iter s = (Ret false, s).
Proof. intros H. open_state s. reflexivity. Qed.













(** ** A running session *)

Lemma n_eos_app l1 l2 : n_eos (l1 ++ l2) = n_eos l1 + n_eos l2.
Proof. induction l1 as [|[[p|] b] l1 IH]; simpl; lia. Qed.

Lemma slot_ok_insert ps i q slot :
  slot_ok ps slot -> slot_ok (<[i := Some q]> ps) slot.
Proof.
  intros (H0 & q0 & Hq). split; [exact H0|].
  destruct (decide (i = Z.to_nat slot)) as [->|Hne].
  - exists q. apply list_lookup_insert_eq. eapply lookup_lt_Some, Hq.
  - exists q0. rewrite list_lookup_insert_ne by exact Hne. exact Hq.
Qed.

Ltac open_sys st := destruct st as [?s ?p ?pu ?po]; simpl in *.



Ltac open_inv Hi :=
  destruct Hi as [Hpc Hrun Hconv Hpkt (Hlf & Hlb & Hlr & Hlo) Hord Hkeys Hcnt Hshown Hdrain Hbs Hsl].

Ltac open_all st Hi :=
  open_inv Hi; open_sys st; subst;
  match goal with s : CUThreadedDecoder |- _ => open_state s end;
  repeat match goal with
  | H : is_Some ?q |- _ => destruct H as [? ->]
  | H : live ?q = true |- _ => destruct q as [[? []]|]; simpl in H; try discriminate H; clear H
  end; simpl in *.

Ltac list_tac :=
  rewrite ?map_app, ?length_app, ?n_eos_app, ?count_app, ?count_slot_app; simpl;
  first [ reflexivity | assumption | lia
        | match goal with H : map snd _ = _ |- _ => rewrite H end;
          rewrite <- ?app_assoc; simpl; reflexivity
        | f_equal; lia
        | symmetry; apply Nat.ltb_lt; lia
        | eauto ].

(** Each event of a session keeps [session_inv]; only a display-ready
    notification adds to the surfaces shown. *)
Lemma session_step_push k pkt buf st st' :
  session_inv st -> exec k (CallPush pkt buf) st = Some st' ->
  session_inv st' /\
  count any_display (session (log (dec st'))) = count any_display (session (log (dec st))).
Proof.
  intros Hi H. open_all st Hi.
  destruct pkt as [pk|].
  - erewrite Push_data in H by reflexivity. simplify_eq. simpl.
    split; [|reflexivity]. constructor; simpl; list_tac.
  - destruct (0 <? n_eos pu) eqn:Hd.
    + rewrite Push_rejects in H by (right; auto). simplify_eq. simpl.
      split; [|reflexivity]. constructor; simpl; list_tac.
    + erewrite Push_eos in H by reflexivity. simplify_eq. simpl.
      split; [|reflexivity]. constructor; simpl; list_tac.
Qed.

Lemma LaunchThread_iter_core s o s' :
  LaunchThread_iter s = (o, s') ->
  same_core s s' /\ (is_Some (pkt_queue_ s) -> is_Some (pkt_queue_ s')).
Proof. intros H. open_state s. unfold same_core. brute H; repeat split; eauto. Qed.

Lemma HandlePictureDecode_core idx s o s' :
  HandlePictureDecode_ idx s = (o, s') ->
  same_core s s' /\ pkt_queue_ s' = pkt_queue_ s.
Proof. intros H. open_state s. unfold same_core. brute H; repeat split; eauto. Qed.

Lemma HandlePictureDisplay_core d s o s' :
  HandlePictureDisplay_ d s = (o, s') ->
  same_core s s' /\ pkt_queue_ s' = pkt_queue_ s.
Proof. intros H. open_state s. unfold same_core. brute H; repeat split; eauto. Qed.

Lemma live_Some {T} (o : option (BlockingQueue T)) :
  live o = true -> exists l, o = Some (mkQueue l false).
Proof. destruct o as [[l []]|]; simpl; try discriminate. eauto. Qed.

(** A converter turn that returns in a running session has converted. *)
Lemma ConvertThread_iter_good s b s' :
  run_ s = true ->
  live (buffer_queue_ s) = true -> live (frame_queue_ s) = true ->
  live (frame_order_ s) = true -> live (reorder_queue_ s) = true ->
  ConvertThread_iter s = (Ret b, s') ->
  exists d bq' arr fq' key fo' pq,
    contents (buffer_queue_ s) = d :: bq' /\
    contents (frame_queue_ s) = arr :: fq' /\
    contents (frame_order_ s) = key :: fo' /\
    defined arr = true /\
    (0 <= picture_index d)%Z /\
    permits_ s !! Z.to_nat (picture_index d) = Some (Some pq) /\
    buffer_queue_ s' = Some (mkQueue bq' false) /\
    frame_queue_ s' = Some (mkQueue fq' false) /\
    frame_order_ s' = Some (mkQueue fo' false) /\
    reorder_queue_ s' = Some (mkQueue (contents (reorder_queue_ s) ++ [arr]) false) /\
    permits_ s' = <[Z.to_nat (picture_index d) := Some (bq_Push 1%Z pq)]> (permits_ s) /\
    log s' = log s ++ [ObsProcessFrame (picture_index d) arr; ObsRelease (picture_index d)] /\
    run_ s' = true /\ converter_t_ s' = converter_t_ s /\ pkt_queue_ s' = pkt_queue_ s /\
    frame_count_ s' = frame_count_ s /\ draining_ s' = draining_ s.
Proof.
  intros Hr Hb Hf Ho Hq H.
  apply live_Some in Hb as [bq Hb]. apply live_Some in Hf as [fq Hf].
  apply live_Some in Ho as [fo Ho]. apply live_Some in Hq as [rq Hq].
  open_state s. brute H.
  all: rewrite ?lookup_insert_eq in *; simplify_eq.
  all: eexists _, _, _, _, _, _, _; repeat split; try reflexivity; try eassumption;
    rewrite <- ?app_assoc; reflexivity.
Qed.

Lemma session_count_grow P s s' l :
  log s' = log s ++ l -> existsb is_init l = false ->
  count P (session (log s')) = count P (session (log s)) + count P l.
Proof. intros Hl Hn. rewrite Hl, session_grow, count_app by exact Hn. reflexivity. Qed.

Lemma session_step_convert k st st' :
  session_inv st -> exec k ConvertTurn st = Some st' ->
  session_inv st' /\
  count any_display (session (log (dec st'))) = count any_display (session (log (dec st))).
Proof.
  intros Hi H. open_inv Hi. open_sys st. subst.
  unfold thread_turn in H. simpl in H. rewrite Hconv in H.
  destruct (ConvertThread_iter s) as [[b| |] s1] eqn:E; simplify_eq. simpl.
  destruct (ConvertThread_iter_good s b s1 Hrun Hlb Hlf Hlo Hlr E)
    as (d & bq' & arr & fq' & key & fo' & pq & Hb & Hf & Ho & Hdef & Hidx & Hpq &
        Hb' & Hf' & Ho' & Hr' & Hp' & Hl' & Hrun' & Hc' & Hpk' & Hfc' & Hd').
  assert (Hcnt' : forall P, count P (session (log s1)) = count P (session (log s)) +
            count P [ObsProcessFrame (picture_index d) arr; ObsRelease (picture_index d)]).
  { intros P. apply session_count_grow; [exact Hl'|reflexivity]. }
  split; [|rewrite Hcnt'; simpl; lia].
  constructor; simpl; rewrite ?Hb', ?Hf', ?Ho', ?Hr', ?Hrun', ?Hc', ?Hpk', ?Hfc', ?Hd'; simpl; auto.
  - rewrite Hord, Hf, <- !app_assoc. reflexivity.
  - rewrite Hf, Ho in Hkeys. simpl in Hkeys. lia.
  - rewrite Hcnt, Hf, length_app. simpl. lia.
  - rewrite Hcnt'. simpl. rewrite Hb in Hshown. simpl in Hshown. rewrite length_app. simpl. lia.
  - rewrite Hb in Hbs. apply Forall_cons in Hbs as [_ Hbs].
    eapply Forall_impl; [exact Hbs|]. intros x Hx. rewrite Hp'. apply slot_ok_insert, Hx.
  - intros slot Hs. rewrite Hp'. apply slot_ok_insert, Hsl.
    unfold submitted in *. rewrite Hcnt' in Hs. simpl in Hs. lia.
Qed.

Lemma session_step_pop k st st' :
  session_inv st -> exec k CallPop st = Some st' ->
  session_inv st' /\
  count any_display (session (log (dec st'))) = count any_display (session (log (dec st))).
Proof.
  intros Hi H. open_inv Hi. open_sys st. subst. simpl in H.
  destruct (live_Some _ Hlr) as [rq Hrq].
  destruct rq as [|x rest].
  - rewrite (Pop_empty s _ Hrq eq_refl) in H. simplify_eq. simpl.
    split; [|reflexivity]. constructor; simpl; auto.
  - rewrite (Pop_frame s _ x rest Hrq eq_refl eq_refl) in H.
    2:{ left. rewrite Hcnt, Hrq. simpl. lia. }
    simplify_eq. simpl. split; [|reflexivity].
    rewrite Hrq in *. simpl in *.
    constructor; simpl; auto.
    + rewrite Hord, <- !app_assoc. reflexivity.
    + rewrite Hcnt. lia.
    + rewrite length_app. simpl. lia.
Qed.

Lemma session_step_launch k st st' :
  session_inv st -> exec k LaunchTurn st = Some st' ->
  session_inv st' /\
  count any_display (session (log (dec st'))) = count any_display (session (log (dec st))).
Proof.
  intros Hi H. open_inv Hi. open_sys st. subst.
  unfold thread_turn in H. simpl in H.
  destruct (joinable (launcher_t_ s)); [|discriminate].
  destruct (LaunchThread_iter s) as [[b| |] s1] eqn:E; simplify_eq. simpl.
  destruct (LaunchThread_iter_core _ _ _ E) as ((R1 & R2 & R3 & R4 & R5 & R6 & R7) & Rp).
  destruct (LaunchThread_iter_view _ _ _ E) as (Vp & Vb & _ & l & Vl & Vq).
  assert (Hcnt' : forall P, (forall o, quiet o = true -> P o = false) ->
            count P (session (log s1)) = count P (session (log s))).
  { intros P HP. rewrite Vl. apply session_quiet; assumption. }
  split; [|apply Hcnt'; quiet_tac].
  constructor; simpl; rewrite ?R1, ?R2, ?R3, ?R4, ?R5, ?R6, ?R7, ?Vp, ?Vb; auto.
  - rewrite Hcnt' by quiet_tac. exact Hshown.
  - intros slot. unfold submitted. rewrite Hcnt' by quiet_tac. apply Hsl.
Qed.

Lemma session_step_display k d st st' :
  session_inv st -> exec k (EngineDisplay d) st = Some st' ->
  session_inv st' /\
  count any_display (session (log (dec st'))) = count any_display (session (log (dec st))) + 1.
Proof.
  intros Hi H. open_inv Hi. open_sys st. subst.
  unfold callback in H. simpl in H.
  destruct (engine_may_display (picture_index d) s) eqn:G; [|discriminate].
  destruct (HandlePictureDisplay_ d s) as [[b| |] s1] eqn:E; simplify_eq. simpl.
  destruct (HandlePictureDisplay_core _ _ _ _ E) as ((R1 & R2 & R3 & R4 & R5 & R6 & R7) & Rp).
  destruct (HandlePictureDisplay_view _ _ _ _ E) as (Vp & _ & q & Vb & Vb' & Vl).
  assert (Hcnt' : forall P, count P (session (log s1)) = count P (session (log s)) +
            count P [ObsDisplay (picture_index d)]).
  { intros P. apply session_count_grow; [exact Vl|reflexivity]. }
  split; [|rewrite Hcnt'; reflexivity].
  rewrite Vb in *. simpl in *.
  constructor; simpl; rewrite ?R1, ?R2, ?R3, ?R4, ?R5, ?R6, ?R7, ?Vp, ?Vb', ?Rp; simpl; auto.
  - rewrite Hcnt'. simpl. rewrite length_app. simpl. lia.
  - apply Forall_app. split; [exact Hbs|]. constructor; [|constructor].
    apply Hsl. unfold engine_may_display in G. apply Nat.ltb_lt in G. lia.
  - intros slot. unfold submitted. rewrite Hcnt'. simpl. rewrite Nat.add_0_r. apply Hsl.
Qed.

Lemma session_step_decode k idx st st' :
  session_inv st -> exec k (EngineDecode idx) st = Some st' ->
  session_inv st' /\
  count any_display (session (log (dec st'))) = count any_display (session (log (dec st))).
Proof.
  intros Hi H. open_inv Hi. open_sys st. subst.
  unfold callback in H. simpl in H.
  destruct (HandlePictureDecode_ idx s) as [[b| |] s1] eqn:E; simplify_eq. simpl.
  destruct (HandlePictureDecode_core _ _ _ _ E) as ((R1 & R2 & R3 & R4 & R5 & R6 & R7) & Rp).
  destruct (HandlePictureDecode_view _ _ _ _ E) as (Vb & _ & Vcase).
  assert (Hgoal : forall l,
     log s1 = log s ++ l -> existsb is_init l = false -> count any_display l = 0 ->
     (forall slot, slot_ok (permits_ s) slot -> slot_ok (permits_ s1) slot) ->
     (forall slot, 0 < count (is_submit slot) l -> slot_ok (permits_ s1) slot) ->
     session_inv (mkSys s1 Idle pu po) /\
     count any_display (session (log s1)) = count any_display (session (log s))).
  { intros l Hl Hn Hd Hok Hnew.
    assert (Hcnt' : forall P, count P (session (log s1)) = count P (session (log s)) + count P l).
    { intros P. apply session_count_grow; assumption. }
    split; [|rewrite Hcnt'; lia].
    constructor; simpl; rewrite ?R1, ?R2, ?R3, ?R4, ?R5, ?R6, ?R7, ?Vb, ?Rp; auto.
    - rewrite Hcnt'. lia.
    - eapply Forall_impl; [exact Hbs|]. intros x Hx. apply Hok, Hx.
    - intros slot. unfold submitted. rewrite Hcnt'. intros Hs.
      destruct (count (is_submit slot) l) eqn:Ec.
      + apply Hok, Hsl. unfold submitted. lia.
      + apply Hnew. lia. }
  destruct Vcase as [(Hp & Hl) | (q & tok & rest & Hidx & Hq & Hit & Hk & Hp & Hc)].
  - apply (Hgoal []); auto.
    + rewrite app_nil_r. exact Hl.
    + intros slot. rewrite Hp. auto.
    + simpl. lia.
  - assert (Hok : forall slot, slot_ok (permits_ s) slot -> slot_ok (permits_ s1) slot).
    { intros slot Hs. rewrite Hp. apply slot_ok_insert, Hs. }
    assert (Hme : slot_ok (permits_ s1) idx).
    { apply Hok. split; [exact Hidx|eauto]. }
    destruct Hc as [(_ & _ & Hl) | (_ & _ & Hl)]; apply (Hgoal _ Hl); auto.
    + simpl. lia.
    + intros slot. simpl. destruct (Z.eqb_spec idx slot); [subst; auto | lia].
Qed.

(** ** Draining the pipeline *)

Lemma session_inv_step k e st st' :
  session_inv st -> session_event e = true -> exec k e st = Some st' ->
  session_inv st' /\
  count any_display (session (log (dec st'))) =
    count any_display (session (log (dec st))) + (if is_display_event e then 1 else 0).
Proof.
  intros Hi He H. destruct e; try discriminate He; simpl.
  - rewrite Nat.add_0_r. eapply session_step_push; eauto.
  - rewrite Nat.add_0_r. eapply session_step_pop; eauto.
  - rewrite Nat.add_0_r. eapply session_step_launch; eauto.
  - rewrite Nat.add_0_r. eapply session_step_convert; eauto.
  - rewrite Nat.add_0_r. eapply session_step_decode; eauto.
  - eapply session_step_display; eauto.
Qed.

Lemma session_run k tr : forall st st',
  session_inv st -> forallb session_event tr = true ->
  run_events k tr st = Some st' ->
  session_inv st' /\
  count any_display (session (log (dec st'))) =
    count any_display (session (log (dec st))) + count_events is_display_event tr.
Proof.
  induction tr as [|e tr IH]; intros st st' Hi He H; simpl in *.
  - simplify_eq. split; [exact Hi|lia].
  - apply andb_true_iff in He as [He1 He2].
    destruct (exec k e st) as [st1|] eqn:E; [|discriminate].
    destruct (session_inv_step k e st st1 Hi He1 E) as [Hi1 Hc1].
    destruct (IH st1 st' Hi1 He2 H) as [Hi' Hc']. split; [exact Hi'|]. lia.
Qed.

Lemma run_events_app k tr1 : forall tr2 st,
  run_events k (tr1 ++ tr2) st =
  match run_events k tr1 st with Some st1 => run_events k tr2 st1 | None => None end.
Proof.
  induction tr1 as [|e tr1 IH]; intros tr2 st; simpl; [reflexivity|].
  destruct (exec k e st); [apply IH | reflexivity].
Qed.

Lemma run_events_cons k e tr st :
  run_events k (e :: tr) st =
  match exec k e st with Some st1 => run_events k tr st1 | None => None end.
Proof. reflexivity. Qed.

(** A converter turn goes through when a surface, a defined buffer and a key
    are waiting. *)
Lemma ConvertThread_iter_progress s d bq' arr fq' key fo' rq :
  run_ s = true ->
  buffer_queue_ s = Some (mkQueue (d :: bq') false) ->
  frame_queue_ s = Some (mkQueue (arr :: fq') false) ->
  defined arr = true ->
  frame_order_ s = Some (mkQueue (key :: fo') false) ->
  reorder_queue_ s = Some (mkQueue rq false) ->
  slot_ok (permits_ s) (picture_index d) ->
  exists s', ConvertThread_iter s = (Ret true, s').
Proof.
  intros Hr Hb Hf Hd Ho Hq (Hidx & pq & Hp). open_state s.
  apply Z.leb_le in Hidx.
  unfold ConvertThread_iter, reconcile. unfold_m. simpl.
  unfold bq_Pop. simpl. rewrite Hd. simpl.
  destruct (key =? timestamp d)%Z; simpl; rewrite ?lookup_insert_eq; simpl;
    rewrite Hidx, Hp; simpl; eexists; reflexivity.
Qed.

(** The converter can take one turn for each ready surface. *)
Lemma drain_convert k n : forall st,
  session_inv st ->
  length (contents (buffer_queue_ (dec st))) = n ->
  n <= length (contents (frame_order_ (dec st))) ->
  Forall (fun a => defined a = true) (take n (contents (frame_queue_ (dec st)))) ->
  exists st',
    run_events k (replicate n ConvertTurn) st = Some st' /\
    session_inv st' /\
    contents (buffer_queue_ (dec st')) = [] /\
    popped st' = popped st /\ pushed st' = pushed st /\
    draining_ (dec st') = draining_ (dec st).
Proof.
  induction n as [|n IH]; intros st Hi Hn Hfo Hdef.
  - exists st. simpl. split; [reflexivity|]. split; [exact Hi|]. split; [|auto].
    destruct (contents _); [reflexivity|discriminate].
  - pose proof Hi as Hi0. open_inv Hi.
    destruct (live_Some _ Hlb) as [bq Hbq]. destruct (live_Some _ Hlf) as [fq Hfq].
    destruct (live_Some _ Hlo) as [fo Hfo']. destruct (live_Some _ Hlr) as [rq Hrq].
    rewrite Hbq, Hfq, Hfo', Hrq in *. cbn [contents items length take] in *.
    destruct bq as [|d bq']; [discriminate|].
    destruct fo as [|key fo']; [simpl in Hfo; lia|].
    destruct fq as [|arr fq']; [simpl in Hkeys; lia|].
    simpl in Hdef. apply Forall_cons in Hdef as [Hd Hdef].
    apply Forall_cons in Hbs as [Hslot _].
    destruct (ConvertThread_iter_progress _ _ _ _ _ _ _ _ Hrun Hbq Hfq Hd Hfo' Hrq Hslot) as [s1 E].
    set (st1 := mkSys s1 (pc st) (pushed st) (popped st)).
    assert (Ex : exec k ConvertTurn st = Some st1).
    { unfold exec, thread_turn. rewrite Hconv, E. destruct (pc st); reflexivity. }
    destruct (session_step_convert k st st1 Hi0 Ex) as [Hi1 _].
    assert (Hl1 : live (buffer_queue_ (dec st)) = true) by (rewrite Hbq; reflexivity).
    assert (Hl2 : live (frame_queue_ (dec st)) = true) by (rewrite Hfq; reflexivity).
    assert (Hl3 : live (frame_order_ (dec st)) = true) by (rewrite Hfo'; reflexivity).
    assert (Hl4 : live (reorder_queue_ (dec st)) = true) by (rewrite Hrq; reflexivity).
    destruct (ConvertThread_iter_good _ _ _ Hrun Hl1 Hl2 Hl3 Hl4 E)
      as (d0 & bq0 & arr0 & fq0 & key0 & fo0 & pq & Hb & Hf & Ho & _ & _ & _ &
          Hb' & Hf' & Ho' & _ & _ & _ & _ & _ & _ & _ & Hd').
    rewrite Hbq in Hb. rewrite Hfq in Hf. rewrite Hfo' in Ho. simpl in Hb, Hf, Ho. simplify_eq.
    destruct (IH st1) as (st' & Hrun' & Hi' & He' & Hpo' & Hpu' & Hdr').
    + exact Hi1.
    + simpl. rewrite Hb'. simpl. simpl in Hn. lia.
    + simpl. rewrite Ho'. simpl. simpl in Hfo. lia.
    + simpl. rewrite Hf'. simpl. exact Hdef.
    + exists st'. change (replicate (S n) ConvertTurn) with (ConvertTurn :: replicate n ConvertTurn).
      rewrite run_events_cons, Ex. split; [exact Hrun'|]. split; [exact Hi'|].
      split; [exact He'|]. split; [exact Hpo'|]. split; [exact Hpu'|].
      rewrite Hdr'. simpl. exact Hd'.
Qed.

(** [Pop] can then be called once for each frame of the output queue. *)
Lemma drain_pop k n : forall st,
  session_inv st ->
  length (contents (reorder_queue_ (dec st))) = n ->
  exists st',
    run_events k (replicate n CallPop) st = Some st' /\
    session_inv st' /\
    popped st' = popped st ++ contents (reorder_queue_ (dec st)) /\
    contents (reorder_queue_ (dec st')) = [] /\
    pushed st' = pushed st.
Proof.
  induction n as [|n IH]; intros st Hi Hn.
  - exists st. simpl. destruct (contents _) eqn:E; [|discriminate].
    rewrite app_nil_r. auto.
  - pose proof Hi as Hi0. open_inv Hi.
    destruct (live_Some _ Hlr) as [rq Hrq]. rewrite Hrq in *. cbn [contents items length] in *.
    destruct rq as [|x rest]; [discriminate|].
    assert (HP := Pop_frame (dec st) _ x rest Hrq eq_refl eq_refl).
    match type of HP with _ -> _ = (_, ?x) => set (s1 := x) in * end.
    assert (HP' : Pop (dec st) = (Ret (Some x), s1)).
    { apply HP. left. rewrite Hcnt. simpl. lia. }
    set (st1 := mkSys s1 Idle (pushed st) (popped st ++ [x])).
    assert (Ex : exec k CallPop st = Some st1).
    { unfold exec. rewrite Hpc, HP'. reflexivity. }
    destruct (session_step_pop k st st1 Hi0 Ex) as [Hi1 _].
    destruct (IH st1 Hi1) as (st' & Hrun' & Hi' & Hpo' & He' & Hpu').
    + simpl. simpl in Hn. lia.
    + exists st'. change (replicate (S n) CallPop) with (CallPop :: replicate n CallPop).
      rewrite run_events_cons, Ex. split; [exact Hrun'|]. split; [exact Hi'|].
      split; [|auto]. rewrite Hpo'. simpl. rewrite <- app_assoc. reflexivity.
Qed.

Lemma submission_snd pkts : forall bufs,
  length pkts = length bufs -> map snd (submission pkts bufs) = map Some bufs.
Proof.
  unfold submission. induction pkts as [|p pkts IH]; intros [|b bufs] H; simpl in *; try discriminate; auto.
  f_equal. apply IH. lia.
Qed.

Lemma submission_no_eos pkts : forall bufs, n_eos (submission pkts bufs) = 0.
Proof.
  unfold submission. induction pkts as [|p pkts IH]; intros [|b bufs]; simpl; auto.
Qed.

Lemma nonempty_snoc {A} (l : list A) : l <> [] -> exists l' x, l = l' ++ [x].
Proof.
  induction l as [|a l IH] using rev_ind; [congruence|]. eauto.
Qed.

Lemma forallb_replicate (P : event -> bool) n e :
  P e = true -> forallb P (replicate n e) = true.
Proof. intros H. induction n; simpl; [reflexivity|]. rewrite H, IHn. reflexivity. Qed.

Lemma count_events_replicate P n e :
  P e = false -> count_events P (replicate n e) = 0.
Proof. intros H. induction n; simpl; [reflexivity|]. rewrite H, IHn. reflexivity. Qed.

(** ** The converter emits what it converts *)

(** A converter turn that goes through pushes the array it took from the frame
    queue. *)
Lemma ConvertThread_iter_emits s b s' :
  ConvertThread_iter s = (Ret b, s') ->
  if b then exists arr rest,
         contents (frame_queue_ s) = arr :: rest /\ ready s' = ready s ++ [arr]
  else ready s' = ready s.
Proof.
  intros H. open_state s. unfold ready. brute H.
  all: rewrite ?lookup_insert_eq in *; simplify_eq.
  all: try reflexivity.
  all: eexists _, _; split; [eassumption|reflexivity].
Qed.

(** ** The pipeline, one blocking call at a time *)

(** The four steps of the converter, in a row, are a turn of its loop. *)
Lemma ConvertThread_iter_stepwise s : ConvertThread_steps s = ConvertThread_iter s.
Proof.
  open_state s. unfold ConvertThread_steps, ConvertThread_step, ConvertThread_iter.
  unfold bind, load, ret. simpl. destruct r; simpl; [|reflexivity].
  unfold q_Pop, deref, bind, load, ret, fatal, store, blocks. simpl.
  destruct bq as [[[|d0 bi] [|]]|]; simpl; try reflexivity.
  destruct fq as [[[|a0 fi] [|]]|]; simpl; try reflexivity.
  all: unfold CHECK; simpl; try reflexivity.
  destruct a0 as [a0|]; simpl; [|reflexivity].
  unfold emit. simpl.
  destruct fo as [[[|k0 oi] [|]]|]; simpl; try reflexivity.
  destruct (reconcile k0 (timestamp d0) (Some a0) _) as [[[]| |] s1] eqn:E; simpl; try reflexivity.
  destruct (permit_at (picture_index d0) s1) as [[q| |] s2]; simpl; try reflexivity.
Qed.

(** [Stop] and [Clear] are [Stop_signal] followed by the stages the caller
    goes through in [step]. *)
Lemma Stop_stagewise s :
  Stop s =
    (entered <- Stop_signal ;;
     (if entered then Stop_kill else ret tt) ;;
     join_if_joinable m_launcher_t ;;
     join_if_joinable m_converter_t) s.
Proof.
  open_state s. unfold Stop, Stop_finish, Stop_kill, Stop_signal. unfold bind, load, ret. simpl.
  destruct r; simpl; [|reflexivity].
  unfold q_SignalForKill, deref, bind, load, store, ret, fatal. simpl.
  destruct pq; simpl; [|reflexivity].
  destruct fq; simpl; [|reflexivity].
  destruct bq; simpl; [|reflexivity].
  destruct rq; simpl; [|reflexivity].
  destruct fo; simpl; reflexivity.
Qed.

(** ** Counting pictures and slots *)

Lemma pictures_app l1 l2 : pictures (l1 ++ l2) = pictures l1 + pictures l2.
Proof. induction l1 as [|[x|] l1 IH]; simpl; lia. Qed.

Lemma count_index_app slot l1 l2 :
  count_index slot (l1 ++ l2) = count_index slot l1 + count_index slot l2.
Proof. induction l1; simpl; lia. Qed.

Lemma take_slot_count slot l rest :
  take_slot slot l = Some rest ->
  length l = S (length rest) /\
  (forall i, count_index i l = count_index i rest + (if (slot =? i)%Z then 1 else 0)) /\
  forall P : Z -> Prop, Forall P l -> P slot /\ Forall P rest.
Proof.
  revert rest. induction l as [|x l IH]; intros rest H; simpl in H; [discriminate|].
  destruct (Z.eqb_spec x slot) as [->|Hne].
  - simplify_eq. split; [reflexivity|]. split.
    + intros i. simpl. rewrite (Z.eqb_sym slot i). destruct (i =? slot)%Z; lia.
    + intros P HP. apply Forall_cons in HP. exact HP.
  - destruct (take_slot slot l) as [r|] eqn:E; [|discriminate]. simpl in H. simplify_eq.
    destruct (IH r eq_refl) as (H1 & H2 & H3). split; [simpl; lia|]. split.
    + intros i. simpl. rewrite (H2 i). lia.
    + intros P HP. apply Forall_cons in HP as [Hx HP]. destruct (H3 P HP) as [Hs Hr].
      split; [exact Hs|]. constructor; assumption.
Qed.

Lemma take_slot_head slot rest : take_slot slot (slot :: rest) = Some rest.
Proof. simpl. rewrite Z.eqb_refl. reflexivity. Qed.



Lemma defined_buffers_prefix l1 l2 : defined_buffers (l1 ++ l2) -> defined_buffers l1.
Proof.
  intros H i x Hx Hi. apply (H i x).
  - rewrite lookup_app_l; [exact Hx|]. eapply lookup_lt_Some, Hx.
  - unfold payloads in *. rewrite !map_app, pictures_app. lia.
Qed.

Ltac open_process p := destruct p as [?s ?cl ?la ?cv ?req ?aw ?pu ?po ?ab]; simpl in *.

Ltac open_sw Hi :=
  destruct Hi as [Hcl Hal Hrun (Hjl & Hjc & Hla & Hcv) (Hlp & Hlf & Hlb & Hlr & Hlo)
                  (Hpl & Hpv) Hmap Hord Hkeys Hcnt Hdrain Hpar Hreq Hpic Hsl (Hra & Hrb) Hpf].

Ltac open_fine p Hi :=
  open_sw Hi; open_process p; subst;
  repeat match goal with
  | H : live (pkt_queue_ _) = true |- _ => apply live_Some in H as [ipq H]
  | H : live (frame_queue_ _) = true |- _ => apply live_Some in H as [ifq H]
  | H : live (buffer_queue_ _) = true |- _ => apply live_Some in H as [ibq H]
  | H : live (reorder_queue_ _) = true |- _ => apply live_Some in H as [irq H]
  | H : live (frame_order_ _) = true |- _ => apply live_Some in H as [ifo H]
  end;
  match goal with s : CUThreadedDecoder |- _ => open_state s end;
  simpl in *.

Ltac unfold_step H :=
  unfold step, after_call, after_turn, spawned in H; simpl in H.

Lemma parsed_app l1 l2 : parsed (l1 ++ l2) = parsed l1 ++ parsed l2.
Proof.
  induction l1 as [|o l1 IH]; simpl; [reflexivity|].
  destruct o; simpl; rewrite ?IH; reflexivity.
Qed.

Lemma live_permit_lookup k ps slot :
  length ps = k -> Forall live_permit ps -> surface_index k slot ->
  exists its, ps !! Z.to_nat slot = Some (Some (mkQueue its false)) /\
    (0 <=? slot)%Z = true /\ (slot <? Z.of_nat (length ps))%Z = true.
Proof.
  intros Hl Hv [H0 H1].
  destruct (lookup_lt_is_Some_2 ps (Z.to_nat slot)) as [o Ho]; [lia|].
  pose proof (Forall_lookup_1 _ _ _ _ Hv Ho) as ([its kl] & -> & Hk). simpl in Hk. subst kl.
  exists its. split; [exact Ho|]. split; [apply Z.leb_le; lia | apply Z.ltb_lt; lia].
Qed.

Lemma live_permit_insert ps i its :
  Forall live_permit ps -> Forall live_permit (<[i := Some (mkQueue its false)]> ps).
Proof.
  intros H. destruct (decide (i < length ps)) as [Hlt|Hge].
  - apply Forall_insert; [exact H|]. eexists. split; reflexivity.
  - rewrite list_insert_ge by lia. exact H.
Qed.

(** The buffer the converter takes next belongs to a packet with a payload:
    it is defined. *)
Lemma taken_defined pu pre a rest :
  defined_buffers pu -> map snd pu = pre ++ a :: rest ->
  length pre < payloads pu -> defined a = true.
Proof.
  intros Hpf Hm Hlt.
  assert (Hlk : map snd pu !! length pre = Some a).
  { rewrite Hm. rewrite lookup_app_r by lia. rewrite Nat.sub_diag. reflexivity. }
  rewrite list_lookup_fmap in Hlk.
  destruct (pu !! length pre) as [x|] eqn:E; [|discriminate]. simpl in Hlk. simplify_eq.
  apply (Hpf _ _ E Hlt).
Qed.

Lemma parsed_payloads lg its pu :
  parsed lg ++ map forwarded its = map forwarded (map fst pu) ->
  pictures (parsed lg) + pictures (map forwarded its) = payloads pu.
Proof. intros H. unfold payloads. rewrite <- H, pictures_app. reflexivity. Qed.

Ltac fine_tac :=
  rewrite ?map_app, ?length_app, ?n_eos_app, ?count_slot_app, ?count_index_app,
    ?pictures_app, ?parsed_app;
  simpl; rewrite ?Nat.add_0_r, ?app_nil_r;
  first [ reflexivity | assumption | lia | congruence
        | match goal with H : map snd _ = _ |- _ => rewrite H end;
          rewrite <- ?app_assoc; simpl; reflexivity
        | match goal with H : _ ++ map forwarded _ = _ |- _ => rewrite <- H end;
          rewrite ?map_app, <- ?app_assoc; simpl; reflexivity
        | destruct (n_eos _); simpl; reflexivity
        | eauto ].

Lemma sw_push k pkt buf p p' :
  stepwise_inv k p -> step k (CallPush pkt buf) p = Some p' ->
  defined_buffers (pushes p') -> stepwise_inv k p'.
Proof.
  intros Hi H Hpf'. open_fine p Hi. unfold_step H. unfold ready, keys in *.
  destruct pkt as [pk|]; brute H.
  all: constructor; simpl; unfold ready, keys; simpl; auto.
  all: try solve [fine_tac].
  all: try solve [rewrite ?map_app, ?length_app, ?n_eos_app; simpl; lia].
Qed.

Lemma sw_pop k p p' :
  stepwise_inv k p -> step k CallPop p = Some p' ->
  stepwise_inv k p' /\ pushes p' = pushes p /\ work p' = work p /\
  (pops p' = pops p \/
   exists frame rest, ready (this p) = frame :: rest /\ pops p' = pops p ++ [frame]).
Proof.
  intros Hi H. open_fine p Hi. unfold_step H. unfold ready, keys, work in *.
  brute H.
  all: split; [|split; [reflexivity|split; [reflexivity|]]].
  all: try (left; reflexivity).
  all: try (right; eexists _, _; split; reflexivity).
  all: constructor; simpl; unfold ready, keys; simpl; auto.
  all: try solve [fine_tac].
  all: try solve [rewrite ?map_app, ?length_app, ?n_eos_app in *; simpl in *; lia].
Qed.

Lemma sw_launch k p p' :
  stepwise_inv k p -> step k LaunchTurn p = Some p' ->
  stepwise_inv k p' /\ pushes p' = pushes p /\ pops p' = pops p /\
  work p' < work p.
Proof.
  intros Hi H. open_fine p Hi. unfold_step H. unfold ready, keys, work in *.
  brute H.
  all: split; [|split; [reflexivity|split; [reflexivity|]]].
  all: try (simpl; rewrite ?parsed_app, ?pictures_app; simpl; lia).
  all: constructor; simpl; unfold ready, keys; simpl; auto.
  all: try solve [fine_tac].
  all: try solve [rewrite ?parsed_app, ?pictures_app; simpl; lia].
  all: rewrite parsed_app; simpl; rewrite <- Hpar, <- app_assoc; simpl.
  all: try (apply Z.eqb_eq in Heqb; rewrite Heqb).
  all: try (apply Z.eqb_neq in Heqb; rewrite Heqb).
  all: reflexivity.
Qed.

Lemma sw_display k d p p' :
  stepwise_inv k p -> step k (EngineDisplay d) p = Some p' ->
  stepwise_inv k p' /\ pushes p' = pushes p /\ pops p' = pops p /\
  work p' < work p.
Proof.
  intros Hi H. open_fine p Hi. unfold_step H. unfold ready, keys, work in *.
  destruct (take_slot (picture_index d) aw) as [rest|] eqn:E; [|discriminate].
  destruct (take_slot_count _ _ _ E) as (Hlen & Hcnt' & HP).
  destruct (HP _ Hra) as [Hd Hra'].
  brute H.
  split; [|split; [reflexivity|split; [reflexivity|]]];
    [|simpl; rewrite parsed_app, length_app; simpl; rewrite app_nil_r; lia].
  constructor; simpl; unfold ready, keys; simpl; auto.
  all: try solve [fine_tac].
  - intros slot Hs. specialize (Hsl slot Hs). rewrite tokens_toks in *. unfold inbuf in *. simpl in *.
    rewrite count_slot_app. simpl. rewrite (Hcnt' slot) in Hsl.
    rewrite (Z.eqb_sym (picture_index d) slot) in *. lia.
  - split; [exact Hra'|]. rewrite <- app_assoc. apply Forall_app. apply Forall_app in Hrb as [H1 H2].
    split; [exact H1|]. constructor; assumption.
Qed.

Lemma sw_decode k idx p p' :
  stepwise_inv k p -> step k (EngineDecode idx) p = Some p' ->
  stepwise_inv k p' /\ pushes p' = pushes p /\ pops p' = pops p /\
  work p' < work p.
Proof.
  intros Hi H. open_fine p Hi. unfold_step H. unfold ready, keys, work in *.
  destruct (_ <? pictures _) eqn:Ereq; [|discriminate]. simpl in H.
  destruct (0 <=? idx)%Z eqn:E0; [|discriminate]. simpl in H.
  destruct (idx <? Z.of_nat (length ps))%Z eqn:E1; [|discriminate].
  assert (Hs : surface_index (length ps) idx).
  { apply Z.leb_le in E0. apply Z.ltb_lt in E1. split; assumption. }
  destruct (live_permit_lookup _ ps idx eq_refl Hpv Hs) as (its & Hq & _ & _).
  pose proof (Hsl idx Hs) as Hidx. rewrite tokens_toks in Hidx. unfold toks in Hidx. simpl in Hidx.
  rewrite E0, Hq in Hidx. unfold bq_Size in Hidx. simpl in Hidx.
  unfold HandlePictureDecode_, permit_at in H. unfold_m in H. simpl in H.
  rewrite E0 in H. simpl in H. rewrite E1 in H. simpl in H. rewrite Hq in H. simpl in H.
  unfold bq_Size, bq_Pop in H. simpl in H.
  destruct its as [|tok [|tok' its]]; simpl in H; [discriminate| |simpl in Hidx; lia].
  simplify_eq. simpl in *. apply Nat.ltb_lt in Ereq.
  split; [|split; [reflexivity|split; [reflexivity|]]];
    [|simpl; rewrite !parsed_app, !pictures_app, length_app; simpl; lia].
  constructor; simpl; unfold ready, keys; simpl; auto.
  all: try solve [fine_tac].
  - split; [apply length_insert|]. apply live_permit_insert. exact Hpv.
  - intros slot Hs'. specialize (Hsl slot Hs').
    rewrite tokens_toks in *. unfold inbuf in *. simpl in *.
    rewrite (toks_insert ps idx _ _ slot ltac:(apply Z.leb_le in E0; lia) Hq).
    rewrite count_index_app. simpl. rewrite (Z.eqb_sym idx slot).
    destruct (Z.eqb_spec slot idx) as [->|Hne].
    + unfold bq_Size. simpl. unfold toks in Hsl. rewrite E0, Hq in Hsl. unfold bq_Size in Hsl. simpl in Hsl. lia.
    + lia.
  - split; [|exact Hrb]. apply Forall_app. split; [exact Hra|].
    constructor; [exact Hs|constructor].
Qed.

Lemma sw_convert k p p' :
  stepwise_inv k p -> step k ConvertTurn p = Some p' ->
  stepwise_inv k p' /\ pushes p' = pushes p /\ pops p' = pops p /\
  work p' < work p.
Proof.
  intros Hi H. open_fine p Hi. unfold_step H. unfold ready, keys, work in *.
  destruct cv as [|d|d arr|d|]; [| | | |congruence]; simpl in *.
  - (* the descriptor *)
    brute H.
    split; [|split; [reflexivity|split; [reflexivity|simpl; lia]]].
    constructor; simpl; unfold ready, keys; simpl; auto.
    all: try solve [fine_tac].
    + intros slot Hs. specialize (Hsl slot Hs). rewrite tokens_toks in *. unfold inbuf in *.
      simpl in *. lia.
    + split; [exact Hra|]. apply Forall_cons in Hrb as [H1 H2]. rewrite app_nil_r in H2.
      apply Forall_app. split; [exact H2|]. constructor; [exact H1|constructor].
  - (* the buffer *)
    pose proof (parsed_payloads _ _ _ Hpar) as Hpp.
    destruct ifq as [|a rest].
    { brute H. }
    assert (Hdef : defined a = true).
    { apply (taken_defined pu (po ++ irq) a rest Hpf).
      - rewrite Hord. simpl. rewrite <- app_assoc. reflexivity.
      - rewrite length_app. simpl in Hreq. lia. }
    unfold ConvertThread_step in H. unfold_m in H. simpl in H. unfold bq_Pop in H. simpl in H.
    rewrite Hdef in H. simpl in H. simplify_eq.
    split; [|split; [reflexivity|split; [reflexivity|simpl; rewrite parsed_app; simpl; rewrite app_nil_r; lia]]].
    constructor; simpl; unfold ready, keys; simpl; auto.
    all: try solve [fine_tac].
    all: try solve [rewrite ?parsed_app; simpl; rewrite ?app_nil_r; simpl in *; lia].
  - (* the key *)
    pose proof (parsed_payloads _ _ _ Hpar) as Hpp.
    destruct ifo as [|key rest].
    { brute H. }
    unfold ConvertThread_step, reconcile in H. unfold_m in H. simpl in H. unfold bq_Pop, bq_Push in H. simpl in H.
    destruct (key =? timestamp d)%Z; simpl in H; rewrite ?lookup_insert_eq in H; simpl in H; simplify_eq.
    all: split; [|split; [reflexivity|split; [reflexivity|simpl; lia]]].
    all: constructor; simpl; unfold ready, keys; simpl; auto.
    all: try solve [fine_tac].
    all: try congruence.
    all: try apply delete_insert_empty.
    all: try (rewrite Hord; simpl; rewrite <- ?app_assoc; reflexivity).
    all: try (rewrite ?length_app in *; simpl in *; lia).
  - (* the permit *)
    apply Forall_app in Hrb as [Hrb1 Hrb2]. pose proof Hrb2 as Hrb2'.
    apply Forall_cons in Hrb2' as [Hd _].
    destruct (live_permit_lookup _ ps _ eq_refl Hpv Hd) as (its & Hq & E0 & _).
    unfold ConvertThread_step, permit_at in H. unfold_m in H. simpl in H.
    rewrite E0, Hq in H. simpl in H. unfold bq_Push in H. simpl in H. simplify_eq.
    split; [|split; [reflexivity|split; [reflexivity|simpl; rewrite parsed_app; simpl; rewrite app_nil_r; lia]]].
    constructor; simpl; unfold ready, keys; simpl; auto.
    all: try solve [fine_tac].
    + split; [apply length_insert|]. apply live_permit_insert. exact Hpv.
    + intros slot Hs'. specialize (Hsl slot Hs').
      rewrite tokens_toks in *. unfold inbuf in *. simpl in *.
      rewrite (toks_insert ps (picture_index d) _ _ slot ltac:(apply Z.leb_le in E0; lia) Hq).
      rewrite (Z.eqb_sym (picture_index d) slot) in Hsl. revert Hsl.
      destruct (Z.eqb_spec slot (picture_index d)) as [->|Hne]; intros Hsl.
      * unfold bq_Size. simpl. unfold toks in Hsl. rewrite E0, Hq in Hsl. unfold bq_Size in Hsl.
        simpl in Hsl. rewrite length_app. simpl. lia.
      * lia.
Qed.

Lemma defined_buffers_nil : defined_buffers [].
Proof. intros i x H. discriminate H. Qed.

Lemma step_CallStart k p :
  aborted p = false -> caller p = Between ->
  step k CallStart p =
    after_call (Start k (this p)) p (fun _ p' => spawned (this p) p').
Proof. intros Ha Hc. unfold step. rewrite Ha, Hc. reflexivity. Qed.

(** The state a first [Start] leaves. *)
Lemma sw_start k p :
  step k CallStart initial_process = Some p -> stepwise_inv k p.
Proof.
  intros H. rewrite step_CallStart in H by reflexivity.
  change (this initial_process) with constructed in H.
  destruct (Start_fresh k constructed) as
    (s0 & Hs & Hr & Hpq & Hfq & Hbq & Hrq & Hfo & Hp & Hlp & Hd & Hfc & Hrb & Hl & Hc & Hlog);
    [reflexivity..|].
  rewrite Hs in H. unfold after_call, spawned in H. simpl in H.
  rewrite Hl in H. simpl in H. rewrite Hc in H. simpl in H. simplify_eq.
  constructor; simpl; unfold ready, keys; rewrite ?Hpq, ?Hfq, ?Hbq, ?Hrq, ?Hfo, ?Hl, ?Hc, ?Hlog; simpl; auto.
  - rewrite Hp, length_replicate. split; [reflexivity|].
    apply Forall_forall. intros x Hx. apply elem_of_replicate in Hx as [-> _].
    eexists. split; reflexivity.
  - intros slot [H0 H1]. rewrite tokens_toks, Hp. unfold toks, inbuf. rewrite Hbq. simpl.
    assert ((0 <=? slot)%Z = true) as -> by (apply Z.leb_le; lia).
    rewrite lookup_replicate_2 by lia. reflexivity.
  - apply defined_buffers_nil.
Qed.

(** Each event of a session keeps [stepwise_inv]; a step of a thread or a
    callback leaves less work. *)
Lemma sw_step k e p p' :
  stepwise_inv k p -> session_event e = true -> step k e p = Some p' ->
  defined_buffers (pushes p') ->
  stepwise_inv k p' /\
  (internal_event e = true -> work p' < work p) /\
  (draining_event e = true -> pushes p' = pushes p) /\
  (internal_event e = true -> pops p' = pops p).
Proof.
  intros Hi He H Hpf. destruct e; try discriminate He; simpl.
  - split; [eapply sw_push; eauto|]. split; [discriminate|]. split; discriminate.
  - destruct (sw_pop k p p' Hi H) as (H1 & H2 & _). split; [exact H1|].
    split; [discriminate|]. split; [intros _; exact H2|discriminate].
  - destruct (sw_launch k p p' Hi H) as (H1 & H2 & H3 & H4). split; [exact H1|].
    split; [intros _; exact H4|]. split; intros _; assumption.
  - destruct (sw_convert k p p' Hi H) as (H1 & H2 & H3 & H4). split; [exact H1|].
    split; [intros _; exact H4|]. split; intros _; assumption.
  - destruct (sw_decode k _ p p' Hi H) as (H1 & H2 & H3 & H4). split; [exact H1|].
    split; [intros _; exact H4|]. split; intros _; assumption.
  - destruct (sw_display k _ p p' Hi H) as (H1 & H2 & H3 & H4). split; [exact H1|].
    split; [intros _; exact H4|]. split; intros _; assumption.
Qed.

Lemma run_steps_app k tr1 : forall tr2 p,
  run_steps k (tr1 ++ tr2) p =
  match run_steps k tr1 p with Some p1 => run_steps k tr2 p1 | None => None end.
Proof.
  induction tr1 as [|e tr1 IH]; intros tr2 p; simpl; [reflexivity|].
  destruct (step k e p); [apply IH | reflexivity].
Qed.

Lemma run_steps_cons k e tr p :
  run_steps k (e :: tr) p =
  match step k e p with Some p1 => run_steps k tr p1 | None => None end.
Proof. reflexivity. Qed.

Lemma after_call_some {A} (r : outcome A * CUThreadedDecoder) p next p' :
  after_call r p next = Some p' ->
  (exists a s', r = (Ret a, s') /\ p' = next a (set_this s' p)) \/
  (exists s', p' = set_this s' p) \/ (exists s', p' = abort (set_this s' p)).
Proof.
  unfold after_call. destruct r as [[a|[]|] s']; intros H; simplify_eq; eauto 6.
Qed.

Lemma after_turn_some {A} (r : outcome A * CUThreadedDecoder) p next p' :
  after_turn r p next = Some p' ->
  (exists a s', r = (Ret a, s') /\ p' = next a (set_this s' p)) \/
  (exists s', p' = abort (set_this s' p)).
Proof.
  unfold after_turn. destruct r as [[a|e|] s']; intros H; simplify_eq; eauto 6.
Qed.

Ltac split_step H e p :=
  unfold step in H;
  destruct (aborted p) eqn:?; [discriminate H|];
  destruct e, (caller p) eqn:?; try discriminate H;
  repeat match type of H with
  | (if ?c then _ else _) = _ => destruct c eqn:?; try discriminate H
  | match take_slot ?a ?b with _ => _ end = _ =>
      destruct (take_slot a b) eqn:?; try discriminate H
  end;
  first [ apply after_call_some in H as [(?a & ?s' & ?Hr & ->)|[(?s' & ->)|(?s' & ->)]]
        | apply after_turn_some in H as [(?a & ?s' & ?Hr & ->)|(?s' & ->)] ].

(** The submissions only grow. *)
Lemma step_pushes k e p p' :
  step k e p = Some p' -> exists l, pushes p' = pushes p ++ l.
Proof.
  intros H. split_step H e p.
  all: try (exists []; rewrite app_nil_r; unfold spawned;
            repeat match goal with |- context [if ?c then _ else _] => destruct c end;
            try destruct a; reflexivity).
  all: eexists; reflexivity.
Qed.

Lemma run_steps_pushes k tr : forall p p',
  run_steps k tr p = Some p' -> exists l, pushes p' = pushes p ++ l.
Proof.
  induction tr as [|e tr IH]; intros p p' H; simpl in H.
  - simplify_eq. exists []. rewrite app_nil_r. reflexivity.
  - destruct (step k e p) as [p1|] eqn:E; [|discriminate].
    destruct (step_pushes k e p p1 E) as [l1 H1]. destruct (IH p1 p' H) as [l2 H2].
    exists (l1 ++ l2). rewrite H2, H1, app_assoc. reflexivity.
Qed.

(** A session keeps [stepwise_inv], as long as the submissions with a
    payload come first. *)
Lemma sw_session k tr : forall p p',
  stepwise_inv k p -> forallb session_event tr = true ->
  run_steps k tr p = Some p' -> defined_buffers (pushes p') ->
  stepwise_inv k p'.
Proof.
  induction tr as [|e tr IH]; intros p p' Hi He H Hpf; simpl in *.
  - simplify_eq. exact Hi.
  - apply andb_true_iff in He as [He1 He2].
    destruct (step k e p) as [p1|] eqn:E; [|discriminate].
    destruct (run_steps_pushes k tr p1 p' H) as [l Hl].
    assert (Hpf1 : defined_buffers (pushes p1)).
    { eapply defined_buffers_prefix. rewrite <- Hl. exact Hpf. }
    destruct (sw_step k e p p1 Hi He1 E Hpf1) as [Hi1 _].
    eapply IH; eauto.
Qed.


Ltac splits := repeat match goal with |- _ /\ _ => split end.







(** ** A submission of [N] packets and the end-of-stream marker *)





(** A first session: [Start] on the constructed object, then the caller
    pushes and pops while the threads and the engine run. *)
Lemma sw_first_session k tr p :
  forallb session_event tr = true ->
  run_steps k (CallStart :: tr) initial_process = Some p ->
  defined_buffers (pushes p) -> stepwise_inv k p.
Proof.
  intros He H Hpf. rewrite run_steps_cons in H.
  destruct (step k CallStart initial_process) as [p0|] eqn:E0; [|discriminate].
  eapply sw_session; eauto. apply sw_start. exact E0.
Qed.

(** * The claims *)



(** C2.  Whenever the converter reconciles a surface whose timestamp
    differs from the expected key, the converted array is stored in the
    Reorder Map under the surface timestamp, the lookup of that key finds
    it, it is pushed to the output queue and the entry is erased, which
    leaves an empty map empty.  In every reachable state the Reorder Map is
    empty, every converter turn leaves it empty, and a turn that goes
    through appends the array it took from the head of the frame queue to
    the output queue. *)
Theorem reorder_map_inert k st :
  reachable k st ->
  reorder_buffer_ (dec st) = ∅ /\
  (forall s q desired_pts frame_pts arr,
     reorder_queue_ s = Some q -> desired_pts <> frame_pts ->
     (<[frame_pts := arr]> (reorder_buffer_ s)) !! frame_pts = Some arr /\
     reconcile desired_pts frame_pts arr s =
       (Ret tt,
        mset m_reorder_buffer
          (delete frame_pts (<[frame_pts := arr]> (reorder_buffer_ s)))
          (mset m_reorder_queue (Some (bq_Push arr q)) s)) /\
     (reorder_buffer_ s = ∅ ->
      delete frame_pts (<[frame_pts := arr]> (reorder_buffer_ s)) = ∅)) /\
  (forall b s',
     ConvertThread_iter (dec st) = (Ret b, s') ->
     reorder_buffer_ s' = ∅ /\
     if b then exists arr rest,
            contents (frame_queue_ (dec st)) = arr :: rest /\
            ready s' = ready (dec st) ++ [arr]
     else ready s' = ready (dec st)).
Proof.
  intros Hr. pose proof (reachable_inv k st Hr) as Hi.
  pose proof (pi_map _ _ Hi) as Hm. split; [exact Hm|]. split.
  - intros s q desired_pts frame_pts arr Hq Hne.
    destruct (reconcile_mismatch s q desired_pts frame_pts arr Hq Hne) as [H1 H2].
    split; [exact H1|]. split; [exact H2|].
    intros He. rewrite He. apply delete_insert_empty.
  - intros b s' H. split.
    + apply (ConvertThread_iter_view _ _ _ H Hm).
    + apply (ConvertThread_iter_emits _ _ _ H).
Qed.



(** C4, amended.  From a fresh decoder that has been started, the first
    packet's timestamp seeds the cursor and is the first key; each later
    packet advances the cursor by its duration and gets the advanced cursor
    as its key, so that key [j] is the first timestamp plus the durations of
    the packets 2 to [j], provided that every packet after the first finds a
    cursor that is not negative and that the sums stay within [int64_t]. *)
Theorem expected_keys_cursor k p0 b0 l :
  cursor_valid (pts p0) (map fst l) ->
  exists s0 s',
    Start k constructed = (Ret tt, s0) /\
    push_all (data ((p0, b0) :: l)) s0 = (Ret tt, s') /\
    last_pts_ (snd (Push (Some p0) b0 s0)) = pts p0 /\
    keys s' = pts p0 :: cursor_seq (pts p0) (map fst l) /\
    forall j, j <= length l ->
      keys s' !! j = Some (pts p0 + sum_durations (take j (map fst l)))%Z.
Proof. apply expected_keys_from_fresh. Qed.

(** C4 as stated fails: a first packet without a timestamp leaves the
    cursor negative, and the second packet seeds the cursor again with its
    own timestamp instead of advancing it. *)
Lemma expected_keys_reseed_counterexample :
  let p0 := mkPacket AV_NOPTS_VALUE 40 1 in
  let p1 := mkPacket 1000 40 1 in
  let s0 := snd (Start 2 constructed) in
  let s' := snd (push_all (data [(p0, Some 1); (p1, Some 2)]) s0) in
  fst (push_all (data [(p0, Some 1); (p1, Some 2)]) s0) = Ret tt /\
  keys s' = [AV_NOPTS_VALUE; 1000%Z] /\
  keys s' <> pts p0 :: cursor_seq (pts p0) [p1].
Proof. vm_compute. repeat split; discriminate. Qed.

(** C5.  [Push] fails its [CHECK] when the pipeline is not running, and when
    an end-of-stream marker is pushed while the pipeline is draining; the
    object is then exactly as it was before the call. *)
Theorem Push_contract pkt buf s :
  run_ s = false \/ (pkt = None /\ draining_ s = true) ->
  Push pkt buf s = (Fatal CheckFailed, s).
Proof. apply Push_rejects. Qed.

(** C6, amended.  [Pop] never waits.  It answers "not found" when the
    frame counter is 0 and the stream is not draining, and whenever the
    output queue is empty, draining or not.  It returns the oldest frame of
    the output queue, and decrements the counter, when that queue is live
    and not empty and the counter is not 0 or the stream is draining. *)
Theorem Pop_nonblocking s :
  fst (Pop s) <> Blocks /\
  (frame_count_ s = 0%Z -> draining_ s = false -> Pop s = (Ret None, s)) /\
  (forall q, reorder_queue_ s = Some q -> items q = [] ->
             Pop s = (Ret None, s)) /\
  (forall q x rest,
     reorder_queue_ s = Some q -> items q = x :: rest -> killed q = false ->
     frame_count_ s <> 0%Z \/ draining_ s = true ->
     Pop s = (Ret (Some x),
              mset m_frame_count (frame_count_ s - 1)%Z
                (mset m_reorder_queue (Some (mkQueue rest false)) s))).
Proof.
  split; [apply Pop_never_blocks|]. split; [apply Pop_idle|].
  split; [apply Pop_empty | apply Pop_frame].
Qed.

(** C6 as stated fails: while draining with nothing converted yet, [Pop]
    answers "not found", where the claim has it return a frame. *)
Lemma Pop_draining_empty_counterexample :
  let s := snd (Push None (Some 9) (snd (Start 2 constructed))) in
  draining_ s = true /\ ready s = [] /\
  Pop s = (Ret None, s) /\
  ~ (exists frame, fst (Pop s) = Ret (Some frame)).
Proof.
  intros s. split; [vm_compute; reflexivity|]. split; [vm_compute; reflexivity|].
  assert (H : Pop s = (Ret None, s)) by (vm_compute; reflexivity).
  split; [exact H|]. rewrite H. intros [frame Hf]. discriminate Hf.
Qed.



(** C8.  [Start] on a running pipeline changes nothing, so spawns no
    thread; [Stop] on a stopped pipeline changes nothing; and whenever
    [Stop] returns, the pipeline is not running and neither thread handle is
    joinable, so that a second [Stop] changes nothing. *)
Theorem Start_Stop_idempotent k s :
  (run_ s = true -> Start k s = (Ret tt, s)) /\
  (run_ s = false -> joinable (launcher_t_ s) = false ->
   joinable (converter_t_ s) = false -> Stop s = (Ret tt, s)) /\
  (forall s', Stop s = (Ret tt, s') ->
     run_ s' = false /\ joinable (launcher_t_ s') = false /\
     joinable (converter_t_ s') = false /\ Stop s' = (Ret tt, s')).
Proof.
  split; [apply Start_running|]. split; [apply Stop_stopped|].
  intros s' H. destruct (Stop_joined s s' H) as (H1 & H2 & H3).
  repeat (split; [assumption|]). apply Stop_stopped; assumption.
Qed.

(** C9.  [Clear] leaves [last_pts_] as it is: when the cursor is not
    negative, [Clear], [Start] and a first [Push] give that packet the key
    [last_pts_ + duration] (in [int64_t] arithmetic), not its own
    timestamp. *)
Theorem Clear_keeps_cursor k s p buf :
  (0 <= last_pts_ s)%Z -> (run_ s = true -> allocated s) ->
  exists s1 s2 s3,
    Clear s = (Ret tt, s1) /\ Start k s1 = (Ret tt, s2) /\
    Push (Some p) buf s2 = (Ret tt, s3) /\
    last_pts_ s1 = last_pts_ s /\ keys s2 = [] /\
    keys s3 = [wrap64 (last_pts_ s + duration p)] /\
    (in_int64 (last_pts_ s + duration p) -> keys s3 = [(last_pts_ s + duration p)%Z]).
Proof. apply stale_cursor. Qed.


(** * The claims on concrete runs *)


Lemma reorder_map_inert_witness :
  reachable 2 example_state /\
  reorder_buffer_ (dec example_state) = ∅ /\
  ready (dec example_state) = [Some 2].
Proof.
  assert (Hr : reachable 2 example_state).
  { exists (CallStart :: example_trace). vm_compute. reflexivity. }
  split; [exact Hr|].
  split; [apply (reorder_map_inert 2 example_state Hr)|].
  vm_compute. reflexivity.
Defined.


Lemma expected_keys_cursor_witness :
  let p := fun t => mkPacket t 100 1 in
  cursor_valid (pts (p 100%Z)) (map fst [(p 200%Z, Some 2); (p 300%Z, Some 3)]) /\
  exists s0 s',
    Start 2 constructed = (Ret tt, s0) /\
    push_all (data [(p 100%Z, Some 1); (p 200%Z, Some 2); (p 300%Z, Some 3)]) s0 = (Ret tt, s') /\
    keys s' = [100; 200; 300]%Z.
Proof.
  intros p.
  assert (Hv : cursor_valid (pts (p 100%Z)) (map fst [(p 200%Z, Some 2); (p 300%Z, Some 3)])).
  { simpl. unfold in_int64. repeat split; lia. }
  split; [exact Hv|].
  destruct (expected_keys_cursor 2 (p 100%Z) (Some 1) [(p 200%Z, Some 2); (p 300%Z, Some 3)] Hv)
    as (s0 & s' & H1 & H2 & _ & H3 & _).
  exists s0, s'. split; [exact H1|]. split; [exact H2|]. exact H3.
Defined.

Lemma Push_contract_witness :
  Push (Some (mkPacket 100 100 1)) (Some 1) constructed = (Fatal CheckFailed, constructed) /\
  let s := snd (Push None (Some 9) (snd (Start 2 constructed))) in
  draining_ s = true /\ Push None (Some 9) s = (Fatal CheckFailed, s).
Proof.
  split.
  - apply Push_contract. left. reflexivity.
  - intros s. split; [vm_compute; reflexivity|]. apply Push_contract. right.
    split; [reflexivity | vm_compute; reflexivity].
Defined.

Lemma Pop_nonblocking_witness :
  Pop constructed = (Ret None, constructed) /\
  let s := snd (Push None (Some 9) (snd (Start 2 constructed))) in
  Pop s = (Ret None, s).
Proof.
  split.
  - apply (Pop_nonblocking constructed); reflexivity.
  - intros s. destruct (Pop_nonblocking s) as (_ & _ & H & _).
    apply (H bq_new); [vm_compute; reflexivity | reflexivity].
Defined.


Lemma Start_Stop_idempotent_witness :
  let s := snd (Start 2 constructed) in
  Start 2 s = (Ret tt, s) /\ Stop constructed = (Ret tt, constructed) /\
  joinable (launcher_t_ (snd (Stop s))) = false /\
  joinable (converter_t_ (snd (Stop s))) = false.
Proof.
  intros s. split; [apply (Start_Stop_idempotent 2 s); vm_compute; reflexivity|].
  split; [apply (Start_Stop_idempotent 2 constructed); vm_compute; reflexivity|].
  destruct (Start_Stop_idempotent 2 s) as (_ & _ & H).
  destruct (H (snd (Stop s))) as (_ & H2 & H3 & _); [vm_compute; reflexivity|].
  split; assumption.
Defined.

Lemma Clear_keeps_cursor_witness :
  let s := snd (Push (Some (mkPacket 100 100 1)) (Some 1) (snd (Start 2 constructed))) in
  (0 <= last_pts_ s)%Z /\
  exists s1 s2 s3,
    Clear s = (Ret tt, s1) /\ Start 2 s1 = (Ret tt, s2) /\
    Push (Some (mkPacket 5000 40 1)) (Some 2) s2 = (Ret tt, s3) /\
    keys s3 = [140%Z].
Proof.
  intros s.
  assert (H0 : (0 <= last_pts_ s)%Z) by (vm_compute; discriminate).
  assert (Ha : run_ s = true -> allocated s).
  { intros _. vm_compute. repeat split; eauto. }
  split; [exact H0|].
  destruct (Clear_keeps_cursor 2 s (mkPacket 5000 40 1) (Some 2) H0 Ha)
    as (s1 & s2 & s3 & H1 & H2 & H3 & _ & _ & H4 & _).
  exists s1, s2, s3. repeat (split; [assumption|]). rewrite H4. reflexivity.
Defined.


(** * Further properties

    Properties of the member functions beyond the claims above: the life
    cycle, the frames handed back, the threads, the callbacks and the
    configuration. *)

(** ** The life cycle, in every reachable state *)

(** The constructed object satisfies [life_inv]; the lemmas below show that
    each call, thread turn and callback keeps it. *)
Lemma life_inv_initial : life_inv initial.
Proof.
  constructor; simpl; auto; try lia; try discriminate.
Qed.

Ltac use_stopped :=
  match goal with
  | Hs : ?P -> ?l = [] |- _ =>
      first [ right; exact Hs
            | right; intros; apply Hs; assumption
            | rewrite Hs by first [assumption | reflexivity]; simpl; lia
            | specialize (Hs eq_refl); first [discriminate Hs | subst; simpl; lia] ]
  end.

Ltac life_goals :=
  constructor; cbn [dec pc pushed popped];
  simpl; unfold ready, allocated; simpl;
  intros; simplify_eq; simpl in *;
  rewrite ?length_app in *; simpl in *;
  try solve [ auto | lia | discriminate | congruence
            | right; repeat split; eauto
            | right; intros; reflexivity
            | right; intros; discriminate
            | left; eauto
            | repeat split; eauto
            | use_stopped ].

Ltac open_life Hi s :=
  destruct Hi as [Hal Hpcr Hins Hidle Hcnt Hrdy Hses Hstp];
  cbn [dec pc pushed popped] in *;
  try specialize (Hpcr ltac:(discriminate));
  try specialize (Hins _ eq_refl);
  try (destruct (Hstp Hpcr) as [[? Hc]|Hs]; [discriminate Hc|]; clear Hstp);
  open_state s; unfold ready, allocated in *; simpl in *;
  destruct Hal as [Hal | (Hq1 & Hq2 & Hq3 & Hq4 & Hq5)];
  [ unfold constructed in Hal; injection Hal; intros; subst; clear Hal
  | destruct Hq1 as [[? ?] ->], Hq2 as [[? ?] ->], Hq3 as [[? ?] ->],
      Hq4 as [[? ?] ->], Hq5 as [[? ?] ->] ];
  simpl in *.

Lemma life_Push pkt buf s o s' pu po pu' po' :
  Push pkt buf s = (o, s') ->
  life_inv (mkSys s Idle pu po) -> life_inv (mkSys s' Idle pu' po').
Proof.
  intros H Hi. open_life Hi s.
  all: brute H.
  all: life_goals.
Qed.

Lemma life_Pop s o s' pu po pu' po' :
  Pop s = (o, s') ->
  life_inv (mkSys s Idle pu po) -> life_inv (mkSys s' Idle pu' po').
Proof.
  intros H Hi. open_life Hi s.
  all: brute H.
  all: life_goals.
  destruct Hstp as [[c Hc]|Hs]; [reflexivity | discriminate Hc |].
  specialize (Hs eq_refl). discriminate Hs.
Qed.

(** [Start] on a stopped object: the five queues are replaced in any case;
    then the [CHECK] fails, or a thread handle is still joinable, or the
    pipeline runs. *)
Lemma Start_cases k s o s' :
  run_ s = false -> Start k s = (o, s') ->
  pkt_queue_ s' = Some bq_new /\ frame_queue_ s' = Some bq_new /\
  buffer_queue_ s' = Some bq_new /\ reorder_queue_ s' = Some bq_new /\
  frame_order_ s' = Some bq_new /\
  frame_count_ s' = frame_count_ s /\ draining_ s' = draining_ s /\
  last_pts_ s' = last_pts_ s /\ reorder_buffer_ s' = reorder_buffer_ s /\
  ((o = Fatal CheckFailed /\ permits_ s <> [] /\ run_ s' = false /\
    permits_ s' = permits_ s /\ log s' = log s /\
    launcher_t_ s' = launcher_t_ s /\ converter_t_ s' = converter_t_ s) \/
   (o = Fatal Terminate /\ permits_ s = [] /\
    (joinable (launcher_t_ s) = true \/ joinable (converter_t_ s) = true)) \/
   (o = Ret tt /\ permits_ s = [] /\ run_ s' = true /\
    joinable (launcher_t_ s) = false /\ joinable (converter_t_ s) = false /\
    permits_ s' = replicate k (Some (mkQueue [1%Z] false)) /\
    launcher_t_ s' = mkThread true /\ converter_t_ s' = mkThread true /\
    log s' = log s ++ [ObsPermitsInit; ObsSpawn LaunchThread; ObsSpawn ConvertThread])).
Proof.
  intros Hr H. open_state s. unfold Start in H. unfold_m in H. simpl in H.
  destruct ps as [|p ps]; simpl in H.
  - change (map _ (resize_permits k [])) with
      (map (fun _ : option (BlockingQueue Z) => Some (bq_Push 1%Z bq_new))
         (resize_permits k [])) in H.
    rewrite fresh_permits in H.
    destruct lt; simpl in H.
    { simplify_eq. simpl. do 9 (split; [reflexivity|]). right. left. auto. }
    destruct ct; simpl in H; simplify_eq; simpl; do 9 (split; [reflexivity|]).
    + right. left. auto.
    + right. right. rewrite <- !app_assoc. simpl. repeat split; auto.
  - simplify_eq. simpl. do 9 (split; [reflexivity|]). left. repeat split; auto.
Qed.

Lemma life_Start k s o s' pu po pu' po' :
  Start k s = (o, s') ->
  life_inv (mkSys s Idle pu po) -> life_inv (mkSys s' Idle pu' po').
Proof.
  intros H Hi. destruct (run_ s) eqn:Hr.
  { rewrite Start_running in H by exact Hr. simplify_eq.
    destruct Hi. constructor; auto. }
  destruct (Start_cases k s o s' Hr H)
    as (H1 & H2 & H3 & H4 & H5 & Hfc & Hd & Hlp & Hrb & Hc).
  destruct Hi as [Hal Hpcr Hins Hidle Hcnt Hrdy Hses Hstp];
    cbn [dec pc pushed popped] in *.
  specialize (Hidle eq_refl Hr) as [Hl Hcv].
  constructor; cbn [dec pc pushed popped]; unfold ready, allocated.
  - right. rewrite H1, H2, H3, H4, H5. repeat split; eauto.
  - intros Hne. exfalso. apply Hne. reflexivity.
  - intros c Hc'. discriminate Hc'.
  - intros _ Hr'. destruct Hc as [Hc|[Hc|Hc]].
    + destruct Hc as (_ & _ & _ & _ & _ & -> & ->). auto.
    + destruct Hc as (_ & _ & [Hc|Hc]); congruence.
    + destruct Hc as (_ & _ & Hc & _). congruence.
  - rewrite Hfc. exact Hcnt.
  - intros _. rewrite H4, Hfc. simpl. exact Hcnt.
  - intros _. rewrite H4, H2, Hfc. simpl. exact Hcnt.
  - intros _. right. intros _. rewrite H4. reflexivity.
Qed.

Lemma life_Stop_signal s o s' pu po pu' po' c :
  Stop_signal s = (o, s') ->
  life_inv (mkSys s Idle pu po) ->
  life_inv (mkSys s' (match o with Ret entered => InStop entered c | _ => Idle end) pu' po').
Proof.
  intros H Hi. open_life Hi s.
  all: brute H.
  all: life_goals.
  destruct (Hstp eq_refl) as [[? Hc]|Hs]; [discriminate Hc | right; exact Hs].
Qed.

Lemma life_Stop_resume b c s o s' pu po pu' po' :
  Stop_resume b c s = (o, s') ->
  life_inv (mkSys s (InStop b c) pu po) -> life_inv (mkSys s' Idle pu' po').
Proof.
  intros H Hi. unfold Stop_resume in H. destruct b.
  all: open_life Hi s.
  all: destruct c; brute H.
  all: life_goals.
Qed.

Lemma life_Launch p s b s' pu po :
  LaunchThread_iter s = (Ret b, s') -> joinable (launcher_t_ s) = true ->
  life_inv (mkSys s p pu po) -> life_inv (mkSys s' p pu po).
Proof.
  intros H Hj Hi. open_life Hi s.
  all: brute H.
  all: life_goals.
Qed.

Lemma life_Convert p s b s' pu po :
  ConvertThread_iter s = (Ret b, s') -> joinable (converter_t_ s) = true ->
  life_inv (mkSys s p pu po) -> life_inv (mkSys s' p pu po).
Proof.
  intros H Hj Hi. open_life Hi s.
  all: brute H.
  all: life_goals.
Qed.

Lemma life_Decode p idx s z s' pu po :
  HandlePictureDecode_ idx s = (Ret z, s') ->
  life_inv (mkSys s p pu po) -> life_inv (mkSys s' p pu po).
Proof.
  intros H Hi. open_life Hi s.
  all: brute H.
  all: life_goals.
Qed.

Lemma life_Display p d s z s' pu po :
  HandlePictureDisplay_ d s = (Ret z, s') ->
  life_inv (mkSys s p pu po) -> life_inv (mkSys s' p pu po).
Proof.
  intros H Hi. open_life Hi s.
  all: brute H.
  all: life_goals.
Qed.

(** Every transition keeps [life_inv]. *)
Lemma exec_life k e st st' :
  life_inv st -> exec k e st = Some st' -> life_inv st'.
Proof.
  intros Hi H. destruct st as [s p pu po]. simpl in *.
  destruct e; simpl in H; unfold thread_turn, callback in H; simpl in H.
  - destruct p; [|discriminate]. destruct (Start k s) as [[| |] s1] eqn:E; simplify_eq;
      eapply life_Start; eauto.
  - destruct p; [|discriminate]. destruct (Stop_signal s) as [[| |] s1] eqn:E; simplify_eq;
      apply (life_Stop_signal _ _ _ _ _ _ _ false E Hi).
  - destruct p; [|discriminate]. destruct (Stop_signal s) as [[| |] s1] eqn:E; simplify_eq;
      apply (life_Stop_signal _ _ _ _ _ _ _ true E Hi).
  - destruct p; [|discriminate]. destruct (Push pkt buf s) as [[| |] s1] eqn:E; simplify_eq;
      eapply life_Push; eauto.
  - destruct p; [|discriminate]. destruct (Pop s) as [[[]| |] s1] eqn:E; simplify_eq;
      eapply life_Pop; eauto.
  - destruct p; [discriminate|]. destruct (Stop_resume entered clearing s) as [[| |] s1] eqn:E;
      simplify_eq; eapply life_Stop_resume; eauto.
  - destruct (joinable (launcher_t_ s)) eqn:Hj; [|discriminate].
    destruct (LaunchThread_iter s) as [[| |] s1] eqn:E; simplify_eq. eapply life_Launch; eauto.
  - destruct (joinable (converter_t_ s)) eqn:Hj; [|discriminate].
    destruct (ConvertThread_iter s) as [[| |] s1] eqn:E; simplify_eq. eapply life_Convert; eauto.
  - destruct (HandlePictureDecode_ CurrPicIdx s) as [[| |] s1] eqn:E; simplify_eq.
    eapply life_Decode; eauto.
  - destruct (engine_may_display (picture_index disp_info) s) eqn:G; [|discriminate].
    destruct (HandlePictureDisplay_ disp_info s) as [[| |] s1] eqn:E; simplify_eq.
    eapply life_Display; eauto.
Qed.

(** [life_inv] holds in every reachable state. *)
Lemma run_events_life k tr : forall st st',
  life_inv st -> run_events k tr st = Some st' -> life_inv st'.
Proof.
  induction tr as [|e tr IH]; intros st st' Hi H; simpl in H.
  - simplify_eq. exact Hi.
  - destruct (exec k e st) as [st1|] eqn:E; [|discriminate].
    eapply IH; [|exact H]. eapply exec_life; eauto.
Qed.

Lemma reachable_life k st : reachable k st -> life_inv st.
Proof.
  intros [tr H]. eapply run_events_life; [|exact H]. apply life_inv_initial.
Qed.

(** ** The frames handed back, in every reachable state *)

(** [out_inv] holds of the constructed object and is kept by every
    transition. *)
Lemma out_inv_initial : out_inv initial.
Proof. constructor; simpl; constructor. Qed.

(** Two facts on subsequences: an element may be dropped, and so may a
    suffix. *)
Lemma sublist_drop_mid {A} (l1 l2 l3 : list A) x k :
  sublist (l1 ++ l2 ++ x :: l3) k -> sublist (l1 ++ l2 ++ l3) k.
Proof.
  intros H. etrans; [|exact H].
  apply sublist_app; [reflexivity|]. apply sublist_app; [reflexivity|].
  apply sublist_cons. reflexivity.
Qed.

Lemma sublist_keep_left {A} (l1 l2 : list A) k :
  sublist (l1 ++ l2) k -> sublist (l1 ++ [] ++ []) k.
Proof.
  intros H. etrans; [|exact H]. simpl. rewrite app_nil_r.
  apply sublist_inserts_r. reflexivity.
Qed.

Ltac out_goals :=
  match goal with
  | Ho : sublist _ _, Hd : Forall _ _ |- _ =>
      constructor; cbn [dec pc pushed popped]; unfold ready in *; simpl in *;
      repeat match goal with H : items _ = _ |- _ => rewrite H in * end;
      [ first [ exact Ho
              | rewrite <- ?app_assoc; simpl; exact Ho
              | eapply sublist_drop_mid; exact Ho
              | eapply sublist_keep_left; exact Ho
              | rewrite map_app, !app_assoc; simpl; apply sublist_app; [|reflexivity];
                rewrite <- ?app_assoc; exact Ho ]
      | first [ exact Hd
              | rewrite <- ?app_assoc; simpl; exact Hd
              | rewrite app_nil_r; apply Forall_app in Hd; apply Hd
              | rewrite app_assoc; apply Forall_app; split; [exact Hd|];
                repeat constructor; assumption ] ]
  end.

Lemma exec_out k e st st' :
  out_inv st -> exec k e st = Some st' -> out_inv st'.
Proof.
  intros [Ho Hd] H. destruct st as [s p pu po]. simpl in *.
  destruct e; simpl in H; unfold thread_turn, callback in H; simpl in H.
  - destruct p; [|discriminate]. destruct (Start k s) as [[| |] s1] eqn:E; simplify_eq.
    all: open_state s; unfold ready in *; simpl in *.
    all: destruct r; [brute E; out_goals|].
    all: apply Start_cases in E as (_ & E2 & _ & E4 & _); [|reflexivity].
    all: constructor; cbn [dec pc pushed popped]; unfold ready; rewrite ?E2, ?E4; simpl.
    all: first [ eapply sublist_keep_left; exact Ho
               | rewrite app_nil_r; apply Forall_app in Hd; apply Hd ].
  - destruct p; [|discriminate]. destruct (Stop_signal s) as [[| |] s1] eqn:E; simplify_eq.
    all: open_state s; brute E; out_goals.
  - destruct p; [|discriminate]. destruct (Stop_signal s) as [[| |] s1] eqn:E; simplify_eq.
    all: open_state s; brute E; out_goals.
  - destruct p; [|discriminate]. destruct (Push pkt buf s) as [[| |] s1] eqn:E; simplify_eq.
    all: open_state s; brute E; out_goals.
  - destruct p; [|discriminate]. destruct (Pop s) as [[[]| |] s1] eqn:E; simplify_eq.
    all: open_state s; brute E; out_goals.
  - destruct p; [discriminate|]. destruct (Stop_resume entered clearing s) as [[| |] s1] eqn:E;
      simplify_eq.
    all: open_state s; unfold Stop_resume in E; destruct entered, clearing; brute E; out_goals.
  - destruct (joinable (launcher_t_ s)) eqn:Hj; [|discriminate].
    destruct (LaunchThread_iter s) as [[| |] s1] eqn:E; simplify_eq.
    open_state s; brute E; out_goals.
  - destruct (joinable (converter_t_ s)) eqn:Hj; [|discriminate].
    destruct (ConvertThread_iter s) as [[| |] s1] eqn:E; simplify_eq.
    open_state s; brute E.
    all: rewrite ?lookup_insert_eq in *; simplify_eq.
    all: out_goals.
  - destruct (HandlePictureDecode_ CurrPicIdx s) as [[| |] s1] eqn:E; simplify_eq.
    open_state s; brute E; out_goals.
  - destruct (engine_may_display (picture_index disp_info) s) eqn:G; [|discriminate].
    destruct (HandlePictureDisplay_ disp_info s) as [[| |] s1] eqn:E; simplify_eq.
    open_state s; brute E; out_goals.
Qed.

(** [out_inv] holds in every reachable state. *)
Lemma run_events_out k tr : forall st st',
  out_inv st -> run_events k tr st = Some st' -> out_inv st'.
Proof.
  induction tr as [|e tr IH]; intros st st' Hi H; simpl in H.
  - simplify_eq. exact Hi.
  - destruct (exec k e st) as [st1|] eqn:E; [|discriminate].
    eapply IH; [|exact H]. eapply exec_out; eauto.
Qed.

Lemma reachable_out k st : reachable k st -> out_inv st.
Proof.
  intros [tr H]. eapply run_events_out; [|exact H]. apply out_inv_initial.
Qed.

(** A running object has its queues. *)
Lemma life_running st :
  life_inv st -> run_ (dec st) = true -> allocated (dec st).
Proof.
  intros Hi Hr. destruct (li_alloc _ Hi) as [Hc|Ha]; [|exact Ha].
  rewrite Hc in Hr. discriminate Hr.
Qed.

(** ** [draining_] is only ever set *)

(** No member function clears [draining_]. *)
Lemma Start_draining k s o s' : Start k s = (o, s') -> draining_ s' = draining_ s.
Proof.
  intros H. destruct (run_ s) eqn:Hr.
  - rewrite Start_running in H by exact Hr. simplify_eq. reflexivity.
  - apply Start_cases in H; [|exact Hr]. apply H.
Qed.
Lemma Push_draining pkt buf s o s' :
  Push pkt buf s = (o, s') -> draining_ s = true -> draining_ s' = true.
Proof. intros H Hd. open_state s. brute H; reflexivity. Qed.
Lemma Pop_draining s o s' : Pop s = (o, s') -> draining_ s' = draining_ s.
Proof. intros H. open_state s. brute H; reflexivity. Qed.
Lemma Stop_signal_draining s o s' : Stop_signal s = (o, s') -> draining_ s' = draining_ s.
Proof. intros H. open_state s. brute H; reflexivity. Qed.
Lemma Stop_resume_draining b c s o s' :
  Stop_resume b c s = (o, s') -> draining_ s' = draining_ s.
Proof. intros H. open_state s. unfold Stop_resume in H. destruct b, c; brute H; reflexivity. Qed.
Lemma ConvertThread_iter_draining s o s' :
  ConvertThread_iter s = (o, s') -> draining_ s' = draining_ s.
Proof. intros H. open_state s. brute H; reflexivity. Qed.

(** No transition clears [draining_]. *)
Lemma exec_draining k e st st' :
  exec k e st = Some st' -> draining_ (dec st) = true -> draining_ (dec st') = true.
Proof.
  intros H Hd. destruct st as [s p pu po]. simpl in *.
  destruct e; simpl in H; unfold thread_turn, callback in H; simpl in H.
  - destruct p; [|discriminate]. destruct (Start k s) as [[| |] s1] eqn:E; simplify_eq; simpl;
      rewrite (Start_draining _ _ _ _ E); exact Hd.
  - destruct p; [|discriminate]. destruct (Stop_signal s) as [[| |] s1] eqn:E; simplify_eq; simpl;
      rewrite (Stop_signal_draining _ _ _ E); exact Hd.
  - destruct p; [|discriminate]. destruct (Stop_signal s) as [[| |] s1] eqn:E; simplify_eq; simpl;
      rewrite (Stop_signal_draining _ _ _ E); exact Hd.
  - destruct p; [|discriminate]. destruct (Push pkt buf s) as [[| |] s1] eqn:E; simplify_eq; simpl;
      apply (Push_draining _ _ _ _ _ E Hd).
  - destruct p; [|discriminate]. destruct (Pop s) as [[[]| |] s1] eqn:E; simplify_eq; simpl;
      rewrite (Pop_draining _ _ _ E); exact Hd.
  - destruct p; [discriminate|]. destruct (Stop_resume entered clearing s) as [[| |] s1] eqn:E;
      simplify_eq; simpl; rewrite (Stop_resume_draining _ _ _ _ _ E); exact Hd.
  - destruct (joinable (launcher_t_ s)); [|discriminate].
    destruct (LaunchThread_iter s) as [[| |] s1] eqn:E; simplify_eq; simpl.
    apply LaunchThread_iter_core in E as [(_ & _ & _ & _ & _ & _ & E) _]. rewrite E. exact Hd.
  - destruct (joinable (converter_t_ s)); [|discriminate].
    destruct (ConvertThread_iter s) as [[| |] s1] eqn:E; simplify_eq; simpl.
    rewrite (ConvertThread_iter_draining _ _ _ E). exact Hd.
  - destruct (HandlePictureDecode_ CurrPicIdx s) as [[| |] s1] eqn:E; simplify_eq; simpl.
    apply HandlePictureDecode_core in E as [(_ & _ & _ & _ & _ & _ & E) _]. rewrite E. exact Hd.
  - destruct (engine_may_display (picture_index disp_info) s) eqn:G; [|discriminate].
    destruct (HandlePictureDisplay_ disp_info s) as [[| |] s1] eqn:E; simplify_eq; simpl.
    apply HandlePictureDisplay_core in E as [(_ & _ & _ & _ & _ & _ & E) _]. rewrite E. exact Hd.
Qed.

Lemma run_events_draining k tr : forall st st',
  run_events k tr st = Some st' -> draining_ (dec st) = true -> draining_ (dec st') = true.
Proof.
  induction tr as [|e tr IH]; intros st st' H Hd; simpl in H.
  - simplify_eq. exact Hd.
  - destruct (exec k e st) as [st1|] eqn:E; [|discriminate].
    eapply IH; [exact H|]. eapply exec_draining; eauto.
Qed.

(** ** The calls of the caller *)

(** [Stop] on an object whose queues exist if it is running: it returns, and
    this is what it leaves. *)
Lemma Stop_effect s :
  (run_ s = true -> allocated s) ->
  exists s', Stop s = (Ret tt, s') /\ run_ s' = false /\
    joinable (launcher_t_ s') = false /\ joinable (converter_t_ s') = false /\
    permits_ s' = (if run_ s then kill_permits (permits_ s) else permits_ s) /\
    frame_count_ s' = frame_count_ s /\ draining_ s' = draining_ s /\
    last_pts_ s' = last_pts_ s /\ reorder_buffer_ s' = reorder_buffer_ s /\
    log s' = log s /\
    contents (pkt_queue_ s') = contents (pkt_queue_ s) /\
    contents (frame_queue_ s') = contents (frame_queue_ s) /\
    contents (buffer_queue_ s') = contents (buffer_queue_ s) /\
    ready s' = ready s /\ keys s' = keys s /\
    (run_ s = true ->
     live (pkt_queue_ s') = false /\ live (frame_queue_ s') = false /\
     live (buffer_queue_ s') = false /\ live (reorder_queue_ s') = false /\
     live (frame_order_ s') = false).
Proof.
  intros Ha. unfold allocated in Ha. open_state s. unfold keys, ready. destruct r.
  - destruct Ha as ([q1 ->] & [q2 ->] & [q3 ->] & [q4 ->] & [q5 ->]); [reflexivity|].
    m_simpl. destruct lt, ct; simpl; eexists; repeat split; reflexivity.
  - m_simpl. destruct lt, ct; simpl; eexists; repeat split; try reflexivity; discriminate.
Qed.

(** The kill signal keeps the vector of permit queues as long as it was. *)
Lemma kill_permits_length ps : length (kill_permits ps) = length ps.
Proof. unfold kill_permits. apply length_map. Qed.

(** X1.  [Stop] kills the permit queues but leaves them in [permits_].
    After [Start] and [Stop] of a decoder with at least one surface, a second
    [Start] therefore fails its [CHECK] on [permits_.size()]; it leaves the
    pipeline stopped, with the killed permits and without a thread. *)
Theorem restart_needs_Clear k s :
  0 < k -> run_ s = false -> permits_ s = [] ->
  joinable (launcher_t_ s) = false -> joinable (converter_t_ s) = false ->
  exists s1 s2 s3,
    Start k s = (Ret tt, s1) /\ Stop s1 = (Ret tt, s2) /\
    length (permits_ s2) = k /\
    Start k s2 = (Fatal CheckFailed, s3) /\
    run_ s3 = false /\ permits_ s3 = permits_ s2 /\
    joinable (launcher_t_ s3) = false /\ joinable (converter_t_ s3) = false.
Proof.
  intros Hk Hr Hp Hl Hc.
  destruct (Start_fresh k s Hr Hp Hl Hc)
    as (s1 & Hs & Hr1 & Hpq & Hfq & Hbq & Hrq & Hfo & Hp1 & _).
  destruct (Stop_effect s1) as (s2 & Hst & Hr2 & Hl2 & Hc2 & Hp2 & _).
  { intros _. unfold allocated. rewrite Hpq, Hfq, Hbq, Hrq, Hfo. repeat split; eauto. }
  rewrite Hr1, Hp1 in Hp2.
  assert (Hlen : length (permits_ s2) = k).
  { rewrite Hp2, kill_permits_length, length_replicate. reflexivity. }
  destruct (Start k s2) as [o3 s3] eqn:E3.
  pose proof (Start_cases k s2 o3 s3 Hr2 E3) as (_ & _ & _ & _ & _ & _ & _ & _ & _ & Hcs).
  exists s1, s2, s3. split; [exact Hs|]. split; [exact Hst|]. split; [exact Hlen|].
  destruct Hcs as [Hcs|[Hcs|Hcs]].
  - destruct Hcs as (-> & _ & H1 & H2 & _ & H3 & H4). rewrite H1, H2, H3, H4. auto.
  - destruct Hcs as (_ & Hn & _). rewrite Hn in Hlen. simpl in Hlen. lia.
  - destruct Hcs as (_ & Hn & _). rewrite Hn in Hlen. simpl in Hlen. lia.
Qed.

(** X2.  Nothing resets [draining_].  Once the end-of-stream marker has
    been pushed, the flag stays set through every call, thread turn and
    callback, [Clear] and [Start] included, and every later [Push] of the
    marker fails its [CHECK] and changes nothing. *)
Theorem draining_never_reset k tr st st' buf :
  run_events k tr st = Some st' -> draining_ (dec st) = true ->
  draining_ (dec st') = true /\
  Push None buf (dec st') = (Fatal CheckFailed, dec st').
Proof.
  intros H Hd. pose proof (run_events_draining k tr st st' H Hd) as Hd'.
  split; [exact Hd'|]. apply Push_rejects. right. auto.
Qed.

(** X4.  [Start], called between two calls of the caller in a reachable
    state, does one of three things.  It does nothing, when the pipeline
    runs.  It fails the [CHECK] on [permits_], when the pipeline is stopped
    and the permits of an earlier session are still there; the queues have
    then been replaced by empty ones, and no thread is spawned.  Or it
    starts the pipeline, with [kMaxOutputSurfaces] permit queues and the
    launcher and the converter, spawned in this order.  It never assigns to
    a thread handle that still owns a thread. *)
Theorem Start_outcomes k st :
  reachable k st -> pc st = Idle ->
  (run_ (dec st) = true /\ Start k (dec st) = (Ret tt, dec st)) \/
  (run_ (dec st) = false /\ permits_ (dec st) <> [] /\
   exists s', Start k (dec st) = (Fatal CheckFailed, s') /\ run_ s' = false /\
     joinable (launcher_t_ s') = false /\ joinable (converter_t_ s') = false /\
     log s' = log (dec st) /\ permits_ s' = permits_ (dec st) /\
     ready s' = [] /\ contents (frame_queue_ s') = []) \/
  (run_ (dec st) = false /\ permits_ (dec st) = [] /\
   exists s', Start k (dec st) = (Ret tt, s') /\ run_ s' = true /\
     joinable (launcher_t_ s') = true /\ joinable (converter_t_ s') = true /\
     length (permits_ s') = k /\
     log s' = log (dec st) ++
       [ObsPermitsInit; ObsSpawn LaunchThread; ObsSpawn ConvertThread]).
Proof.
  intros Hr Hpc. apply reachable_life in Hr.
  destruct (run_ (dec st)) eqn:Hrun.
  { left. split; [reflexivity|]. apply Start_running. exact Hrun. }
  right. destruct (li_idle _ Hr Hpc Hrun) as [Hl Hc].
  destruct (Start k (dec st)) as [o s'] eqn:E.
  pose proof (Start_cases k _ _ _ Hrun E) as (_ & Hfq & _ & Hrq & _ & _ & _ & _ & _ & Hcs).
  destruct Hcs as [Hcs|[Hcs|Hcs]].
  - destruct Hcs as (-> & Hn & H1 & Hps & H2 & H3 & H4). left.
    split; [reflexivity|]. split; [exact Hn|]. exists s'.
    unfold ready. rewrite H3, H4, Hfq, Hrq. repeat split; auto.
  - destruct Hcs as (_ & _ & [H|H]); congruence.
  - destruct Hcs as (-> & Hn & H1 & _ & _ & H2 & H3 & H4 & H5). right.
    split; [reflexivity|]. split; [exact Hn|]. exists s'.
    rewrite H2, H3, H4, length_replicate. repeat split; auto.
Qed.

(** X5.  In every reachable state in which the pipeline runs, [Push]
    returns, unless it is the end-of-stream marker pushed a second time.
    The packet and the buffer are appended to their queues and the frame
    counter goes up by one; a packet adds one key, the marker sets
    [draining_].  A packet is accepted while the pipeline drains, and the
    buffer is not looked at. *)
Theorem Push_succeeds_when_running k st pkt buf :
  reachable k st -> run_ (dec st) = true ->
  (pkt = None -> draining_ (dec st) = false) ->
  exists s',
    Push pkt buf (dec st) = (Ret tt, s') /\
    contents (pkt_queue_ s') = contents (pkt_queue_ (dec st)) ++ [pkt] /\
    contents (frame_queue_ s') = contents (frame_queue_ (dec st)) ++ [buf] /\
    frame_count_ s' = (frame_count_ (dec st) + 1)%Z /\
    length (keys s') =
      length (keys (dec st)) + (match pkt with Some _ => 1 | None => 0 end) /\
    draining_ s' = (match pkt with Some _ => draining_ (dec st) | None => true end).
Proof.
  intros Hr Hrun Hd. apply reachable_life in Hr.
  destruct (life_running st Hr Hrun) as ([pq Hpq] & [fq Hfq] & _ & _ & [fo Hfo]).
  destruct pkt as [p|].
  - rewrite (Push_data _ p buf pq fq fo Hrun Hpq Hfq Hfo). eexists. split; [reflexivity|].
    unfold keys. cbv zeta. simpl. rewrite Hpq, Hfq, Hfo. simpl.
    rewrite length_app. simpl. repeat split; reflexivity.
  - rewrite (Push_eos _ buf pq fq Hrun (Hd eq_refl) Hpq Hfq). eexists. split; [reflexivity|].
    unfold keys. simpl. rewrite Hpq, Hfq. simpl. repeat split; try reflexivity. lia.
Qed.

(** X6.  In every reachable state [Pop] returns, and no pointer it
    follows is null.  It answers "not found" and changes nothing, or it
    returns the oldest frame of the output queue; the frame counter is then
    one less, and not negative. *)
Theorem Pop_never_fails k st :
  reachable k st ->
  exists o s', Pop (dec st) = (Ret o, s') /\
    (o = None -> s' = dec st) /\
    (forall frame, o = Some frame ->
       exists rest, ready (dec st) = frame :: rest /\ ready s' = rest /\
         frame_count_ s' = (frame_count_ (dec st) - 1)%Z /\
         (0 <= frame_count_ s')%Z).
Proof.
  intros Hr. apply reachable_life in Hr.
  destruct Hr as [Hal _ _ _ Hcnt Hrdy _ _].
  destruct (Pop (dec st)) as [o s'] eqn:E.
  destruct st as [s p pu po]. cbn [dec] in *.
  open_state s. unfold ready, allocated in *. simpl in *.
  destruct Hal as [Hal | (_ & _ & _ & [[it kl] ->] & _)].
  - unfold constructed in Hal. injection Hal; intros; subst. brute E.
    eexists _, _. split; [reflexivity|]. split; [reflexivity|]. intros ? [=].
  - brute E.
    all: eexists _, _; split; [reflexivity|]; split;
      [ first [reflexivity | intros [=]] | intros ? [=]; subst ].
    eexists. repeat split; try reflexivity.
    specialize (Hrdy eq_refl). simpl in *. lia.
Qed.

(** X7.  In every reachable state the frame counter is not negative.  It
    is at least the number of frames in the output queue while that queue is
    live, and at least the number of frames in the output queue plus the
    number of buffers in the frame queue while the pipeline runs. *)
Theorem frame_count_never_negative k st :
  reachable k st ->
  (0 <= frame_count_ (dec st))%Z /\
  (live (reorder_queue_ (dec st)) = true ->
   (Z.of_nat (length (ready (dec st))) <= frame_count_ (dec st))%Z) /\
  (run_ (dec st) = true ->
   (Z.of_nat (length (ready (dec st)) + length (contents (frame_queue_ (dec st))))
    <= frame_count_ (dec st))%Z).
Proof.
  intros Hr. apply reachable_life in Hr.
  split; [apply (li_count _ Hr)|]. split; [apply (li_ready _ Hr)|apply (li_session _ Hr)].
Qed.

(** X8.  In every reachable state, whatever calls of [Start], [Stop] and
    [Clear] were made, the frames [Pop] has returned are buffers that were
    pushed, in the order in which they were pushed: the sequence of the
    frames returned is a subsequence of the sequence of the buffers
    pushed. *)
Theorem popped_in_submission_order k st :
  reachable k st -> sublist (popped st) (map snd (pushed st)).
Proof.
  intros Hr. apply reachable_out in Hr. destruct Hr as [Ho _].
  etrans; [|exact Ho]. apply sublist_inserts_r. reflexivity.
Qed.

(** X9.  In every reachable state each frame [Pop] has returned, and each
    frame that waits in the output queue, is a defined array: the converter
    checks the buffer before it converts into it. *)
Theorem popped_defined k st :
  reachable k st ->
  Forall (fun arr => defined arr = true) (popped st) /\
  Forall (fun arr => defined arr = true) (ready (dec st)).
Proof.
  intros Hr. apply reachable_out in Hr. destruct Hr as [_ Hd].
  apply Forall_app in Hd. exact Hd.
Qed.

(** ** The launcher *)

(** One turn of the launcher on a running object with a packet waiting. *)
Lemma LaunchThread_iter_forwards s p rest :
  run_ s = true -> pkt_queue_ s = Some (mkQueue (p :: rest) false) ->
  LaunchThread_iter s =
    (Ret true,
     mset m_log (log s ++ [ObsParse (forwarded p)])
       (mset m_pkt_queue (Some (mkQueue rest false)) s)).
Proof.
  intros Hr Hq. open_state s. unfold forwarded. m_simpl.
  destruct p as [pk|]; simpl; [|reflexivity].
  destruct (size pk =? 0)%Z; reflexivity.
Qed.


Lemma LaunchThread_iter_killed s q :
  pkt_queue_ s = Some q -> killed q = true ->
  LaunchThread_iter s = (Ret false, s).
Proof.
  intros Hq Hk. open_state s. open_queue q. m_simpl. destruct r; reflexivity.
Qed.


(** X11.  Once [Stop] has killed the packet queue and cleared [run_], both
    thread functions return at their next test of [run_]: the packets still
    queued are not handed to the parser and the surfaces still queued are not
    converted.  A killed packet queue alone makes the launcher return. *)
Theorem threads_return_after_Stop fuel s pq :
  0 < fuel -> run_ s = true -> pkt_queue_ s = Some pq ->
  exists s1,
    Stop_signal s = (Ret true, s1) /\
    contents (pkt_queue_ s1) = items pq /\
    buffer_queue_ s1 = buffer_queue_ s /\ log s1 = log s /\
    LaunchThread_loop fuel s1 = (Ret (Some tt), s1) /\
    ConvertThread_loop fuel s1 = (Ret (Some tt), s1) /\
    (forall s2 q, pkt_queue_ s2 = Some q -> killed q = true ->
       LaunchThread_loop fuel s2 = (Ret (Some tt), s2)).
Proof.
  intros Hf Hr Hq. destruct fuel as [|fuel]; [lia|].
  eexists. split; [open_state s; reflexivity|]. simpl.
  split; [reflexivity|]. split; [reflexivity|]. split; [reflexivity|].
  unfold bind. rewrite LaunchThread_iter_stopped, ConvertThread_iter_stopped by reflexivity.
  split; [reflexivity|]. split; [reflexivity|].
  intros s2 q Hq2 Hk. rewrite (LaunchThread_iter_killed s2 q Hq2 Hk). reflexivity.
Qed.

(** ** The permit queues while the pipeline runs *)





(** ** The decode-request callback *)


Lemma decode_in_range idx s q :
  (0 <= idx)%Z -> permits_ s !! Z.to_nat idx = Some (Some q) ->
  (0 <=? idx)%Z = true /\ (idx <? Z.of_nat (length (permits_ s)))%Z = true.
Proof.
  intros H0 Hq. split; [apply Z.leb_le; exact H0|].
  apply Z.ltb_lt. apply lookup_lt_Some in Hq. lia.
Qed.

(** The wait for a permit tests [Size()] only. *)
Lemma decode_waits idx s q :
  (0 <= idx)%Z -> permits_ s !! Z.to_nat idx = Some (Some q) -> items q = [] ->
  HandlePictureDecode_ idx s = (Blocks, s).
Proof.
  intros H0 Hq Hi. destruct (decode_in_range idx s q H0 Hq) as [E1 E2].
  open_state s. open_queue q. unfold_m. simpl. rewrite E1. simpl. rewrite E2. simpl.
  rewrite Hq. simpl. reflexivity.
Qed.

(** A decode request that finds a token on a running pipeline. *)
Lemma decode_acquires idx s q tok rest :
  (0 <= idx)%Z -> permits_ s !! Z.to_nat idx = Some (Some q) ->
  items q = tok :: rest -> killed q = false -> run_ s = true ->
  HandlePictureDecode_ idx s =
    (Ret 1%Z,
     mset m_log (log s ++ [ObsAcquire idx; ObsDecodePicture idx])
       (mset m_permits (<[Z.to_nat idx := Some (mkQueue rest false)]> (permits_ s)) s)).
Proof.
  intros H0 Hq Hi Hk Hr. destruct (decode_in_range idx s q H0 Hq) as [E1 E2].
  open_state s. open_queue q. unfold_m. simpl. rewrite E1. simpl. rewrite E2. simpl.
  rewrite Hq. simpl. unfold bq_Pop. simpl. rewrite <- app_assoc. reflexivity.
Qed.



(** X13.  The wait for a permit in the decode-request callback tests the
    size of the queue only.  After a decode request has taken the token of a
    slot, a second request for that slot waits, and it still waits once
    [Stop] has killed the permit queues. *)
Theorem decode_request_not_woken_by_Stop idx s q tok :
  run_ s = true -> allocated s ->
  (0 <= idx)%Z -> permits_ s !! Z.to_nat idx = Some (Some q) ->
  items q = [tok] -> killed q = false ->
  exists s1 s2,
    HandlePictureDecode_ idx s = (Ret 1%Z, s1) /\
    HandlePictureDecode_ idx s1 = (Blocks, s1) /\
    Stop s1 = (Ret tt, s2) /\
    permits_ s2 !! Z.to_nat idx = Some (Some (mkQueue [] true)) /\
    HandlePictureDecode_ idx s2 = (Blocks, s2).
Proof.
  intros Hr Ha H0 Hq Hi Hk.
  pose proof (decode_acquires idx s q tok [] H0 Hq Hi Hk Hr) as H1.
  match type of H1 with _ = (_, ?x) => set (s1 := x) in * end.
  assert (Hq1 : permits_ s1 !! Z.to_nat idx = Some (Some (mkQueue [] false))).
  { unfold s1. destruct s. simpl in *. apply list_lookup_insert_eq.
    apply lookup_lt_Some in Hq. exact Hq. }
  assert (Hr1 : run_ s1 = true) by (unfold s1; destruct s; exact Hr).
  assert (Ha1 : allocated s1) by (unfold s1; destruct s; exact Ha).
  destruct (Stop_effect s1 (fun _ => Ha1)) as (s2 & Hst & _ & _ & _ & Hp2 & _).
  rewrite Hr1 in Hp2.
  assert (Hq2 : permits_ s2 !! Z.to_nat idx = Some (Some (mkQueue [] true))).
  { rewrite Hp2. unfold kill_permits. rewrite list_lookup_fmap, Hq1. reflexivity. }
  exists s1, s2. split; [exact H1|]. split; [apply (decode_waits idx s1 _ H0 Hq1 eq_refl)|].
  split; [exact Hst|]. split; [exact Hq2|]. apply (decode_waits idx s2 _ H0 Hq2 eq_refl).
Qed.

(** ** The way of a permit *)

(** The display-ready notification appends to the buffer queue. *)
Lemma Display_effect d s q :
  buffer_queue_ s = Some q ->
  HandlePictureDisplay_ d s =
    (Ret 1%Z,
     mset m_log (log s ++ [ObsDisplay (picture_index d)])
       (mset m_buffer_queue (Some (bq_Push d q)) s)).
Proof. intros Hq. open_state s. reflexivity. Qed.

(** X14.  The way of a permit.  A decode request takes the token of its
    slot; the display-ready notification queues the surface; the converter
    turn converts it into the oldest buffer of the frame queue and puts a
    token back.  The permit queues are then what they were before the decode
    request, and the buffer is the newest frame of the output queue, whatever
    the timestamp of the surface and the expected key. *)
Theorem permit_round_trip idx ts s arr fq_rest key fo_rest rq :
  run_ s = true -> (0 <= idx)%Z ->
  permits_ s !! Z.to_nat idx = Some (Some (mkQueue [1%Z] false)) ->
  buffer_queue_ s = Some (mkQueue [] false) ->
  frame_queue_ s = Some (mkQueue (arr :: fq_rest) false) -> defined arr = true ->
  frame_order_ s = Some (mkQueue (key :: fo_rest) false) ->
  reorder_queue_ s = Some (mkQueue rq false) ->
  exists s1 s2 s3,
    HandlePictureDecode_ idx s = (Ret 1%Z, s1) /\ tokens idx s1 = 0 /\
    HandlePictureDisplay_ (mkDisp idx ts) s1 = (Ret 1%Z, s2) /\
    ConvertThread_iter s2 = (Ret true, s3) /\
    permits_ s3 = permits_ s /\ tokens idx s3 = 1 /\
    ready s3 = rq ++ [arr] /\
    log s3 = log s ++ [ObsAcquire idx; ObsDecodePicture idx; ObsDisplay idx;
                       ObsProcessFrame idx arr; ObsRelease idx].
Proof.
  intros Hr H0 Hq Hb Hf Hd Ho Hrq.
  pose proof (lookup_lt_Some _ _ _ Hq) as Hlt.
  pose proof (decode_acquires idx s _ 1%Z [] H0 Hq eq_refl eq_refl Hr) as H1.
  match type of H1 with _ = (_, ?x) => set (s1 := x) in * end.
  assert (Hb1 : buffer_queue_ s1 = Some (mkQueue [] false)) by (unfold s1; destruct s; exact Hb).
  pose proof (Display_effect (mkDisp idx ts) s1 _ Hb1) as H2.
  match type of H2 with _ = (_, ?x) => set (s2 := x) in * end.
  assert (Hq2 : permits_ s2 !! Z.to_nat idx = Some (Some (mkQueue [] false))).
  { unfold s2, s1. destruct s. simpl in *. apply list_lookup_insert_eq. exact Hlt. }
  destruct (ConvertThread_iter_progress s2 (mkDisp idx ts) [] arr fq_rest key fo_rest rq)
    as (s3 & H3); try (unfold s2, s1; destruct s; simpl in *; first [assumption | reflexivity]).
  { split; [exact H0|]. eexists. exact Hq2. }
  destruct (ConvertThread_iter_good s2 true s3)
    as (d' & bq' & arr' & fq' & key' & fo' & pq' & E1 & E2 & E3 & _ & _ & Ep & _ & _ & _
        & Erq & Eps & Elog & _);
    try (unfold s2, s1; destruct s; simpl in *; subst; reflexivity); [exact H3|].
  assert (d' = mkDisp idx ts) as ->.
  { unfold s2, s1 in E1. destruct s. simpl in *. congruence. }
  assert (arr' = arr) as ->.
  { unfold s2, s1 in E2. destruct s. simpl in *. subst. simpl in E2. congruence. }
  simpl in *. rewrite Hq2 in Ep. injection Ep as <-.
  assert (Hps : permits_ s3 = permits_ s).
  { rewrite Eps. unfold s2, s1. destruct s. simpl in *.
    rewrite list_insert_insert_eq. apply list_insert_id. exact Hq. }
  exists s1, s2, s3. split; [exact H1|]. split.
  { unfold tokens. apply Z.leb_le in H0. rewrite H0.
    unfold s1. destruct s. simpl in *. rewrite list_lookup_insert_eq by exact Hlt. reflexivity. }
  split; [exact H2|]. split; [exact H3|]. split; [exact Hps|]. split.
  { unfold tokens. apply Z.leb_le in H0. rewrite H0, Hps, Hq. reflexivity. }
  split.
  { unfold ready. rewrite Erq. unfold s2, s1. destruct s. simpl in *. subst. reflexivity. }
  rewrite Elog. unfold s2, s1. destruct s. simpl. rewrite <- !app_assoc. reflexivity.
Qed.

(** ** A packet without payload *)

(** X15.  A packet of size 0 is pushed as a packet: it gets a key, its
    buffer is queued, the frame counter goes up and [draining_] is left
    alone.  The launcher hands it to the parser as the end of the stream. *)
Theorem empty_packet_parsed_as_end_of_stream s p buf fq fo :
  size p = 0%Z -> run_ s = true ->
  pkt_queue_ s = Some (mkQueue [] false) ->
  frame_queue_ s = Some fq -> frame_order_ s = Some fo ->
  exists s1 s2,
    Push (Some p) buf s = (Ret tt, s1) /\
    draining_ s1 = draining_ s /\
    length (keys s1) = S (length (keys s)) /\
    contents (frame_queue_ s1) = items fq ++ [buf] /\
    frame_count_ s1 = (frame_count_ s + 1)%Z /\
    LaunchThread_iter s1 = (Ret true, s2) /\
    log s2 = log s ++ [ObsParse None] /\
    draining_ s2 = draining_ s.
Proof.
  intros Hs Hr Hq Hf Ho.
  pose proof (Push_data s p buf _ fq fo Hr Hq Hf Ho) as H1. cbv zeta in H1.
  match type of H1 with _ = (_, ?x) => set (s1 := x) in * end.
  assert (Hr1 : run_ s1 = true) by (unfold s1; destruct s; exact Hr).
  assert (Hq1 : pkt_queue_ s1 = Some (mkQueue [Some p] false))
    by (unfold s1; destruct s; reflexivity).
  pose proof (LaunchThread_iter_forwards s1 (Some p) [] Hr1 Hq1) as H2.
  unfold forwarded in H2. rewrite Hs in H2. simpl in H2.
  match type of H2 with _ = (_, ?x) => set (s2 := x) in * end.
  exists s1, s2. split; [exact H1|].
  assert (Hl : length (keys s1) = S (length (keys s))).
  { unfold keys, s1. destruct s. simpl in *. subst. simpl. rewrite length_app. simpl. lia. }
  split; [unfold s1; destruct s; reflexivity|]. split; [exact Hl|].
  split; [unfold s1; destruct s; simpl in *; subst; reflexivity|].
  split; [unfold s1; destruct s; reflexivity|]. split; [exact H2|].
  split; unfold s2, s1; destruct s; reflexivity.
Qed.

(** ** The converter *)

(** A converter turn is the test of [run_], the pop of the buffer queue and
    the rest of the loop body. *)
Lemma ConvertThread_iter_split s :
  ConvertThread_iter s =
    (r <- load m_run ;;
     if negb r then ret false
     else
       d <- q_Pop m_buffer_queue ;;
       match d with
       | None => ret false
       | Some disp_info => ConvertThread_convert disp_info
       end) s.
Proof. reflexivity. Qed.

(** X16.  The converter does not test the result of
    [frame_queue_->Pop].  Once [Stop] has killed the frame queue, the loop
    body, for a descriptor the converter has taken, fails
    [CHECK(arr.defined())] where the other pops make the thread return.
    Before [Stop], with no buffer queued, it waits. *)
Theorem converter_fails_when_frame_queue_killed d s :
  run_ s = true -> allocated s ->
  exists s1,
    Stop s = (Ret tt, s1) /\
    ConvertThread_convert d s1 = (Fatal CheckFailed, s1) /\
    (contents (frame_queue_ s) = [] -> live (frame_queue_ s) = true ->
     ConvertThread_convert d s = (Blocks, s)).
Proof.
  intros Hr Ha.
  destruct Ha as ([q1 H1] & [[it2 k2] H2] & [q3 H3] & [q4 H4] & [q5 H5]).
  open_state s. unfold ConvertThread_convert. m_simpl.
  destruct lt, ct; simpl; eexists; (split; [reflexivity|]); (split; [reflexivity|]).
  all: intros -> Hl; apply negb_true_iff in Hl; subst; reflexivity.
Qed.

(** ** Configuration *)

(** [SetCodecContext] with a context: the state after [Clear], then
    [Start] if the pipeline ran, or the failure if the parser was not
    created. *)
Lemma SetCodecContext_effect k ctx w h o :
  (run_ (pipeline o) = true -> allocated (pipeline o)) ->
  exists s1,
    Clear (pipeline o) = (Ret tt, s1) /\
    SetCodecContext k (Some ctx) w h true o =
      (if run_ (pipeline o)
       then call (Start k)
       else retD tt)
        (mkConfigured s1 w h (frame_base_ o) (Some ctx)
           (Some (mkParser (codec_id ctx) k (extradata ctx) (extradata_size ctx) true))) /\
    SetCodecContext k (Some ctx) w h false o =
      (Fatal CheckFailed,
       mkConfigured s1 w h (frame_base_ o) (Some ctx)
         (Some (mkParser (codec_id ctx) k (extradata ctx) (extradata_size ctx) false))).
Proof.
  intros Ha. destruct (Clear_effect _ Ha) as (s1 & Hc & _).
  exists s1. split; [exact Hc|].
  unfold SetCodecContext, bindD, assign, call, read, load. simpl.
  destruct o as [s w0 h0 fb dc pa]. simpl in *. rewrite Hc. simpl. split; reflexivity.
Qed.

(** X17.  [SetCodecContext] with a codec context, when the parser is
    created, returns and keeps the pipeline as it was, running or stopped.
    It stores the size and the context, and it clears: the frame counter is
    0 and the Reorder Map empty.  A pipeline that ran has new, empty queues,
    new permits and new threads, so whatever was queued is dropped; a
    stopped one has no permits.  [last_pts_] and [draining_] survive. *)
Theorem SetCodecContext_restarts k ctx w h o :
  (run_ (pipeline o) = true -> allocated (pipeline o)) ->
  exists o',
    SetCodecContext k (Some ctx) w h true o = (Ret tt, o') /\
    run_ (pipeline o') = run_ (pipeline o) /\
    width_ o' = w /\ height_ o' = h /\ dec_ctx_ o' = Some ctx /\
    frame_count_ (pipeline o') = 0%Z /\ reorder_buffer_ (pipeline o') = ∅ /\
    last_pts_ (pipeline o') = last_pts_ (pipeline o) /\
    draining_ (pipeline o') = draining_ (pipeline o) /\
    (if run_ (pipeline o)
     then permits_ (pipeline o') = replicate k (Some (mkQueue [1%Z] false)) /\
          contents (pkt_queue_ (pipeline o')) = [] /\
          contents (frame_queue_ (pipeline o')) = [] /\
          keys (pipeline o') = [] /\ ready (pipeline o') = [] /\
          joinable (launcher_t_ (pipeline o')) = true /\
          joinable (converter_t_ (pipeline o')) = true
     else permits_ (pipeline o') = [] /\
          joinable (launcher_t_ (pipeline o')) = false /\
          joinable (converter_t_ (pipeline o')) = false).
Proof.
  intros Ha. destruct (SetCodecContext_effect k ctx w h o Ha) as (s1 & Hc & -> & _).
  destruct (Clear_effect _ Ha)
    as (s1' & Hc' & Hfc & Hrb & Hp & Hr & Hl & Hcv & Hlp & Hd & _).
  rewrite Hc in Hc'. injection Hc' as <-.
  destruct (run_ (pipeline o)) eqn:Hrun.
  - destruct (Start_fresh k s1 Hr Hp Hl Hcv)
      as (s2 & Hs & Hr2 & Hpq & Hfq & Hbq & Hrq & Hfo & Hp2 & Hlp2 & Hd2 & Hfc2 & Hrb2
          & Hl2 & Hc2 & _).
    unfold call. simpl. rewrite Hs. eexists. split; [reflexivity|]. simpl.
    unfold keys, ready. rewrite Hpq, Hfq, Hrq, Hfo, Hl2, Hc2. simpl.
    repeat split; try assumption; try reflexivity; congruence.
  - eexists. split; [reflexivity|]. simpl. repeat split; assumption.
Qed.

(** X18.  [SetCodecContext] fails before any write when the codec context
    is null.  When the parser cannot be created it fails after [Clear]: the
    size is stored, and a pipeline that ran is left stopped, without permits
    and threads. *)
Theorem SetCodecContext_failures k w h o :
  SetCodecContext k None w h true o = (Fatal CheckFailed, o) /\
  forall ctx,
    (run_ (pipeline o) = true -> allocated (pipeline o)) ->
    exists o',
      SetCodecContext k (Some ctx) w h false o = (Fatal CheckFailed, o') /\
      run_ (pipeline o') = false /\ permits_ (pipeline o') = [] /\
      joinable (launcher_t_ (pipeline o')) = false /\
      joinable (converter_t_ (pipeline o')) = false /\
      width_ o' = w /\ height_ o' = h.
Proof.
  split; [reflexivity|]. intros ctx Ha.
  destruct (SetCodecContext_effect k ctx w h o Ha) as (s1 & Hc & _ & ->).
  destruct (Clear_effect _ Ha) as (s1' & Hc' & _ & _ & Hp & Hr & Hl & Hcv & _).
  rewrite Hc in Hc'. injection Hc' as <-.
  eexists. split; [reflexivity|]. simpl. repeat split; assumption.
Qed.

(** X19.  The sequence callback replaces the output size that was given
    to [SetCodecContext] by the coded size of the stream, and sets
    [frame_base_] to the inverse of the frame rate; it does not touch the
    pipeline. *)
Theorem sequence_callback_overrides_size k ctx w h fmt initialized o :
  (run_ (pipeline o) = true -> allocated (pipeline o)) ->
  exists o1 o2,
    SetCodecContext k (Some ctx) w h true o = (Ret tt, o1) /\
    width_ o1 = w /\ height_ o1 = h /\
    HandlePictureSequence_ fmt initialized o1 = (Ret initialized, o2) /\
    width_ o2 = coded_width fmt /\ height_ o2 = coded_height fmt /\
    pipeline o2 = pipeline o1 /\
    ((0 <= frame_rate_numerator fmt < 2 ^ 31)%Z ->
     (0 <= frame_rate_denominator fmt < 2 ^ 31)%Z ->
     frame_base_ o2 =
       mkRational (frame_rate_denominator fmt) (frame_rate_numerator fmt)).
Proof.
  intros Ha. destruct (SetCodecContext_restarts k ctx w h o Ha) as (o1 & H1 & _ & Hw & Hh & _).
  exists o1. eexists. split; [exact H1|]. split; [exact Hw|]. split; [exact Hh|].
  split; [reflexivity|]. simpl. repeat split.
  intros Hn Hd. f_equal; unfold to_int; rewrite Z.mod_small; lia.
Qed.

(** ** The converter, as a loop *)

(** The converter on an empty buffer queue. *)
Lemma ConvertThread_iter_waits s :
  run_ s = true -> buffer_queue_ s = Some (mkQueue [] false) ->
  ConvertThread_iter s = (Blocks, s).
Proof. intros Hr Hq. open_state s. reflexivity. Qed.

(** X20.  The converter, on a running pipeline, takes the surfaces in the
    order in which they were shown and converts each into the oldest buffer
    of the frame queue, whatever the timestamps and the expected keys are:
    the frames reach the output queue in the order of the buffers, one key is
    consumed per surface, and the permits are released in the order of the
    surfaces.  It then waits for the next surface: with more turns to take
    than surfaces queued, [ConvertThread] does not return. *)
Theorem ConvertThread_pairs_in_order fuel ds : forall bufs ks s fq_rest fo_rest rq,
  run_ s = true ->
  buffer_queue_ s = Some (mkQueue ds false) ->
  frame_queue_ s = Some (mkQueue (bufs ++ fq_rest) false) ->
  frame_order_ s = Some (mkQueue (ks ++ fo_rest) false) ->
  reorder_queue_ s = Some (mkQueue rq false) ->
  length bufs = length ds -> length ks = length ds ->
  Forall (fun arr => defined arr = true) bufs ->
  Forall (fun d => slot_ok (permits_ s) (picture_index d)) ds ->
  length ds < fuel ->
  exists s',
    ConvertThread_loop fuel s = (Blocks, s') /\
    ready s' = rq ++ bufs /\
    contents (frame_queue_ s') = fq_rest /\ keys s' = fo_rest /\
    contents (buffer_queue_ s') = [] /\
    log s' = log s ++
      concat (zip_with (fun d arr => [ObsProcessFrame (picture_index d) arr;
                                      ObsRelease (picture_index d)]) ds bufs).
Proof.
  revert fuel. induction ds as [|d ds IH];
    intros fuel bufs ks s fq_rest fo_rest rq Hr Hb Hf Ho Hq Hlb Hlk Hdef Hsl Hfuel.
  - destruct bufs; [|discriminate]. destruct ks; [|discriminate].
    destruct fuel as [|fuel]; [simpl in Hfuel; lia|].
    exists s. simpl. unfold bind. rewrite ConvertThread_iter_waits by assumption.
    unfold ready, keys. rewrite Hq, Hf, Ho, Hb. simpl. rewrite !app_nil_r.
    repeat split; reflexivity.
  - destruct bufs as [|arr bufs]; [discriminate|]. destruct ks as [|key ks]; [discriminate|].
    destruct fuel as [|fuel]; [simpl in Hfuel; lia|].
    simpl in Hlb, Hlk, Hfuel. apply Forall_cons in Hdef as [Hd1 Hdef].
    apply Forall_cons in Hsl as [Hs1 Hsl].
    destruct (ConvertThread_iter_progress s d ds arr (bufs ++ fq_rest) key (ks ++ fo_rest) rq)
      as (s1 & H1); try assumption.
    destruct (ConvertThread_iter_good s true s1)
      as (d' & bq' & arr' & fq' & key' & fo' & pq' & E1 & E2 & E3 & _ & _ & _ & Eb & Ef & Eo
          & Erq & Eps & Elog & Er & _);
      try assumption; try (rewrite ?Hb, ?Hf, ?Ho, ?Hq; reflexivity).
    rewrite Hb in E1. rewrite Hf in E2. rewrite Ho in E3. rewrite Hq in Erq. simpl in *.
    injection E1 as <- <-. injection E2 as <- <-. injection E3 as <- <-.
    destruct (IH fuel bufs ks s1 fq_rest fo_rest (rq ++ [arr]))
      as (s' & HL & Hrd & Hfq & Hk & Hbq & Hlog); try assumption; try lia.
    { rewrite Eps. eapply Forall_impl; [exact Hsl|]. intros x Hx. apply slot_ok_insert. exact Hx. }
    exists s'. simpl. unfold bind. rewrite H1. split; [exact HL|].
    rewrite Hrd, <- app_assoc. split; [reflexivity|]. split; [exact Hfq|].
    split; [exact Hk|]. split; [exact Hbq|].
    rewrite Hlog, Elog, <- app_assoc. reflexivity.
Qed.

(** ** Restarting *)

(** [Clear] is [Stop_signal] followed by what the caller resumes. *)
Lemma Clear_in_two_steps s :
  Clear s =
    match Stop_signal s with
    | (Ret entered, s1) => Stop_resume entered true s1
    | (Fatal e, s1) => (Fatal e, s1)
    | (Blocks, s1) => (Blocks, s1)
    end.
Proof.
  unfold Clear, Stop, Stop_resume, bind.
  destruct (Stop_signal s) as [[entered| |] s1]; [|reflexivity..].
  destruct (Stop_finish entered s1) as [[[]| |] s2]; reflexivity.
Qed.

(** [Clear], then [Start], from a reachable state. *)
Lemma restart_effect k st :
  reachable k st -> pc st = Idle ->
  exists st',
    run_events k [CallClear; StopResume; CallStart] st = Some st' /\
    Start k (snd (Clear (dec st))) = (Ret tt, dec st') /\
    fst (Clear (dec st)) = Ret tt /\
    st' = mkSys (dec st') Idle (pushed st) (popped st) /\
    pc st' = Idle /\ run_ (dec st') = true /\
    joinable (launcher_t_ (dec st')) = true /\
    joinable (converter_t_ (dec st')) = true /\
    permits_ (dec st') = replicate k (Some (mkQueue [1%Z] false)) /\
    frame_count_ (dec st') = 0%Z /\ reorder_buffer_ (dec st') = ∅ /\
    contents (pkt_queue_ (dec st')) = [] /\
    contents (frame_queue_ (dec st')) = [] /\
    contents (buffer_queue_ (dec st')) = [] /\
    keys (dec st') = [] /\ ready (dec st') = [] /\
    last_pts_ (dec st') = last_pts_ (dec st) /\
    draining_ (dec st') = draining_ (dec st) /\
    pushed st' = pushed st /\ popped st' = popped st.
Proof.
  intros Hr Hpc. apply reachable_life in Hr.
  destruct (Clear_effect (dec st) (life_running st Hr))
    as (s1 & Hc & Hfc & Hrb & Hp & Hrun & Hl & Hcv & Hlp & Hd & _).
  destruct (Start_fresh k s1 Hrun Hp Hl Hcv)
    as (s2 & Hs & Hr2 & Hpq & Hfq & Hbq & Hrq & Hfo & Hp2 & Hlp2 & Hd2 & Hfc2 & Hrb2
        & Hl2 & Hc2 & _).
  destruct st as [s p pu po]. cbn [dec pc pushed popped] in *. subst p.
  exists (mkSys s2 Idle pu po).
  assert (Hc0 := Hc). rewrite Clear_in_two_steps in Hc.
  destruct (Stop_signal s) as [[entered| |] s0] eqn:E; try discriminate Hc.
  split.
  { rewrite run_events_cons. unfold exec at 1. cbn [pc dec pushed popped]. rewrite E.
    rewrite run_events_cons. unfold exec at 1. cbn [pc dec pushed popped]. rewrite Hc.
    rewrite run_events_cons. unfold exec at 1. cbn [pc dec pushed popped]. rewrite Hs.
    reflexivity. }
  cbn [dec pc pushed popped]. rewrite Hc0. simpl.
  split; [exact Hs|]. split; [reflexivity|]. split; [reflexivity|].
  unfold keys, ready.
  rewrite Hpq, Hfq, Hbq, Hrq, Hfo, Hl2, Hc2. simpl.
  repeat split; try assumption; try reflexivity; congruence.
Qed.

(** A cleared object: [Clear] has nothing left to do. *)
Lemma Clear_cleared s :
  run_ s = false -> joinable (launcher_t_ s) = false ->
  joinable (converter_t_ s) = false -> permits_ s = [] ->
  frame_count_ s = 0%Z -> reorder_buffer_ s = ∅ ->
  Clear s = (Ret tt, s).
Proof. intros H1 H2 H3 H4 H5 H6. open_state s. reflexivity. Qed.

(** X24.  [Clear] is idempotent: on an object that has been cleared, a
    second [Clear], and so the destructor, returns and changes nothing. *)
Theorem Clear_idempotent s :
  (run_ s = true -> allocated s) ->
  exists s', Clear s = (Ret tt, s') /\ Clear s' = (Ret tt, s') /\
    destroy s' = (Ret tt, s').
Proof.
  intros Ha.
  destruct (Clear_effect s Ha) as (s' & Hc & Hfc & Hrb & Hp & Hr & Hl & Hcv & _).
  exists s'. split; [exact Hc|]. split; apply Clear_cleared; assumption.
Qed.

(** ** The packets on their way to the parser *)




(** ** A later session *)

(** The transitions do not look at what was pushed and popped before. *)
Lemma exec_since k e pu0 po0 st :
  exec k e (since pu0 po0 st) = option_map (since pu0 po0) (exec k e st).
Proof.
  destruct st as [s p pu po]. unfold since, exec, thread_turn, callback.
  cbn [dec pc pushed popped].
  destruct e, p; try reflexivity.
  - destruct (Start k s) as [[| |] ?]; reflexivity.
  - destruct (Stop_signal s) as [[| |] ?]; reflexivity.
  - destruct (Stop_signal s) as [[| |] ?]; reflexivity.
  - destruct (Push pkt buf s) as [[| |] ?]; try reflexivity.
    simpl. unfold since. simpl. rewrite app_assoc. reflexivity.
  - destruct (Pop s) as [[[]| |] ?]; try reflexivity.
    simpl. unfold since. simpl. rewrite app_assoc. reflexivity.
  - destruct (Stop_resume entered clearing s) as [[| |] ?]; reflexivity.
  - destruct (joinable _); [|reflexivity].
    destruct (LaunchThread_iter s) as [[| |] ?]; reflexivity.
  - destruct (joinable _); [|reflexivity].
    destruct (LaunchThread_iter s) as [[| |] ?]; reflexivity.
  - destruct (joinable _); [|reflexivity].
    destruct (ConvertThread_iter s) as [[| |] ?]; reflexivity.
  - destruct (joinable _); [|reflexivity].
    destruct (ConvertThread_iter s) as [[| |] ?]; reflexivity.
  - destruct (HandlePictureDecode_ CurrPicIdx s) as [[| |] ?]; reflexivity.
  - destruct (HandlePictureDecode_ CurrPicIdx s) as [[| |] ?]; reflexivity.
  - destruct (engine_may_display _ _); [|reflexivity].
    destruct (HandlePictureDisplay_ disp_info s) as [[| |] ?]; reflexivity.
  - destruct (engine_may_display _ _); [|reflexivity].
    destruct (HandlePictureDisplay_ disp_info s) as [[| |] ?]; reflexivity.
Qed.

Lemma run_events_since k pu0 po0 tr : forall st,
  run_events k tr (since pu0 po0 st)
  = option_map (since pu0 po0) (run_events k tr st).
Proof.
  induction tr as [|e tr IH]; intros st; simpl; [reflexivity|].
  rewrite exec_since. destruct (exec k e st) as [st1|]; simpl; [apply IH|reflexivity].
Qed.

(** The state a successful [Start] leaves, on an object that was cleared and
    has not been drained, taken as the beginning of the records. *)
Lemma restarted_session_inv k s0 s :
  run_ s0 = false -> permits_ s0 = [] ->
  joinable (launcher_t_ s0) = false -> joinable (converter_t_ s0) = false ->
  frame_count_ s0 = 0%Z -> draining_ s0 = false ->
  Start k s0 = (Ret tt, s) ->
  session_inv (mkSys s Idle [] []) /\
  count any_display (session (log s)) = 0.
Proof.
  intros Hr Hp Hl Hcv Hfc0 Hd0 H.
  destruct (Start_fresh k s0 Hr Hp Hl Hcv)
    as (s' & Hs & Hr' & Hpq & Hfq & Hbq & Hrq & Hfo & Hp' & Hlp & Hd & Hfc & Hrb & Hl'
        & Hc & Hlog).
  rewrite Hs in H. injection H as <-.
  assert (Hses : session (log s') = [ObsSpawn LaunchThread; ObsSpawn ConvertThread]).
  { rewrite Hlog. apply session_snoc_init. reflexivity. }
  split; [|rewrite Hses; reflexivity].
  constructor; cbn [dec pc pushed popped].
  - reflexivity.
  - exact Hr'.
  - rewrite Hc. reflexivity.
  - rewrite Hpq. eauto.
  - rewrite Hfq, Hbq, Hrq, Hfo. auto.
  - rewrite Hfq, Hrq. reflexivity.
  - rewrite Hfq, Hfo. reflexivity.
  - rewrite Hfq, Hrq, Hfc, Hfc0. reflexivity.
  - rewrite Hbq, Hrq, Hses. reflexivity.
  - rewrite Hd, Hd0. reflexivity.
  - rewrite Hbq. constructor.
  - intros slot Hlt. exfalso. unfold submitted in Hlt. rewrite Hses in Hlt.
    simpl in Hlt. clear -Hlt. lia.
Qed.

(** Order preservation, from the beginning of any session. *)
Lemma drained_from k (pkts : list AVPacket) (bufs : list nat)
    (eos_buf : NDArray) tr st0 st :
  session_inv st0 -> count any_display (session (log (dec st0))) = 0 ->
  length pkts = length bufs -> NoDup bufs ->
  forallb session_event tr = true ->
  run_events k tr st0 = Some st ->
  pushed st = submission pkts bufs ++ [(None, eos_buf)] ->
  count_events is_display_event tr = length pkts ->
  (exists rest, map Some bufs = popped st ++ rest) /\
  exists n m st',
    run_events k (replicate n ConvertTurn ++ replicate m CallPop) st = Some st' /\
    popped st' = map Some bufs /\
    Pop (dec st') = (Ret None, dec st').
Proof.
  intros Hi0 Hc0 Hlen Hnd Hev Htr Hpu Hdisp.
  destruct (session_run k tr st0 st Hi0 Hev Htr) as [Hi Hc].
  rewrite Hc0, Hdisp in Hc. simpl in Hc.
  pose proof Hi as Hi'. open_inv Hi'.
  assert (Hsnd : map snd (pushed st) = map Some bufs ++ [eos_buf]).
  { rewrite Hpu, map_app, submission_snd by exact Hlen. reflexivity. }
  assert (Heos : n_eos (pushed st) = 1).
  { rewrite Hpu, n_eos_app, submission_no_eos. reflexivity. }
  set (po := popped st) in *. set (rq := contents (reorder_queue_ (dec st))) in *.
  set (fq := contents (frame_queue_ (dec st))) in *.
  set (fo := contents (frame_order_ (dec st))) in *.
  set (bq := contents (buffer_queue_ (dec st))) in *.
  rewrite Hsnd in Hord. rewrite Heos in Hkeys.
  destruct (nonempty_snoc fq) as (fq0 & last & Hfq).
  { intros Hn. rewrite Hn in Hkeys. simpl in Hkeys. lia. }
  rewrite Hfq in Hord, Hkeys. rewrite !app_assoc in Hord.
  apply app_inj_tail in Hord as [HB Hlast]. rewrite <- !app_assoc in HB.
  rewrite length_app in Hkeys. simpl in Hkeys.
  assert (HlenB : length bufs = length po + length rq + length fq0).
  { rewrite <- (length_map Some bufs), HB, !length_app. lia. }
  assert (Hbq : length bq = length fo) by lia.
  split; [exists (rq ++ fq0); exact HB|].
  assert (Hdefined : Forall (fun a : NDArray => defined a = true) (map Some bufs)).
  { apply Forall_forall. intros x Hx. apply list_elem_of_fmap in Hx as (b & -> & _).
    reflexivity. }
  destruct (drain_convert k (length bq) st Hi eq_refl)
    as (st1 & Hrun1 & Hi1 & Hbq1 & Hpo1 & Hpu1 & _).
  { fold fo. lia. }
  { fold fq. rewrite Hfq, take_app_length' by lia.
    rewrite HB in Hdefined. apply Forall_app in Hdefined as [_ Hd].
    apply Forall_app in Hd as [_ Hd]. exact Hd. }
  assert (Hev1 : forallb session_event (replicate (length bq) ConvertTurn) = true).
  { apply forallb_replicate. reflexivity. }
  assert (Hd1 : count_events is_display_event (replicate (length bq) ConvertTurn) = 0).
  { apply count_events_replicate. reflexivity. }
  destruct (session_run k _ st st1 Hi Hev1 Hrun1) as [_ Hc1]. rewrite Hc, Hd1 in Hc1.
  pose proof Hi1 as Hi1'.
  destruct Hi1' as [_ _ _ _ (_ & _ & Hlr1 & _) Hord1 Hkeys1 _ Hshown1 _ _ _].
  rewrite Hpu1, Hsnd, Hpo1 in Hord1. rewrite Hbq1, Hpo1, Hc1 in Hshown1.
  simpl in Hshown1. fold po in Hord1, Hshown1.
  set (rq1 := contents (reorder_queue_ (dec st1))) in *.
  set (fq1 := contents (frame_queue_ (dec st1))) in *.
  assert (Hfq1 : length fq1 = 1).
  { apply (f_equal length) in Hord1. rewrite !length_app, length_map in Hord1.
    simpl in Hord1. lia. }
  destruct fq1 as [|x1 [|? ?]]; try discriminate Hfq1.
  rewrite !app_assoc in Hord1. apply app_inj_tail in Hord1 as [HB1 _].
  destruct (drain_pop k (length rq1) st1 Hi1 eq_refl) as (st2 & Hrun2 & Hi2 & Hpo2 & Hrq2 & _).
  fold rq1 in Hpo2. rewrite Hpo1 in Hpo2. fold po in Hpo2. rewrite <- HB1 in Hpo2.
  exists (length bq), (length rq1), st2.
  split; [rewrite run_events_app, Hrun1; exact Hrun2|].
  split; [exact Hpo2|].
  destruct Hi2 as [_ _ _ _ (_ & _ & Hlr2 & _) _ _ _ _ _ _ _].
  destruct (live_Some _ Hlr2) as [l Hl]. rewrite Hl in Hrq2. simpl in Hrq2. subst l.
  eapply Pop_empty; [exact Hl|reflexivity].
Qed.

(** X26.  Order preservation in a later session.  A decoder in a
    reachable state, to which the end-of-stream marker has never been
    pushed, is cleared and started again; the caller, the threads and the
    engine then act in any interleaving that keeps the session going.  If by
    its end the caller has pushed [N] further packets with the [N] distinct
    buffers [bufs] and then the marker, and the engine has signalled [N]
    surfaces, then the frames popped since the restart are the first buffers
    of [bufs], and letting the converter take its remaining turns and then
    calling [Pop] returns all of [bufs] in submission order, after which
    [Pop] answers "not found". *)
Theorem order_preservation_after_restart k st0 (pkts : list AVPacket)
    (bufs : list nat) (eos_buf : NDArray) tr st :
  reachable k st0 -> pc st0 = Idle -> draining_ (dec st0) = false ->
  length pkts = length bufs -> NoDup bufs ->
  forallb session_event tr = true ->
  run_events k ([CallClear; StopResume; CallStart] ++ tr) st0 = Some st ->
  pushed st = pushed st0 ++ submission pkts bufs ++ [(None, eos_buf)] ->
  count_events is_display_event tr = length pkts ->
  (exists rest, popped st0 ++ map Some bufs = popped st ++ rest) /\
  exists n m st',
    run_events k (replicate n ConvertTurn ++ replicate m CallPop) st = Some st' /\
    popped st' = popped st0 ++ map Some bufs /\
    Pop (dec st') = (Ret None, dec st').
Proof.
  intros Hre Hpc Hd0 Hlen Hnd Hev Htr Hpu Hdisp.
  destruct (restart_effect k st0 Hre Hpc) as (st1 & H1 & Hs & Hcl & Hst1 & _).
  rewrite run_events_app, H1 in Htr.
  apply reachable_life in Hre.
  destruct (Clear_effect (dec st0) (life_running st0 Hre))
    as (s1 & Hc & Hfc & _ & Hp & Hrun & Hl & Hcv & _ & Hd & _).
  rewrite Hc in Hs. simpl in Hs.
  destruct (restarted_session_inv k s1 (dec st1) Hrun Hp Hl Hcv Hfc) as [Hi Hc0];
    [congruence | exact Hs |].
  set (base := mkSys (dec st1) Idle [] []) in *.
  assert (E1 : st1 = since (pushed st0) (popped st0) base).
  { rewrite Hst1 at 1. unfold since, base. simpl. rewrite !app_nil_r. reflexivity. }
  rewrite E1, run_events_since in Htr.
  destruct (run_events k tr base) as [st'|] eqn:Eb; [|discriminate].
  simpl in Htr. injection Htr as <-.
  unfold since in Hpu. simpl in Hpu. apply app_inv_head in Hpu.
  destruct (drained_from k pkts bufs eos_buf tr base st' Hi Hc0 Hlen Hnd Hev Eb Hpu Hdisp)
    as ((rest & Hrest) & n & m & st2 & Hrun2 & Hpo2 & Hpop2).
  split.
  { exists rest. unfold since. simpl. rewrite Hrest, app_assoc. reflexivity. }
  exists n, m, (since (pushed st0) (popped st0) st2).
  rewrite run_events_since, Hrun2. split; [reflexivity|].
  split; [unfold since; simpl; rewrite Hpo2; reflexivity|]. exact Hpop2.
Qed.

(** ** The process, one blocking call at a time *)

(** ** Inside [Clear] *)

Ltac open_ci Hi :=
  destruct Hi as [Hal Hrun (Hpq & Hfq & Hbq & Hrq & Hfo) (Hpl & Hpv) (Hwf & Hheld) Hch Hlr Hcl].

Lemma is_Some_lookup k (ps : list (option (BlockingQueue Z))) slot :
  length ps = k -> Forall is_Some ps -> surface_index k slot ->
  exists q, ps !! Z.to_nat slot = Some (Some q) /\
    (0 <=? slot)%Z = true /\ (slot <? Z.of_nat (length ps))%Z = true.
Proof.
  intros Hl Hv [H0 H1].
  destruct (lookup_lt_is_Some_2 ps (Z.to_nat slot)) as [o Ho]; [lia|].
  pose proof (Forall_lookup_1 _ _ _ _ Hv Ho) as [q ->].
  exists q. split; [exact Ho|]. split; [apply Z.leb_le; lia | apply Z.ltb_lt; lia].
Qed.

Lemma is_Some_insert (ps : list (option (BlockingQueue Z))) i q :
  Forall is_Some ps -> Forall is_Some (<[i := Some q]> ps).
Proof.
  intros H. destruct (decide (i < length ps)) as [Hlt|Hge].
  - apply Forall_insert; [exact H|]. eauto.
  - rewrite list_insert_ge by lia. exact H.
Qed.

Lemma is_Some_kill ps : Forall is_Some ps -> Forall is_Some (kill_permits ps).
Proof.
  unfold kill_permits. intros H. apply Forall_fmap. eapply Forall_impl; [exact H|].
  intros x [q ->]. simpl. eauto.
Qed.

(** [Clear], called in a session while the converter does not wait for a
    buffer, takes the caller into [Stop]. *)
Lemma clearing_begins k p :
  stepwise_inv k p -> wants_frame (converter p) = 0 ->
  exists p1, step k CallClear p = Some p1 /\ clearing_inv k p1 /\
    pushes p1 = pushes p /\ pops p1 = pops p /\
    last_pts_ (this p1) = last_pts_ (this p) /\
    draining_ (this p1) = draining_ (this p).
Proof.
  intros Hi Hw. open_fine p Hi. unfold step, after_call. simpl.
  eexists. split; [reflexivity|]. split; [|repeat split].
  constructor; simpl; auto.
  - unfold allocated. simpl. repeat split; eauto.
  - split; [reflexivity|]. eapply Forall_impl; [exact Hpv|]. intros x (q & -> & _). eauto.
  - split; [exact Hw|]. apply Forall_app in Hrb as [_ H]. exact H.
  - discriminate.
Qed.

Definition same_session (p p' : process) : Prop :=
  pushes p' = pushes p /\ pops p' = pops p /\
  last_pts_ (this p') = last_pts_ (this p) /\
  draining_ (this p') = draining_ (this p).

Ltac open_clearing p Hi :=
  open_ci Hi; open_process p; subst;
  repeat match goal with
  | H : is_Some (pkt_queue_ _) |- _ => destruct H as [[ipq kpq] H]
  | H : is_Some (frame_queue_ _) |- _ => destruct H as [[ifq kfq] H]
  | H : is_Some (buffer_queue_ _) |- _ => destruct H as [[ibq kbq] H]
  | H : is_Some (reorder_queue_ _) |- _ => destruct H as [[irq krq] H]
  | H : is_Some (frame_order_ _) |- _ => destruct H as [[ifo kfo] H]
  end;
  match goal with s : CUThreadedDecoder |- _ => open_state s end;
  simpl in *.

Ltac ci_tac :=
  try solve [auto];
  try solve [unfold allocated; simpl; repeat split; eauto];
  try solve [split; [unfold kill_permits; apply length_map|apply is_Some_kill; assumption]];
  try solve [split; [apply length_insert|apply is_Some_insert; assumption]];
  try solve [match goal with cl : caller_at |- _ => destruct cl; simpl in *; auto end];
  try solve [split; [reflexivity|constructor]];
  try solve [split; [reflexivity|assumption]].

Lemma clearing_step k e p p' :
  clearing_inv k p -> stopping_event e = true -> step k e p = Some p' ->
  (clearing_inv k p' \/ cleared p') /\ same_session p p'.
Proof.
  intros Hi He H. open_clearing p Hi. unfold same_session.
  destruct e; try discriminate He; unfold step, after_call, after_turn in H; simpl in H.
  - (* the caller goes on *)
    destruct cl as [|c|c|c]; [contradiction| | |].
    + destruct Hcl as [-> Hjl]. subst. brute H.
      split; [|repeat split]. left. constructor; simpl; ci_tac.
    + destruct Hcl as [-> Hlo]. brute H.
      all: split; [|repeat split]; left; constructor; simpl; ci_tac.
      all: intros _; destruct la; simpl in *; try reflexivity; try discriminate;
        try (apply Hlr; reflexivity).
    + destruct Hcl as (-> & Hjl & Hlo). subst. brute H.
      all: split; [|repeat split]; right; unfold cleared; simpl.
      all: destruct cv; simpl in *; try discriminate; repeat split; auto.
      all: apply Hlr; reflexivity.
  - (* the launcher *)
    brute H. split; [|repeat split]. left. constructor; simpl; ci_tac.
  - (* the converter *)
    destruct cv as [|di|di arr|di|]; simpl in *; try discriminate.
    + brute H. split; [|repeat split]. left. constructor; simpl; ci_tac.
    + unfold ConvertThread_step, reconcile in H. unfold_m in H. simpl in H. unfold bq_Pop, bq_Push in H. simpl in H.
      destruct kfo; simpl in H.
      { simplify_eq. split; [|repeat split]. left. constructor; simpl; ci_tac. }
      destruct ifo as [|key rest]; simpl in H; [discriminate|].
      destruct (key =? timestamp di)%Z; simpl in H; rewrite ?lookup_insert_eq in H; simpl in H; simplify_eq.
      all: split; [|repeat split]; left; constructor; simpl; ci_tac.
    + apply Forall_cons in Hheld as [Hd _].
      destruct (is_Some_lookup _ ps _ eq_refl Hpv Hd) as (q & Hq & E0 & _).
      unfold ConvertThread_step, permit_at in H. unfold_m in H. simpl in H.
      rewrite E0, Hq in H. simpl in H. simplify_eq.
      split; [|repeat split]. left. constructor; simpl; ci_tac.
  - (* a decode request *)
    destruct (_ <? pictures _) eqn:Ereq; [|discriminate]. simpl in H.
    destruct (0 <=? CurrPicIdx)%Z eqn:E0; [|discriminate]. simpl in H.
    destruct (CurrPicIdx <? Z.of_nat (length ps))%Z eqn:E1; [|discriminate].
    assert (Hs : surface_index (length ps) CurrPicIdx).
    { apply Z.leb_le in E0. apply Z.ltb_lt in E1. split; assumption. }
    destruct (is_Some_lookup _ ps _ eq_refl Hpv Hs) as ([its kl] & Hq & _ & _).
    unfold HandlePictureDecode_, permit_at in H. unfold_m in H. simpl in H.
    rewrite E0 in H. simpl in H. rewrite E1 in H. simpl in H. rewrite Hq in H. simpl in H.
    unfold bq_Size, bq_Pop in H. simpl in H.
    destruct its as [|tok its]; simpl in H; [discriminate|].
    destruct kl; simpl in H; simplify_eq.
    all: split; [|repeat split]; left; constructor; simpl; ci_tac.
  - (* a display-ready notification *)
    destruct (take_slot (picture_index disp_info) aw) as [rest|] eqn:E; [|discriminate].
    brute H. split; [|repeat split]. left. constructor; simpl; ci_tac.
Qed.

(** Inside [Clear] the caller, or the thread it waits for, can always take
    a step that brings the return of [Clear] nearer. *)
Lemma clearing_progress k p :
  clearing_inv k p ->
  exists e p', stopping_event e = true /\ step k e p = Some p' /\
    (cleared p' \/ clearing_work p' < clearing_work p).
Proof.
  intros Hi. open_clearing p Hi. unfold clearing_work, cleared.
  destruct cl as [|c|c|c]; [contradiction| | |].
  - destruct Hcl as [-> ->]. exists StopResume. unfold step, after_call. simpl.
    eexists. split; [reflexivity|]. split; [reflexivity|]. right. simpl.
    destruct (launcher_returned la), cv; simpl; lia.
  - destruct Hcl as [-> Hlo]. destruct lt, la; simpl.
    + exists LaunchTurn. unfold step, after_turn. simpl.
      eexists. split; [reflexivity|]. split; [reflexivity|]. right. simpl. destruct cv; simpl; lia.
    + exists StopResume. unfold step, after_call. simpl.
      eexists. split; [reflexivity|]. split; [reflexivity|]. right. simpl. destruct cv; simpl; lia.
    + exists StopResume. unfold step, after_call. simpl.
      eexists. split; [reflexivity|]. split; [reflexivity|]. right. simpl. destruct cv; simpl; lia.
    + exists StopResume. unfold step, after_call. simpl.
      eexists. split; [reflexivity|]. split; [reflexivity|]. right. simpl. destruct cv; simpl; lia.
  - destruct Hcl as (-> & -> & Hlo). apply negb_false_iff in Hlo. subst.
    specialize (Hlr eq_refl). subst la.
    destruct cv as [|di|di arr|di|]; simpl in *; try discriminate.
    + exists ConvertTurn. unfold step, after_turn. simpl.
      eexists. split; [reflexivity|]. split; [reflexivity|]. right. simpl. lia.
    + exists ConvertTurn. unfold step, after_turn. simpl.
      eexists. split; [reflexivity|]. split; [reflexivity|]. right. simpl. lia.
    + apply Forall_cons in Hheld as [Hd _].
      destruct (is_Some_lookup _ ps _ eq_refl Hpv Hd) as (q & Hq & E0 & _).
      exists ConvertTurn. unfold step, after_turn. simpl.
      unfold permit_at. unfold_m. simpl. rewrite E0, Hq. simpl.
      eexists. split; [reflexivity|]. split; [reflexivity|]. right. simpl. lia.
    + exists StopResume. unfold step, after_call. simpl.
      eexists. split; [reflexivity|]. split; [reflexivity|]. left. simpl. repeat split; reflexivity.
Qed.

Lemma same_session_refl p : same_session p p.
Proof. unfold same_session. auto. Qed.

Lemma same_session_trans p1 p2 p3 :
  same_session p1 p2 -> same_session p2 p3 -> same_session p1 p3.
Proof. unfold same_session. intros (?&?&?&?) (?&?&?&?). repeat split; congruence. Qed.

(** [Clear] can return. *)
Lemma clearing_finish k : forall n p,
  clearing_work p = n -> clearing_inv k p ->
  exists tr p',
    forallb stopping_event tr = true /\ run_steps k tr p = Some p' /\
    cleared p' /\ same_session p p'.
Proof.
  intros n. induction n as [n IH] using lt_wf_ind. intros p Hn Hi.
  destruct (clearing_progress k p Hi) as (e & p1 & He & Hs & Hc).
  destruct (clearing_step k e p p1 Hi He Hs) as [Hi1 Hss].
  destruct Hc as [Hc|Hlt].
  - exists [e], p1. simpl. rewrite He, Hs. auto.
  - destruct Hi1 as [Hi1|Hc].
    + destruct (IH (clearing_work p1) ltac:(lia) p1 eq_refl Hi1) as (tr & p' & Htr & Hrun & Hc' & Hss').
      exists (e :: tr), p'. simpl. rewrite He, Hs. splits; auto.
      eapply same_session_trans; eauto.
    + exists [e], p1. simpl. rewrite He, Hs. auto.
Qed.


Lemma all_defined_buffers l : all_defined l -> defined_buffers l.
Proof. intros H i x Hx _. eapply Forall_lookup_1 in H; [|exact Hx]. exact H. Qed.



(** X22.  From a state of a first session in which every buffer pushed is
    defined and the converter is not waiting for the buffer of a surface it
    has taken, [Clear] can return and a [Start] that follows leaves a
    running pipeline: both threads at the top of their loops,
    [kMaxOutputSurfaces] permits of one token, empty queues, the frame
    counter at 0 and the Reorder Map empty.  [last_pts_] and [draining_] are
    what they were. *)
Theorem Clear_then_Start_restarts k tr p :
  forallb session_event tr = true ->
  run_steps k (CallStart :: tr) initial_process = Some p ->
  all_defined (pushes p) ->
  wants_frame (converter p) = 0 ->
  exists tr' p',
    forallb stopping_event tr' = true /\
    run_steps k (CallClear :: tr' ++ [CallStart]) p = Some p' /\
    caller p' = Between /\ aborted p' = false /\ run_ (this p') = true /\
    joinable (launcher_t_ (this p')) = true /\
    joinable (converter_t_ (this p')) = true /\
    launcher p' = InLaunchLoop /\ converter p' = AtBufferPop /\
    permits_ (this p') = replicate k (Some (mkQueue [1%Z] false)) /\
    frame_count_ (this p') = 0%Z /\ reorder_buffer_ (this p') = ∅ /\
    contents (pkt_queue_ (this p')) = [] /\
    contents (frame_queue_ (this p')) = [] /\
    contents (buffer_queue_ (this p')) = [] /\
    keys (this p') = [] /\ ready (this p') = [] /\
    last_pts_ (this p') = last_pts_ (this p) /\
    draining_ (this p') = draining_ (this p) /\
    pushes p' = pushes p /\ pops p' = pops p.
Proof.
  intros He Hrun Hdef Hw.
  pose proof (sw_first_session k tr p He Hrun (all_defined_buffers _ Hdef)) as Hi.
  destruct (clearing_begins k p Hi Hw) as (p1 & H1 & Hi1 & Hpu1 & Hpo1 & Hlp1 & Hd1).
  destruct (clearing_finish k _ p1 eq_refl Hi1) as (tr' & p2 & Htr & Hr & Hcl & Hss).
  destruct Hcl as (Hc2 & Ha2 & Hr2 & Hjl2 & Hjc2 & Hla2 & Hcv2 & Hp2 & Hfc2 & Hrb2).
  destruct Hss as (Hpu2 & Hpo2 & Hlp2 & Hd2).
  destruct (Start_fresh k (this p2) Hr2 Hp2 Hjl2 Hjc2)
    as (s3 & Hs & Hr3 & Hpq & Hfq & Hbq & Hrq & Hfo & Hp3 & Hlp3 & Hd3 & Hfc3 & Hrb3 & Hl3 & Hc3 & _).
  exists tr'. eexists. split; [exact Htr|]. split.
  { rewrite run_steps_cons, H1, run_steps_app, Hr. simpl.
    rewrite (step_CallStart k p2 Ha2 Hc2), Hs. unfold after_call, spawned. simpl.
    rewrite Hl3, Hjl2. simpl. rewrite Hc3, Hjc2. simpl. reflexivity. }
  simpl. unfold keys, ready. rewrite Hpq, Hfq, Hbq, Hrq, Hfo, Hl3, Hc3. simpl.
  splits; auto; congruence.
Qed.

(** X23.  In a first session in which every buffer pushed is defined, in
    every state of every interleaving of the caller, the engine and the
    threads cut at their blocking calls, the buffers pushed are, in this
    order: the frames popped, the frames in the output queue, the buffer the
    converter holds between [frame_queue_->Pop] and [reorder_queue_->Push],
    and the buffers in the frame queue.  No buffer is lost, duplicated or
    overtaken. *)
Theorem session_conservation k tr p :
  forallb session_event tr = true ->
  run_steps k (CallStart :: tr) initial_process = Some p ->
  all_defined (pushes p) ->
  map snd (pushes p) =
    pops p ++ ready (this p) ++ held_frame (converter p) ++
    contents (frame_queue_ (this p)).
Proof.
  intros He Hrun Hdef.
  apply (sw_order k p (sw_first_session k tr p He Hrun (all_defined_buffers _ Hdef))).
Qed.

(** * The further properties on concrete runs *)

Lemma restart_needs_Clear_witness :
  0 < 2 /\
  exists s1 s2 s3,
    Start 2 constructed = (Ret tt, s1) /\ Stop s1 = (Ret tt, s2) /\
    length (permits_ s2) = 2 /\ Start 2 s2 = (Fatal CheckFailed, s3).
Proof.
  assert (Hk : 0 < 2) by lia. split; [exact Hk|].
  destruct (restart_needs_Clear 2 constructed Hk)
    as (s1 & s2 & s3 & H1 & H2 & H3 & H4 & _); [reflexivity..|].
  exists s1, s2, s3. repeat (split; [assumption|]). exact H4.
Defined.

Lemma draining_never_reset_witness :
  run_events 2 restart_trace draining_state = Some restarted_state /\
  draining_ (dec draining_state) = true /\
  run_ (dec restarted_state) = true /\
  draining_ (dec restarted_state) = true /\
  Push None (Some 9) (dec restarted_state) = (Fatal CheckFailed, dec restarted_state).
Proof.
  assert (Hr : run_events 2 restart_trace draining_state = Some restarted_state).
  { vm_compute. reflexivity. }
  assert (Hd : draining_ (dec draining_state) = true) by reflexivity.
  split; [exact Hr|]. split; [exact Hd|]. split; [reflexivity|].
  apply (draining_never_reset 2 restart_trace draining_state restarted_state (Some 9) Hr Hd).
Defined.

Lemma Start_outcomes_witness :
  reachable 2 stopped_state /\ pc stopped_state = Idle /\
  run_ (dec stopped_state) = false /\ length (permits_ (dec stopped_state)) = 2 /\
  exists s', Start 2 (dec stopped_state) = (Fatal CheckFailed, s') /\ run_ s' = false.
Proof.
  assert (Hr : reachable 2 stopped_state).
  { exists [CallStart; CallStop; StopResume]. vm_compute. reflexivity. }
  assert (Hpc : pc stopped_state = Idle) by reflexivity.
  split; [exact Hr|]. split; [exact Hpc|]. split; [reflexivity|]. split; [reflexivity|].
  destruct (Start_outcomes 2 stopped_state Hr Hpc)
    as [[H _]|[(_ & _ & s' & H1 & H2 & _)|(_ & H & _)]].
  - discriminate H.
  - exists s'. split; assumption.
  - discriminate H.
Defined.

Lemma Push_succeeds_when_running_witness :
  reachable 2 draining_state /\ run_ (dec draining_state) = true /\
  draining_ (dec draining_state) = true /\
  exists s',
    Push (Some (mkPacket 100 100 10)) (Some 1) (dec draining_state) = (Ret tt, s') /\
    frame_count_ s' = 2%Z /\ length (keys s') = 1.
Proof.
  assert (Hr : reachable 2 draining_state).
  { exists [CallStart; CallPush None (Some 9)]. vm_compute. reflexivity. }
  assert (Hrun : run_ (dec draining_state) = true) by reflexivity.
  split; [exact Hr|]. split; [exact Hrun|]. split; [reflexivity|].
  destruct (Push_succeeds_when_running 2 draining_state
              (Some (mkPacket 100 100 10)) (Some 1) Hr Hrun)
    as (s' & H1 & _ & _ & H2 & H3 & _); [discriminate|].
  exists s'. split; [exact H1|]. split; [exact H2|exact H3].
Defined.

Lemma Pop_never_fails_witness :
  reachable 2 example_state /\
  exists o s', Pop (dec example_state) = (Ret o, s') /\
    (forall frame, o = Some frame -> (0 <= frame_count_ s')%Z).
Proof.
  assert (Hr : reachable 2 example_state).
  { exists (CallStart :: example_trace). vm_compute. reflexivity. }
  split; [exact Hr|].
  destruct (Pop_never_fails 2 example_state Hr) as (o & s' & H1 & _ & H2).
  exists o, s'. split; [exact H1|]. intros frame Hf.
  destruct (H2 frame Hf) as (rest & _ & _ & _ & H). exact H.
Defined.

Lemma frame_count_never_negative_witness :
  reachable 2 example_state /\
  frame_count_ (dec example_state) = 3%Z /\ ready (dec example_state) = [Some 2] /\
  (0 <= frame_count_ (dec example_state))%Z.
Proof.
  assert (Hr : reachable 2 example_state).
  { exists (CallStart :: example_trace). vm_compute. reflexivity. }
  split; [exact Hr|]. split; [reflexivity|]. split; [reflexivity|].
  destruct (frame_count_never_negative 2 example_state Hr) as [H _]. exact H.
Defined.

Lemma popped_in_submission_order_witness :
  reachable 2 example_state /\
  popped example_state = [Some 1] /\
  map snd (pushed example_state) = [Some 1; Some 2; Some 3; Some 9] /\
  sublist (popped example_state) (map snd (pushed example_state)).
Proof.
  assert (Hr : reachable 2 example_state).
  { exists (CallStart :: example_trace). vm_compute. reflexivity. }
  split; [exact Hr|]. split; [reflexivity|]. split; [reflexivity|].
  apply (popped_in_submission_order 2 example_state Hr).
Defined.

Lemma popped_defined_witness :
  reachable 2 example_state /\
  Forall (fun arr => defined arr = true) (popped example_state).
Proof.
  assert (Hr : reachable 2 example_state).
  { exists (CallStart :: example_trace). vm_compute. reflexivity. }
  split; [exact Hr|].
  destruct (popped_defined 2 example_state Hr) as [H _]. exact H.
Defined.


Lemma threads_return_after_Stop_witness :
  0 < 1 /\ run_ queued = true /\
  pkt_queue_ queued = Some (mkQueue queued_packets false) /\
  exists s1,
    Stop_signal queued = (Ret true, s1) /\
    contents (pkt_queue_ s1) = queued_packets /\
    LaunchThread_loop 1 s1 = (Ret (Some tt), s1) /\
    ConvertThread_loop 1 s1 = (Ret (Some tt), s1).
Proof.
  assert (Hf : 0 < 1) by lia.
  assert (Hr : run_ queued = true) by reflexivity.
  assert (Hq : pkt_queue_ queued = Some (mkQueue queued_packets false)) by reflexivity.
  split; [exact Hf|]. split; [exact Hr|]. split; [exact Hq|].
  destruct (threads_return_after_Stop 1 queued _ Hf Hr Hq)
    as (s1 & H1 & H2 & _ & _ & H3 & H4 & _).
  exists s1. repeat (split; [assumption|]). exact H4.
Defined.


Lemma decode_request_not_woken_by_Stop_witness :
  run_ started = true /\ allocated started /\
  permits_ started !! Z.to_nat 0 = Some (Some (mkQueue [1%Z] false)) /\
  exists s1 s2,
    HandlePictureDecode_ 0 started = (Ret 1%Z, s1) /\
    HandlePictureDecode_ 0 s1 = (Blocks, s1) /\
    Stop s1 = (Ret tt, s2) /\
    HandlePictureDecode_ 0 s2 = (Blocks, s2).
Proof.
  assert (Hr : run_ started = true) by reflexivity.
  assert (Ha : allocated started) by (vm_compute; repeat split; eauto).
  assert (Hq : permits_ started !! Z.to_nat 0 = Some (Some (mkQueue [1%Z] false)))
    by reflexivity.
  split; [exact Hr|]. split; [exact Ha|]. split; [exact Hq|].
  destruct (decode_request_not_woken_by_Stop 0%Z started (mkQueue [1%Z] false) 1%Z Hr Ha) as
    (s1 & s2 & H1 & H2 & H3 & _ & H4); [lia | exact Hq | reflexivity | reflexivity |].
  exists s1, s2. repeat (split; [assumption|]). exact H4.
Defined.

Lemma permit_round_trip_witness :
  run_ one_pushed = true /\
  permits_ one_pushed !! Z.to_nat 0 = Some (Some (mkQueue [1%Z] false)) /\
  frame_queue_ one_pushed = Some (mkQueue [Some 1] false) /\
  frame_order_ one_pushed = Some (mkQueue [100%Z] false) /\
  exists s1 s2 s3,
    HandlePictureDecode_ 0 one_pushed = (Ret 1%Z, s1) /\
    HandlePictureDisplay_ (mkDisp 0 100) s1 = (Ret 1%Z, s2) /\
    ConvertThread_iter s2 = (Ret true, s3) /\
    permits_ s3 = permits_ one_pushed /\ ready s3 = [Some 1].
Proof.
  assert (Hr : run_ one_pushed = true) by reflexivity.
  assert (Hq : permits_ one_pushed !! Z.to_nat 0 = Some (Some (mkQueue [1%Z] false)))
    by reflexivity.
  assert (Hf : frame_queue_ one_pushed = Some (mkQueue [Some 1] false)) by reflexivity.
  assert (Ho : frame_order_ one_pushed = Some (mkQueue [100%Z] false)) by reflexivity.
  split; [exact Hr|]. split; [exact Hq|]. split; [exact Hf|]. split; [exact Ho|].
  destruct (permit_round_trip 0%Z 100%Z one_pushed (Some 1) [] 100%Z [] [] Hr)
    as (s1 & s2 & s3 & H1 & _ & H2 & H3 & H4 & _ & H5 & _);
    [lia | exact Hq | reflexivity | exact Hf | reflexivity | exact Ho | reflexivity |].
  exists s1, s2, s3. repeat (split; [assumption|]). exact H5.
Defined.

Lemma empty_packet_parsed_as_end_of_stream_witness :
  size (mkPacket 200 100 0) = 0%Z /\ run_ started = true /\
  exists s1 s2,
    Push (Some (mkPacket 200 100 0)) (Some 2) started = (Ret tt, s1) /\
    draining_ s1 = false /\ keys s1 = [200%Z] /\
    LaunchThread_iter s1 = (Ret true, s2) /\
    log s2 = log started ++ [ObsParse None].
Proof.
  assert (Hs : size (mkPacket 200 100 0) = 0%Z) by reflexivity.
  assert (Hr : run_ started = true) by reflexivity.
  split; [exact Hs|]. split; [exact Hr|].
  destruct (empty_packet_parsed_as_end_of_stream started (mkPacket 200 100 0) (Some 2)
              bq_new bq_new Hs Hr)
    as (s1 & s2 & H1 & H2 & _ & _ & _ & H3 & H4 & _); [reflexivity..|].
  exists s1, s2. split; [exact H1|]. split; [exact H2|].
  split; [|split; [exact H3|exact H4]].
  assert (E : s1 = snd (Push (Some (mkPacket 200 100 0)) (Some 2) started))
    by (rewrite H1; reflexivity).
  rewrite E. reflexivity.
Defined.

Lemma converter_fails_when_frame_queue_killed_witness :
  run_ started = true /\ allocated started /\
  exists s1,
    ConvertThread_convert (mkDisp 0 100) started = (Blocks, started) /\
    Stop started = (Ret tt, s1) /\
    ConvertThread_convert (mkDisp 0 100) s1 = (Fatal CheckFailed, s1).
Proof.
  assert (Hr : run_ started = true) by reflexivity.
  assert (Ha : allocated started) by (vm_compute; repeat split; eauto).
  split; [exact Hr|]. split; [exact Ha|].
  destruct (converter_fails_when_frame_queue_killed (mkDisp 0 100) started Hr Ha)
    as (s1 & H1 & H2 & H3).
  exists s1. split; [apply H3; reflexivity|]. split; assumption.
Defined.

Lemma SetCodecContext_restarts_witness :
  (run_ (pipeline running_decoder) = true -> allocated (pipeline running_decoder)) /\
  run_ (pipeline running_decoder) = true /\
  last_pts_ (pipeline running_decoder) = 100%Z /\
  contents (frame_queue_ (pipeline running_decoder)) = [Some 1] /\
  exists o',
    SetCodecContext 2 (Some example_context) 640 480 true running_decoder = (Ret tt, o') /\
    run_ (pipeline o') = true /\ width_ o' = 640%Z /\ height_ o' = 480%Z /\
    last_pts_ (pipeline o') = 100%Z /\
    contents (frame_queue_ (pipeline o')) = [] /\ frame_count_ (pipeline o') = 0%Z.
Proof.
  assert (Ha : run_ (pipeline running_decoder) = true -> allocated (pipeline running_decoder)).
  { intros _. vm_compute. repeat split; eauto. }
  split; [exact Ha|]. split; [reflexivity|]. split; [reflexivity|]. split; [reflexivity|].
  destruct (SetCodecContext_restarts 2 example_context 640 480 running_decoder Ha)
    as (o' & H1 & H2 & H3 & H4 & _ & H5 & _ & H6 & _ & H7).
  change (run_ (pipeline running_decoder)) with true in H2, H7.
  destruct H7 as (_ & _ & H8 & _).
  exists o'. repeat (split; [assumption|]). exact H5.
Defined.

Lemma SetCodecContext_failures_witness :
  (run_ (pipeline running_decoder) = true -> allocated (pipeline running_decoder)) /\
  SetCodecContext 2 None 640 480 true running_decoder
    = (Fatal CheckFailed, running_decoder) /\
  exists o',
    SetCodecContext 2 (Some example_context) 640 480 false running_decoder
      = (Fatal CheckFailed, o') /\
    run_ (pipeline o') = false.
Proof.
  assert (Ha : run_ (pipeline running_decoder) = true -> allocated (pipeline running_decoder)).
  { intros _. vm_compute. repeat split; eauto. }
  split; [exact Ha|].
  destruct (SetCodecContext_failures 2 640 480 running_decoder) as [H0 H].
  split; [exact H0|].
  destruct (H example_context Ha) as (o' & H1 & H2 & _).
  exists o'. split; assumption.
Defined.

Lemma sequence_callback_overrides_size_witness :
  (run_ (pipeline running_decoder) = true -> allocated (pipeline running_decoder)) /\
  exists o1 o2,
    SetCodecContext 2 (Some example_context) 640 480 true running_decoder = (Ret tt, o1) /\
    width_ o1 = 640%Z /\
    HandlePictureSequence_ example_format 1 o1 = (Ret 1%Z, o2) /\
    width_ o2 = 1920%Z /\ height_ o2 = 1088%Z /\
    frame_base_ o2 = mkRational 1001 30000.
Proof.
  assert (Ha : run_ (pipeline running_decoder) = true -> allocated (pipeline running_decoder)).
  { intros _. vm_compute. repeat split; eauto. }
  split; [exact Ha|].
  destruct (sequence_callback_overrides_size 2 example_context 640 480 example_format 1
              running_decoder Ha)
    as (o1 & o2 & H1 & H2 & _ & H3 & H4 & H5 & _ & H6).
  exists o1, o2. repeat (split; [assumption|]). apply H6; simpl; lia.
Defined.

Lemma ConvertThread_pairs_in_order_witness :
  run_ two_shown = true /\
  buffer_queue_ two_shown = Some (mkQueue [mkDisp 1 200; mkDisp 0 100] false) /\
  frame_queue_ two_shown = Some (mkQueue [Some 1; Some 2] false) /\
  frame_order_ two_shown = Some (mkQueue [100%Z; 200%Z] false) /\
  exists s',
    ConvertThread_loop 3 two_shown = (Blocks, s') /\
    ready s' = [Some 1; Some 2] /\
    log s' = log two_shown ++
      [ObsProcessFrame 1 (Some 1); ObsRelease 1; ObsProcessFrame 0 (Some 2); ObsRelease 0].
Proof.
  assert (Hr : run_ two_shown = true) by reflexivity.
  assert (Hb : buffer_queue_ two_shown = Some (mkQueue [mkDisp 1 200; mkDisp 0 100] false))
    by reflexivity.
  assert (Hf : frame_queue_ two_shown = Some (mkQueue ([Some 1; Some 2] ++ []) false))
    by reflexivity.
  assert (Ho : frame_order_ two_shown = Some (mkQueue ([100%Z; 200%Z] ++ []) false))
    by reflexivity.
  assert (Hq : reorder_queue_ two_shown = Some (mkQueue [] false)) by reflexivity.
  assert (Hd : Forall (fun arr : NDArray => defined arr = true) [Some 1; Some 2]).
  { repeat constructor. }
  assert (Hs : Forall (fun d => slot_ok (permits_ two_shown) (picture_index d))
                 [mkDisp 1 200; mkDisp 0 100]).
  { repeat constructor; simpl; try lia; eexists; reflexivity. }
  split; [exact Hr|]. split; [exact Hb|]. split; [exact Hf|]. split; [exact Ho|].
  destruct (ConvertThread_pairs_in_order 3 [mkDisp 1 200; mkDisp 0 100]
              [Some 1; Some 2] [100%Z; 200%Z] two_shown [] [] [] Hr Hb Hf Ho Hq)
    as (s' & H1 & H2 & _ & _ & _ & H3);
    [reflexivity | reflexivity | exact Hd | exact Hs | simpl; lia |].
  exists s'. split; [exact H1|]. split; [exact H2|exact H3].
Defined.

Lemma Clear_idempotent_witness :
  (run_ one_pushed = true -> allocated one_pushed) /\
  exists s', Clear one_pushed = (Ret tt, s') /\ Clear s' = (Ret tt, s').
Proof.
  assert (Ha : run_ one_pushed = true -> allocated one_pushed).
  { intros _. vm_compute. repeat split; eauto. }
  split; [exact Ha|].
  destruct (Clear_idempotent one_pushed Ha) as (s' & H1 & H2 & _).
  exists s'. split; assumption.
Defined.


Lemma order_preservation_after_restart_witness :
  reachable 2 first_session /\ pc first_session = Idle /\
  draining_ (dec first_session) = false /\
  run_events 2 ([CallClear; StopResume; CallStart] ++ second_session_trace)
    first_session = Some second_session /\
  pushed second_session =
    pushed first_session ++ submission [mkPacket 500 40 10] [5] ++ [(None, Some 9)] /\
  last_pts_ (dec second_session) = 140%Z /\
  exists n m st',
    run_events 2 (replicate n ConvertTurn ++ replicate m CallPop) second_session
      = Some st' /\
    popped st' = [Some 5] /\
    Pop (dec st') = (Ret None, dec st').
Proof.
  assert (Hr : reachable 2 first_session).
  { exists [CallStart; CallPush (Some (mkPacket 100 100 10)) (Some 1)].
    vm_compute. reflexivity. }
  assert (Hpc : pc first_session = Idle) by reflexivity.
  assert (Hd : draining_ (dec first_session) = false) by reflexivity.
  assert (Hrun : run_events 2 ([CallClear; StopResume; CallStart] ++ second_session_trace)
                   first_session = Some second_session).
  { vm_compute. reflexivity. }
  assert (Hpu : pushed second_session =
                pushed first_session ++ submission [mkPacket 500 40 10] [5]
                  ++ [(None, Some 9)]).
  { vm_compute. reflexivity. }
  assert (Hnd : NoDup [5]).
  { apply (bool_decide_unpack _). vm_compute. exact I. }
  split; [exact Hr|]. split; [exact Hpc|]. split; [exact Hd|]. split; [exact Hrun|].
  split; [exact Hpu|]. split; [reflexivity|].
  destruct (order_preservation_after_restart 2 first_session [mkPacket 500 40 10] [5]
              (Some 9) second_session_trace second_session Hr Hpc Hd eq_refl Hnd
              eq_refl Hrun Hpu eq_refl)
    as (_ & n & m & st' & H1 & H2 & H3).
  exists n, m, st'. split; [exact H1|]. split; [exact H2|exact H3].
Defined.

Lemma stepwise_state_defined : all_defined (pushes stepwise_state).
Proof. repeat constructor. Qed.



Lemma Clear_then_Start_restarts_witness :
  forallb session_event stepwise_trace = true /\
  run_steps 2 (CallStart :: stepwise_trace) initial_process = Some stepwise_state /\
  all_defined (pushes stepwise_state) /\
  wants_frame (converter stepwise_state) = 0 /\
  exists tr' p',
    run_steps 2 (CallClear :: tr' ++ [CallStart]) stepwise_state = Some p' /\
    run_ (this p') = true /\ converter p' = AtBufferPop /\
    permits_ (this p') = replicate 2 (Some (mkQueue [1%Z] false)) /\
    frame_count_ (this p') = 0%Z /\ ready (this p') = [] /\
    last_pts_ (this p') = 300%Z /\ draining_ (this p') = true.
Proof.
  assert (He : forallb session_event stepwise_trace = true) by reflexivity.
  assert (Hrun : run_steps 2 (CallStart :: stepwise_trace) initial_process
                 = Some stepwise_state) by (vm_compute; reflexivity).
  assert (Hw : wants_frame (converter stepwise_state) = 0) by reflexivity.
  split; [exact He|]. split; [exact Hrun|]. split; [exact stepwise_state_defined|].
  split; [exact Hw|].
  destruct (Clear_then_Start_restarts 2 stepwise_trace stepwise_state
              He Hrun stepwise_state_defined Hw)
    as (tr' & p' & _ & H1 & _ & _ & H2 & _ & _ & _ & H3 & H4 & H5 & _ & _ & _ & _ & _ & H6 & H7 & H8 & _).
  exists tr', p'. split; [exact H1|]. split; [exact H2|]. split; [exact H3|].
  split; [exact H4|]. split; [exact H5|]. split; [exact H6|].
  split; [rewrite H7; reflexivity|rewrite H8; reflexivity].
Defined.

Lemma session_conservation_witness :
  forallb session_event stepwise_trace = true /\
  run_steps 2 (CallStart :: stepwise_trace) initial_process = Some stepwise_state /\
  all_defined (pushes stepwise_state) /\
  pops stepwise_state = [Some 1] /\ ready (this stepwise_state) = [] /\
  held_frame (converter stepwise_state) = [Some 2] /\
  contents (frame_queue_ (this stepwise_state)) = [Some 3; Some 9] /\
  map snd (pushes stepwise_state) =
    pops stepwise_state ++ ready (this stepwise_state) ++
    held_frame (converter stepwise_state) ++
    contents (frame_queue_ (this stepwise_state)).
Proof.
  assert (He : forallb session_event stepwise_trace = true) by reflexivity.
  assert (Hrun : run_steps 2 (CallStart :: stepwise_trace) initial_process
                 = Some stepwise_state) by (vm_compute; reflexivity).
  split; [exact He|]. split; [exact Hrun|]. split; [exact stepwise_state_defined|].
  split; [reflexivity|]. split; [reflexivity|]. split; [reflexivity|]. split; [reflexivity|].
  apply (session_conservation 2 stepwise_trace stepwise_state He Hrun stepwise_state_defined).
Defined.
